(** * build-router.py: discovery, validation and indexing of skills

    A shallow embedding of [src/build-router.py] and the properties of its
    pipeline: the frontmatter parser, the skill locator, the two-level tree
    scanner, the conflict resolver, the validator, the index generator, the
    listing, and the exit codes and file system effects of [main].

    Conventions of the model.
    - A Python [str] is a list of code points ([N]), so that [str.isspace],
      [str.splitlines], [len] and string comparison are the ones of Python
      and not those of a byte encoding.
    - A [Path] is an absolute POSIX path, given by its components.
    - The file system is a tree; a regular file carries the text that
      [Path.read_text(encoding="utf-8")] returns for it.
    - [Skill] instances live in an object store and lists hold references
      to them; logging, printing and writes are recorded as a trace.
    - A call that changes the file system is checked against the file system
      it finds, raises as the operating system does, and hands on the file
      system it leaves. *)

From stdpp Require Import gmap list sorting strings pretty.

Set Warnings "-register-all,-level-tolerance".
Set Default Proof Using "Type".

(** ** Python strings *)

Abbreviation char := N.
Abbreviation str := (list char).

(** An ASCII literal of the source as a [str]. *)
Definition py (s : string) : str :=
  Ascii.N_of_ascii <$> String.list_ascii_of_string s.

Definition LF : char := 10%N.
Definition CR : char := 13%N.
Definition COLON : char := 58%N.

(** [str.isspace] on one character, which is also the class [\s] of [re]
    on [str] patterns. *)
Definition isspace (c : char) : bool :=
  ((9 <=? c) && (c <=? 13) || (28 <=? c) && (c <=? 32)
   || (c =? 133) || (c =? 160) || (c =? 5760)
   || (8192 <=? c) && (c <=? 8202)
   || (c =? 8232) || (c =? 8233) || (c =? 8239) || (c =? 8287)
   || (c =? 12288))%N.

(** The line boundaries of [str.splitlines] other than [\r\n]. *)
Definition is_linebreak (c : char) : bool :=
  ((10 <=? c) && (c <=? 13) || (28 <=? c) && (c <=? 30)
   || (c =? 133) || (c =? 8232) || (c =? 8233))%N.

Fixpoint lstrip (s : str) : str :=
  match s with
  | c :: s' => if isspace c then lstrip s' else s
  | [] => []
  end.

Definition rstrip (s : str) : str := reverse (lstrip (reverse s)).

(** [s.strip()] *)
Definition strip (s : str) : str := rstrip (lstrip s).

(** [s.splitlines()]: [cur] is the line being read, most recent character
    first. A final line boundary opens no further line. *)
Fixpoint splitlines_from (cur : str) (s : str) : list str :=
  match s with
  | [] => if bool_decide (cur = []) then [] else [reverse cur]
  | c :: s' =>
      if bool_decide (c = CR) then
        match s' with
        | c' :: s'' =>
            if bool_decide (c' = LF) then reverse cur :: splitlines_from [] s''
            else reverse cur :: splitlines_from [] s'
        | [] => [reverse cur]
        end
      else if is_linebreak c then reverse cur :: splitlines_from [] s'
      else splitlines_from (c :: cur) s'
  end.

Definition splitlines (s : str) : list str := splitlines_from [] s.

(** [s.partition(sep)] for a separator of one character: the text before
    the first [sep] and the text after it; when [sep] does not occur, the
    whole of [s] and the empty string. *)
Fixpoint partition (sep : char) (s : str) : str * str :=
  match s with
  | [] => ([], [])
  | c :: s' =>
      if bool_decide (c = sep) then ([], s')
      else let '(before, after) := partition sep s' in (c :: before, after)
  end.

(** [s.startswith(p)] *)
Fixpoint startswith (p s : str) : bool :=
  match p, s with
  | [], _ => true
  | a :: p', b :: s' => bool_decide (a = b) && startswith p' s'
  | _ :: _, [] => false
  end.

(** [s.replace(old, new)] for a non-empty [old]: occurrences are replaced
    from the left and do not overlap. [skip] counts the characters of a
    replaced occurrence that are still to be passed over. *)
Fixpoint replace_from (old new : str) (skip : nat) (s : str) : str :=
  match s with
  | [] => []
  | c :: s' =>
      match skip with
      | S k => replace_from old new k s'
      | O =>
          if startswith old s then new ++ replace_from old new (length old - 1) s'
          else c :: replace_from old new 0 s'
      end
  end.

Definition replace (old new s : str) : str := replace_from old new 0 s.

(** [sep.join(parts)] *)
Fixpoint join (sep : str) (parts : list str) : str :=
  match parts with
  | [] => []
  | [p] => p
  | p :: rest => p ++ sep ++ join sep rest
  end.

(** Lexicographic comparison of sequences, as Python compares [str] by code
    point and tuples or lists by component. *)
Fixpoint seq_leb {A} (leb : A → A → bool) (x y : list A) : bool :=
  match x, y with
  | [], _ => true
  | _ :: _, [] => false
  | a :: x', b :: y' =>
      if leb a b then (if leb b a then seq_leb leb x' y' else true) else false
  end.

Definition str_leb : str → str → bool := seq_leb N.leb.

(** [sorted(l, key=key)]: a stable sort, here by insertion from the right. *)
Fixpoint sorted_insert {A K} (leb : K → K → bool) (key : A → K)
    (x : A) (l : list A) : list A :=
  match l with
  | [] => [x]
  | y :: l' =>
      if leb (key x) (key y) then x :: l
      else y :: sorted_insert leb key x l'
  end.

Definition sorted {A K} (leb : K → K → bool) (key : A → K) (l : list A) : list A :=
  foldr (sorted_insert leb key) [] l.

(** ** The regular expression of the frontmatter block

    [re.match(r"^---\s*\n(.*?)\n---", content, re.DOTALL)] as a backtracking
    matcher in continuation-passing style: every piece of the pattern takes
    the matcher of the rest of the pattern. *)

Definition DELIM : str := py "---".

Definition matcher (R : Type) := str → option R.

(** The end of the pattern: the match succeeds. *)
Definition re_end : matcher unit := λ _, Some tt.

(** A literal. *)
Definition re_lit {R} (l : str) (k : matcher R) : matcher R :=
  λ s, if startswith l s then k (drop (length l) s) else None.

(** [c*] for a character class, greedy: the longest run is tried first and
    given back one character at a time. *)
Fixpoint re_star_greedy {R} (cls : char → bool) (k : matcher R) (s : str) : option R :=
  match s with
  | c :: s' =>
      if cls c then
        match re_star_greedy cls k s' with
        | Some r => Some r
        | None => k s
        end
      else k s
  | [] => k []
  end.

(** [(.*?)] under [re.DOTALL], lazy and capturing: the shortest text is
    tried first and extended one character at a time. *)
Fixpoint re_group_lazy_any {R} (k : matcher R) (s : str) : option (str * R) :=
  match k s with
  | Some r => Some ([], r)
  | None =>
      match s with
      | c :: s' => (λ '(g, r), (c :: g, r)) <$> re_group_lazy_any k s'
      | [] => None
      end
  end.

(** The whole pattern; the result is [match.group(1)]. *)
Definition frontmatter_re (content : str) : option str :=
  fst <$>
    re_lit DELIM
      (re_star_greedy isspace
         (re_lit [LF]
            (re_group_lazy_any (re_lit (LF :: DELIM) re_end)))) content.

(** ** parse_frontmatter *)

Definition parse_frontmatter (content : str) : gmap str str :=
  match frontmatter_re content with
  | None => ∅
  | Some group1 =>
      foldl (λ (frontmatter : gmap str str) line,
               if bool_decide (COLON ∈ line) then
                 let '(key, value) := partition COLON line in
                 <[strip key := strip value]> frontmatter
               else frontmatter)
            ∅ (splitlines group1)
  end.

(** ** Paths and the file system *)

(** An absolute path, as its components below the root. *)
Abbreviation Path := (list str).

(** [path / child] for a single component [child]. *)
Definition path_div (p : Path) (child : str) : Path := p ++ [child].
Infix "</>" := path_div (at level 40, left associativity).

(** [path.name] *)
Definition path_name (p : Path) : str := default [] (last p).

(** [str(path)] *)
Definition path_str (p : Path) : str :=
  match p with
  | [] => py "/"
  | _ => mjoin ((λ c, py "/" ++ c) <$> p)
  end.

(** Paths compare by their components. *)
Definition path_leb : Path → Path → bool := seq_leb str_leb.

Inductive node :=
  | File (content : str)
  | Dir (entries : gmap str node).

Fixpoint resolve (fs : node) (p : Path) : option node :=
  match p with
  | [] => Some fs
  | c :: p' =>
      match fs with
      | Dir entries => entries !! c ≫= λ child, resolve child p'
      | File _ => None
      end
  end.

Definition is_dir (fs : node) (p : Path) : bool :=
  match resolve fs p with Some (Dir _) => true | _ => false end.

Definition is_file (fs : node) (p : Path) : bool :=
  match resolve fs p with Some (File _) => true | _ => false end.

(** The operations that change the file system take it and return the one
    they leave; [None] is an exception of the operating system. *)

(** [path.mkdir(parents=True, exist_ok=True)]: raises when [path] or one of
    its parents is a file. *)
Fixpoint mkdir_p (p : Path) (fs : node) : option node :=
  match fs with
  | File _ => None
  | Dir entries =>
      match p with
      | [] => Some fs
      | c :: p' =>
          child ← mkdir_p p' (default (Dir ∅) (entries !! c));
          Some (Dir (<[c := child]> entries))
      end
  end.

(** [path.write_text(content)]: creates the file or replaces its text;
    raises when [path] is a directory or its parent is not one. *)
Fixpoint write_text (p : Path) (content : str) (fs : node) : option node :=
  match p with
  | [] => match fs with File _ => Some (File content) | Dir _ => None end
  | c :: p' =>
      match fs with
      | File _ => None
      | Dir entries =>
          match entries !! c with
          | Some child =>
              child' ← write_text p' content child;
              Some (Dir (<[c := child']> entries))
          | None =>
              match p' with
              | [] => Some (Dir (<[c := File content]> entries))
              | _ :: _ => None
              end
          end
      end
  end.

(** [shutil.copy2(src, dst)], as far as the texts of the files go: [src]
    is a file other than [dst]; a [dst] that is a directory receives the
    copy under the name of [src]. *)
Definition copy2 (src dst : Path) (fs : node) : option node :=
  match resolve fs src with
  | Some (File content) =>
      if bool_decide (src = dst) then None
      else if is_dir fs dst then write_text (dst </> path_name src) content fs
      else write_text dst content fs
  | _ => None
  end.

(** ** Objects, effects and exceptions

    A computation takes the state of the interpreter (the [Skill] objects
    allocated so far and the trace of what was logged, printed and written)
    and either raises ([None]) or returns a value and the next state. *)

Record Skill := {
  name : str;
  path : Path;
  description : option str;
  helpers : list str;
  warnings : list str;
}.

Abbreviation ref := nat.

Inductive level := DEBUG | INFO | WARNING | ERROR.

Inductive event :=
  | Log (lvl : level) (msg : str)
  | Print (text : str)
  | Copy2 (src dst : Path)
  | Mkdir (p : Path)
  | WriteText (p : Path) (content : str).

Record pystate := {
  objects : list Skill;
  trace : list event;
}.

Definition Py (A : Type) : Type := pystate → option (A * pystate).

#[global] Instance Py_ret : MRet Py := λ A a st, Some (a, st).
#[global] Instance Py_bind : MBind Py := λ A B f m st,
  match m st with
  | Some (a, st') => f a st'
  | None => None
  end.

(** [Skill(...)]: a new object, referenced by its position in the store. *)
Definition new_Skill (s : Skill) : Py ref := λ st,
  Some (length (objects st),
        {| objects := objects st ++ [s]; trace := trace st |}).

(** [skill.f] *)
Definition attr {A} (f : Skill → A) (skill : ref) : Py A := λ st,
  (λ s, (f s, st)) <$> objects st !! skill.

Definition emit (e : event) : Py unit := λ st,
  Some (tt, {| objects := objects st; trace := trace st ++ [e] |}).

Definition log (lvl : level) (msg : str) : Py unit := emit (Log lvl msg).
Definition print (text : str) : Py unit := emit (Print text).

(** What one event does to the file system; logging and printing leave it
    as it is. *)
Definition apply_effect (fs : node) (e : event) : option node :=
  match e with
  | Copy2 src dst => copy2 src dst fs
  | Mkdir p => mkdir_p p fs
  | WriteText p content => write_text p content fs
  | Log _ _ | Print _ => Some fs
  end.

(** A call that changes the file system: it raises when the operating
    system refuses it; otherwise it is recorded in the trace and the result
    is the file system it leaves. *)
Definition perform (fs : node) (e : event) : Py node := λ st,
  match apply_effect fs e with
  | Some fs' => Some (fs', {| objects := objects st; trace := trace st ++ [e] |})
  | None => None
  end.

(** [path.read_text(encoding="utf-8")] raises unless [path] is a file. *)
Definition read_text (fs : node) (p : Path) : Py str := λ st,
  match resolve fs p with
  | Some (File content) => Some (content, st)
  | _ => None
  end.

(** [path.iterdir()] raises unless [path] is a directory; the order of the
    entries is that of the directory, which [sorted] makes irrelevant. *)
Definition iterdir (fs : node) (p : Path) : Py (list Path) := λ st,
  match resolve fs p with
  | Some (Dir entries) => Some ((λ c, p </> c) <$> elements (dom entries), st)
  | _ => None
  end.

(** [for x in l: body], threading the local variables [s] the body assigns. *)
Fixpoint for_each {A S} (l : list A) (body : A → S → Py S) (s : S) : Py S :=
  match l with
  | [] => mret s
  | x :: l' => s' ← body x s; for_each l' body s'
  end.

(** The truth value of a [str | None]: [None] and the empty string are false. *)
Definition truthy (v : option str) : bool :=
  match v with
  | Some (_ :: _) => true
  | _ => false
  end.

(** ** The module's constants *)

Definition IGNORED_DIRS : gset str :=
  {[ py "_router"; py ".git"; py "__pycache__"; py "node_modules";
     py ".venv"; py "venv"; py ".hatch" ]}.

Definition HELPER_DIRS : gset str :=
  {[ py "scripts"; py "references"; py "assets" ]}.

(** ** should_ignore, find_helper_dirs, find_skill_in_dir *)

Definition should_ignore (p : Path) : bool :=
  bool_decide (path_name p ∈ IGNORED_DIRS) || startswith (py ".") (path_name p).

Definition find_helper_dirs (fs : node) (skill_path : Path) : list str :=
  let found :=
    foldl (λ found helper,
             if is_dir fs (skill_path </> helper) then found ++ [helper]
             else found)
          [] (elements HELPER_DIRS) in
  sorted str_leb id found.

Definition missing_name_warning (folder : str) : str :=
  py "Missing 'name' in frontmatter, using folder name: " ++ folder.

Definition missing_description_warning : str :=
  py "Missing 'description' in frontmatter".

Definition find_skill_in_dir (fs : node) (dir_path : Path) : Py (option ref) :=
  let skill_file := dir_path </> py "SKILL.md" in
  if negb (is_file fs skill_file) then mret None
  else
    content ← read_text fs skill_file;
    let frontmatter := parse_frontmatter content in
    let warnings := [] in
    let name := frontmatter !! py "name" in
    let '(name, warnings) :=
      if negb (truthy name) then
        let name := path_name dir_path in
        (name, warnings ++ [missing_name_warning name])
      else (default [] name, warnings) in
    let description := frontmatter !! py "description" in
    let warnings :=
      if negb (truthy description)
      then warnings ++ [missing_description_warning]
      else warnings in
    let helpers := find_helper_dirs fs dir_path in
    skill ← new_Skill {| name := name; path := dir_path;
                         description := description;
                         helpers := helpers; warnings := warnings |};
    mret (Some skill).

(** ** scan_skills *)

Definition found_skill_message (skill_name : str) (at_path : Path) : str :=
  py "Found skill: " ++ skill_name ++ py " at " ++ path_str at_path.

Definition scan_skills (fs : node) (skills_dir : Path) : Py (list ref) :=
  let skills := [] in
  if negb (is_dir fs skills_dir) then
    log ERROR (py "Skills directory does not exist: " ++ path_str skills_dir);;
    mret skills
  else
    items ← iterdir fs skills_dir;
    for_each (sorted path_leb id items) (λ item skills,
      if negb (is_dir fs item) || should_ignore item then mret skills
      else
        skill ← find_skill_in_dir fs item;
        match skill with
        | Some skill =>
            skill_name ← attr name skill;
            log DEBUG (found_skill_message skill_name item);;
            mret (skills ++ [skill])
        | None =>
            log DEBUG (py "Scanning skill group: " ++ path_name item);;
            subitems ← iterdir fs item;
            for_each (sorted path_leb id subitems) (λ subitem skills,
              if negb (is_dir fs subitem) || should_ignore subitem
              then mret skills
              else
                skill ← find_skill_in_dir fs subitem;
                match skill with
                | Some skill =>
                    skill_name ← attr name skill;
                    log DEBUG (found_skill_message skill_name subitem);;
                    mret (skills ++ [skill])
                | None => mret skills
                end) skills
        end) skills.

(** ** validate_skills and check_conflicts *)

Definition validate_skills (skills : list ref) : Py nat :=
  let warning_count := 0 in
  for_each skills (λ skill warning_count,
    skill_warnings ← attr warnings skill;
    for_each skill_warnings (λ warning warning_count,
      skill_name ← attr name skill;
      log WARNING (skill_name ++ py ": " ++ warning);;
      mret (warning_count + 1)) warning_count) warning_count.

(** The three characters before [skipping] are those of the source's
    string literal. *)
Definition conflict_message (skill_name : str) (found registered : Path) : str :=
  py "Conflict: skill '" ++ skill_name ++ py "' found at " ++ path_str found
  ++ py " but already registered from " ++ path_str registered
  ++ py " " ++ [226; 8364; 8221]%N ++ py " skipping".

Definition check_conflicts (skills : list ref) : Py (list ref) :=
  let seen : gmap str Path := ∅ in
  let unique : list ref := [] in
  '(seen, unique) ← for_each skills (λ skill '(seen, unique),
      skill_name ← attr name skill;
      match seen !! skill_name with
      | Some registered =>
          skill_path ← attr path skill;
          log WARNING (conflict_message skill_name skill_path registered);;
          mret (seen, unique)
      | None =>
          skill_path ← attr path skill;
          mret (<[skill_name := skill_path]> seen, unique ++ [skill])
      end) (seen, unique);
  mret unique.

(** ** generate_router_content *)

(** [home] is [Path.home()]. *)
Definition generate_router_content (home : Path) (skills : list ref) : Py str :=
  let lines := [py "# Skill Router"; []] in
  keyed ← mapM (λ skill, key ← attr name skill; mret (key, skill)) skills;
  lines ← for_each (sorted str_leb fst keyed) (λ '(_, skill) lines,
    skill_path ← attr path skill;
    let path_str := replace (path_str home) (py "~") (path_str skill_path) in
    skill_name ← attr name skill;
    mret (lines ++ [skill_name ++ py ": " ++ path_str ++ py "/"])) lines;
  let lines := lines ++ [[]] in
  mret (join [LF] lines).

(** ** list_skills and backup_router *)

(** [str(n)] for a non-negative integer. *)
Definition str_of_nat (n : nat) : str := py (pretty n).

(** [f"{s:<{width}}"] *)
Definition ljust (s : str) (width : nat) : str :=
  s ++ replicate (width - length s) 32%N.

Definition list_skills (skills : list ref) : Py unit :=
  if bool_decide (skills = []) then print (py "No skills found.")
  else
    names ← mapM (attr name) skills;
    let max_name := max_list (length <$> names) in
    print ([LF] ++ ljust (py "SKILL") max_name ++ py "  DESCRIPTION");;
    print (replicate max_name 45%N ++ py "  " ++ replicate 50 45%N);;
    keyed ← mapM (λ skill, key ← attr name skill; mret (key, skill)) skills;
    for_each (sorted str_leb fst keyed) (λ '(_, skill) _,
      skill_description ← attr description skill;
      let desc :=
        if truthy skill_description then default [] skill_description
        else py "(no description)" in
      let desc :=
        if bool_decide (60 < length desc) then take 57 desc ++ py "..."
        else desc in
      skill_helpers ← attr helpers skill;
      let helpers_str :=
        if bool_decide (skill_helpers = []) then []
        else py " [" ++ join (py ", ") skill_helpers ++ py "]" in
      skill_name ← attr name skill;
      print (ljust skill_name max_name ++ py "  " ++ desc ++ helpers_str)) tt;;
    print ([LF] ++ py "Total: " ++ str_of_nat (length skills) ++ py " skill(s)").

(** [s.rfind(c)] *)
Fixpoint rfind (c : char) (s : str) : option nat :=
  match s with
  | [] => None
  | x :: s' =>
      match rfind c s' with
      | Some i => Some (S i)
      | None => if bool_decide (x = c) then Some 0 else None
      end
  end.

(** [path.with_suffix(suffix)] for a path with a name: the name loses its
    last extension, if it has one, and gains [suffix]. *)
Definition with_suffix (p : Path) (suffix : str) : Path :=
  let file_name := path_name p in
  let stem :=
    match rfind 46%N file_name with
    | Some i =>
        if bool_decide (0 < i ∧ i < length file_name - 1) then take i file_name
        else file_name
    | None => file_name
    end in
  removelast p ++ [stem ++ suffix].

(** [timestamp] is [datetime.now().strftime("%Y%m%d_%H%M%S")]. The result
    is the value returned together with the file system the call leaves. *)
Definition backup_router (fs : node) (timestamp : str) (router_file : Path)
    : Py (option Path * node) :=
  if negb (is_file fs router_file) then mret (None, fs)
  else
    let backup_path := with_suffix router_file (py "." ++ timestamp ++ py ".bak") in
    fs_copied ← perform fs (Copy2 router_file backup_path);
    log INFO (py "Backed up existing router to " ++ path_str backup_path);;
    mret (Some backup_path, fs_copied).

(** ** main *)

(** The parsed command line; [args_skills_dir] is the directory after
    [expanduser()]. The trace records every call of the logger with its
    level; [args_verbose] only decides whether the handler shows the
    [DEBUG] ones. *)
Record Args := {
  args_skills_dir : Path;
  args_list_skills : bool;
  args_validate : bool;
  args_dry_run : bool;
  args_backup : bool;
  args_verbose : bool;
}.

(** The result is the exit status that [raise SystemExit(main())] hands to
    the caller; [None] is an exception that nothing catches, with which the
    process ends in failure. *)
Definition main (fs : node) (home : Path) (timestamp : str) (args : Args) : Py nat :=
  let skills_dir := args_skills_dir args in
  let router_dir := skills_dir </> py "_router" in
  let router_file := router_dir </> py "SKILL.md" in
  log INFO (py "Scanning: " ++ path_str skills_dir);;
  skills ← scan_skills fs skills_dir;
  if bool_decide (skills = []) then
    log WARNING (py "No skills found");;
    mret 1
  else
    skills ← check_conflicts skills;
    warning_count ← validate_skills skills;
    log INFO (py "Found " ++ str_of_nat (length skills) ++ py " skill(s)");;
    (if bool_decide (warning_count ≠ 0)
     then log INFO (py "Validation: " ++ str_of_nat warning_count ++ py " warning(s)")
     else mret tt);;
    if args_list_skills args then
      list_skills skills;;
      mret 0
    else if args_validate args then
      if bool_decide (warning_count ≠ 0) then
        print ([LF] ++ py "Validation completed with " ++ str_of_nat warning_count
               ++ py " warning(s)");;
        mret 1
      else
        print ([LF] ++ py "All skills valid");;
        mret 0
    else
      content ← generate_router_content home skills;
      if args_dry_run args then
        print ([LF] ++ py "--- Router content (dry run) ---");;
        print content;;
        print (py "--- End ---");;
        mret 0
      else
        fs_backed ← (if args_backup args
                     then backed ← backup_router fs timestamp router_file;
                          mret backed.2
                     else mret fs);
        fs_made ← perform fs_backed (Mkdir router_dir);
        perform fs_made (WriteText router_file content);;
        log INFO (py "Router written to " ++ path_str router_file);;
        mret 0.

(** * Descriptions the code is compared with *)

(** ** The frontmatter block, without backtracking *)

(** The text of [s] before the first occurrence of [pat]. *)
Fixpoint before_first (pat s : str) : option str :=
  if startswith pat s then Some []
  else match s with
       | c :: s' => (c ::.) <$> before_first pat s'
       | [] => None
       end.

(** The whitespace [s] starts with. *)
Fixpoint leading_space (s : str) : str :=
  match s with
  | c :: s' => if isspace c then c :: leading_space s' else []
  | [] => []
  end.

(** The text after the last [c] of [s] (all of [s] when it has none). *)
Fixpoint after_last (c : char) (s : str) : str :=
  match s with
  | [] => []
  | x :: s' =>
      if bool_decide (c ∈ s') then after_last c s'
      else if bool_decide (x = c) then s' else s
  end.

(** The block the parser reads: the text starts with the delimiter, the
    whitespace that follows it contains a newline, and some later line
    starts with the delimiter; the block runs from after the last newline
    of that whitespace to the newline before the first such line. *)
Definition frontmatter_block (content : str) : option str :=
  if startswith DELIM content then
    let rest := drop (length DELIM) content in
    let ws := leading_space rest in
    if bool_decide (LF ∈ ws)
    then before_first (LF :: DELIM) (after_last LF ws ++ lstrip rest)
    else None
  else None.

(** A line [raw_key:raw_value], cut at its first colon, binds [key]. *)
Definition binds (line : str) (key value : str) : Prop :=
  ∃ raw_key raw_value,
    line = raw_key ++ (COLON :: raw_value) ∧ COLON ∉ raw_key ∧
    strip raw_key = key ∧ strip raw_value = value.

(** ** The fenced block as the specification words it

    The text is cut into lines at newlines; the first line is the delimiter
    and nothing else, and the block ends at the next line that is the
    delimiter and nothing else. The result is the lines of the body. *)

Fixpoint split_on (sep : char) (cur : str) (s : str) : list str :=
  match s with
  | [] => [reverse cur]
  | c :: s' =>
      if bool_decide (c = sep) then reverse cur :: split_on sep [] s'
      else split_on sep (c :: cur) s'
  end.

Fixpoint lines_before_delimiter (lines : list str) : option (list str) :=
  match lines with
  | [] => None
  | l :: lines' =>
      if bool_decide (l = DELIM) then Some []
      else (l ::.) <$> lines_before_delimiter lines'
  end.

Definition claimed_fenced_block (text : str) : option (list str) :=
  match split_on LF [] text with
  | first :: rest =>
      if bool_decide (first = DELIM) then lines_before_delimiter rest else None
  | [] => None
  end.

(** ** The record of a directory *)

(** The recognized helper names, in alphabetical order. *)
Definition helper_names : list str :=
  [py "assets"; py "references"; py "scripts"].

(** The record the locator builds for a directory whose descriptor holds
    [content]: the name is the value of [name] when the field is present
    and not empty, and the name of the directory otherwise, with a warning;
    a [description] that is absent or empty gives a warning; the helpers
    are the recognized names that are subdirectories. *)
Definition located_skill (fs : node) (dir_path : Path) (content : str) : Skill :=
  let frontmatter := parse_frontmatter content in
  {| name :=
       match frontmatter !! py "name" with
       | Some (c :: n) => c :: n
       | _ => path_name dir_path
       end;
     path := dir_path;
     description := frontmatter !! py "description";
     helpers := filter (λ h, is_dir fs (dir_path </> h) = true) helper_names;
     warnings :=
       match frontmatter !! py "name" with
       | Some (_ :: _) => []
       | _ => [missing_name_warning (path_name dir_path)]
       end
       ++ match frontmatter !! py "description" with
          | Some (_ :: _) => []
          | _ => [missing_description_warning]
          end |}.

Definition locate (fs : node) (dir_path : Path) : option Skill :=
  match resolve fs (dir_path </> py "SKILL.md") with
  | Some (File content) => Some (located_skill fs dir_path content)
  | _ => None
  end.

(** The name C1 gives the record: the value of the field, or the name of
    the directory when the field is absent. *)
Definition claimed_name (frontmatter : gmap str str) (dir_path : Path) : str :=
  match frontmatter !! py "name" with
  | Some v => v
  | None => path_name dir_path
  end.

(** The state after allocating [found] and adding [logged] to the trace. *)
Definition extend (st : pystate) (found : list Skill) (logged : list event) : pystate :=
  {| objects := objects st ++ found; trace := trace st ++ logged |}.

(** ** The scan, by levels *)

(** The entries of a directory, as paths. *)
Definition children (fs : node) (d : Path) : list Path :=
  match resolve fs d with
  | Some (Dir entries) => (λ c, d </> c) <$> elements (dom entries)
  | _ => []
  end.

(** The direct child directories of [d] that are not ignored, in
    alphabetical order. *)
Definition candidates (fs : node) (d : Path) : list Path :=
  filter (λ p, is_dir fs p = true ∧ should_ignore p = false)
         (sorted path_leb id (children fs d)).

(** The records of a scan of [root]: nothing when [root] is not a
    directory; otherwise every candidate child gives its own record when
    the locator yields one, and the records of its candidate children when
    it does not. *)
Definition scan_records (fs : node) (root : Path) : list Skill :=
  if is_dir fs root then
    candidates fs root ≫= λ child,
      match locate fs child with
      | Some skill => [skill]
      | None => omap (locate fs) (candidates fs child)
      end
  else [].

(** What a path is: nothing, a file with its text, or a directory. *)
Definition shape (fs : node) (p : Path) : option (option str) :=
  (λ n, match n with File content => Some content | Dir _ => None end)
    <$> resolve fs p.

(** Two file systems are the same down to [depth] levels below [root]:
    the same paths exist there, with the same kinds and the same texts.
    What the directories at level [depth] contain is not compared. *)
Definition same_to_depth (depth : nat) (root : Path) (fs1 fs2 : node) : Prop :=
  ∀ rel : Path, length rel ≤ depth → shape fs1 (root ++ rel) = shape fs2 (root ++ rel).

(** From [st0] with the list [skills0], the records [found] were allocated
    and appended, in order, and nothing else changed but the trace. *)
Definition appended (st0 : pystate) (skills0 : list ref) (found : list Skill)
    (skills : list ref) (st : pystate) : Prop :=
  ∃ logged,
    skills = skills0 ++ seq (length (objects st0)) (length found) ∧
    st = extend st0 found logged.

(** [fs] with the node at [p] replaced by [new]; [fs] itself when [p]
    does not exist. *)
Fixpoint graft (fs : node) (p : Path) (new : node) : node :=
  match p with
  | [] => new
  | c :: p' =>
      match fs with
      | Dir entries =>
          match entries !! c with
          | Some child => Dir (<[c := graft child p' new]> entries)
          | None => fs
          end
      | File _ => fs
      end
  end.

(** ** Deduplication and validation, by position *)

(** The name of the record a reference denotes. *)
Definition name_of (objs : list Skill) (r : ref) : option str :=
  name <$> objs !! r.

(** The records kept of [skills], which come after the records [earlier]:
    those whose name no earlier record has. *)
Fixpoint first_seen (objs : list Skill) (earlier skills : list ref) : list ref :=
  match skills with
  | [] => []
  | r :: rest =>
      (if decide (name_of objs r ∈ name_of objs <$> earlier) then [] else [r])
      ++ first_seen objs (earlier ++ [r]) rest
  end.

(** The path of the first of the records [earlier] named [n]. *)
Fixpoint registered (objs : list Skill) (earlier : list ref) (n : str) : option Path :=
  match earlier with
  | [] => None
  | e :: rest =>
      match objs !! e with
      | Some s => if decide (name s = n) then Some (path s) else registered objs rest n
      | None => registered objs rest n
      end
  end.

(** One warning for every record of [skills] whose name an earlier record
    has; it names the record's path and the path of the first record of
    that name. *)
Fixpoint conflicts (objs : list Skill) (earlier skills : list ref) : list event :=
  match skills with
  | [] => []
  | r :: rest =>
      match objs !! r with
      | Some s =>
          match registered objs earlier (name s) with
          | Some first_path =>
              [Log WARNING (conflict_message (name s) (path s) first_path)]
          | None => []
          end
      | None => []
      end
      ++ conflicts objs (earlier ++ [r]) rest
  end.

(** The warnings of a record, as the validator logs them. *)
Definition warning_events (s : Skill) : list event :=
  (λ w, Log WARNING (name s ++ py ": " ++ w)) <$> warnings s.

(** The records the references of a list denote. *)
Definition deref (objs : list Skill) (skills : list ref) : list Skill :=
  omap (λ r, objs !! r) skills.

(** Every reference of the list denotes a record. *)
Definition valid_refs (st : pystate) (skills : list ref) : Prop :=
  Forall (λ r, is_Some (objects st !! r)) skills.

(** The line of a record in the index. *)
Definition router_line (home : Path) (s : Skill) : str :=
  name s ++ py ": " ++ replace (path_str home) (py "~") (path_str (path s)) ++ py "/".

(** The index of a list of records: the header, an empty line, the lines
    of the records in the order of their names, and a final empty line,
    joined by newlines. *)
Definition router_text (home : Path) (records : list Skill) : str :=
  join [LF] ([py "# Skill Router"; []]
             ++ (router_line home <$> sorted str_leb name records)
             ++ [[]]).

(** What [main] prints when validation alone was asked for and there are
    warnings. *)
Definition validation_report (warning_count : nat) : str :=
  [LF] ++ py "Validation completed with " ++ str_of_nat warning_count
  ++ py " warning(s)".




(** ** Example inputs *)

Definition st0 : pystate := {| objects := []; trace := [] |}.

(** A text with a fenced block. *)
Definition fenced_text : str := py "---
name: alpha
description: does X: well
---
# Title".

(** A text whose third line starts with the delimiter but is not the
    delimiter. *)
Definition unfenced_text : str := py "---
name: demo
---draft
".

(** A directory [tool] whose descriptor has [name] and [description]
    fields with nothing after the colon. *)
Definition empty_fields_fs : node :=
  Dir {[ py "tool" := Dir {[ py "SKILL.md" := File (py "---
name:
description:
---
") ]} ]}.

(** A skills directory with two skills, an ignored directory and a group.
    The third record repeats the name of the first. *)
Definition demo_root : Path := [py "home"; py "u"; py "skills"].

Definition demo_fs : node :=
  Dir {[ py "home" := Dir {[ py "u" := Dir {[ py "skills" := Dir (
    <[ py "alpha" :=
         Dir (<[ py "SKILL.md" := File (py "---
name: alpha
description: does X
---
body") ]> (<[ py "scripts" := Dir ∅ ]> (<[ py "assets" := Dir ∅ ]>
            (<[ py "other" := Dir ∅ ]> ∅)))) ]>
    (<[ py "beta" := Dir {[ py "SKILL.md" := File (py "no frontmatter") ]} ]>
    (<[ py ".git" := Dir {[ py "SKILL.md" := File (py "x") ]} ]>
    (<[ py "group" :=
          Dir (<[ py "x" :=
                    Dir (<[ py "SKILL.md" := File (py "---
name: alpha
---") ]> (<[ py "references" := Dir {[ py "deep" := Dir ∅ ]} ]> ∅)) ]>
               (<[ py "y" := Dir ∅ ]> ∅)) ]> ∅)))) ]} ]} ]}.

(** The state after the scan of [demo_fs]. *)
Definition demo_st : pystate :=
  {| objects := scan_records demo_fs demo_root; trace := [] |}.

Definition demo_home : Path := [py "home"; py "u"].

Definition validate_only (skills_dir : Path) : Args :=
  {| args_skills_dir := skills_dir; args_list_skills := false;
     args_validate := true; args_dry_run := false; args_backup := false;
     args_verbose := false |}.

Definition build (skills_dir : Path) : Args :=
  {| args_skills_dir := skills_dir; args_list_skills := false;
     args_validate := false; args_dry_run := false; args_backup := false;
     args_verbose := false |}.

(** A build with [--backup]. *)
Definition build_with_backup (skills_dir : Path) : Args :=
  {| args_skills_dir := skills_dir; args_list_skills := false;
     args_validate := false; args_dry_run := false; args_backup := true;
     args_verbose := false |}.

(** A skills directory outside the home directory, under a path that
    contains the text of the home directory. *)
Definition backup_root : Path := [py "backup"; py "home"; py "u"; py "skills"].

Definition backup_fs : node :=
  Dir {[ py "backup" := Dir {[ py "home" := Dir {[ py "u" := Dir {[ py "skills" :=
    Dir {[ py "x" := Dir {[ py "SKILL.md" := File (py "---
name: x
description: d
---
") ]} ]} ]} ]} ]} ]}.

(** A skills directory with one skill, in which [_router] is a regular
    file. *)
Definition blocked_root : Path := [py "skills"].


(** A skills directory after a build, in which the name of the backup
    made at the time [T] is taken by a directory that holds a directory
    [SKILL.md]. *)
Definition occupied_fs : node :=
  Dir {[ py "skills" :=
    Dir (<[ py "x" := Dir {[ py "SKILL.md" := File (py "---
name: x
description: d
---
") ]} ]> (<[ py "_router" :=
       Dir (<[ py "SKILL.md" := File (py "# Skill Router") ]>
              (<[ py "SKILL.T.bak" := Dir {[ py "SKILL.md" := Dir ∅ ]} ]> ∅)) ]> ∅)) ]}.

(** What a run wrote, in order. *)
Definition writes (events : list event) : list (Path * str) :=
  omap (λ e, match e with WriteText p content => Some (p, content) | _ => None end)
       events.

(** ** Frontmatter written out *)

(** A frontmatter entry as a line of a descriptor. *)
Definition render_entry (e : str * str) : str := e.1 ++ py ": " ++ e.2.

(** A descriptor with the given entries in its frontmatter, followed by
    [rest]. *)
Definition render_frontmatter (entries : list (str * str)) (rest : str) : str :=
  DELIM ++ [LF] ++ join [LF] (render_entry <$> entries) ++ [LF] ++ DELIM ++ rest.

(** An entry that is read back as written: key and value are trimmed and
    hold no line boundary, and the key has no colon and does not start
    with the delimiter. *)
Definition plain_entry (e : str * str) : Prop :=
  strip e.1 = e.1 ∧ strip e.2 = e.2 ∧ COLON ∉ e.1 ∧
  startswith DELIM e.1 = false ∧
  ∀ c, c ∈ e.1 ++ e.2 → is_linebreak c = false.

(** ** The listing *)

(** The description cell of a record in the listing. *)
Definition shown_description (s : Skill) : str :=
  let desc :=
    if truthy (description s) then default [] (description s)
    else py "(no description)" in
  if bool_decide (60 < length desc) then take 57 desc ++ py "..." else desc.

(** The helpers of a record, as the listing shows them. *)
Definition shown_helpers (s : Skill) : str :=
  if bool_decide (helpers s = []) then []
  else py " [" ++ join (py ", ") (helpers s) ++ py "]".

(** ** What a run does to the file system *)

(** The events that act on the file system. *)
Definition is_fs_effect (e : event) : bool :=
  match e with
  | Copy2 _ _ | Mkdir _ | WriteText _ _ => true
  | Log _ _ | Print _ => false
  end.

(** The copies, directory creations and writes of a trace, in order. *)
Definition fs_effects (events : list event) : list event :=
  filter (λ e, is_fs_effect e = true) events.

(** A computation that, when it returns, has only allocated records and
    logged or printed. *)
Definition quiet {A} (m : Py A) : Prop :=
  ∀ st a st', m st = Some (a, st') →
    ∃ found logged, st' = extend st found logged ∧ fs_effects logged = [].

(** The file a backup of [router_dir / "SKILL.md"] is copied to. *)
Definition backup_file (router_dir : Path) (timestamp : str) : Path :=
  router_dir </> (py "SKILL." ++ timestamp ++ py ".bak").

(** The command line [args] with [--dry-run] given or not. *)
Definition set_dry_run (dry_run : bool) (args : Args) : Args :=
  {| args_skills_dir := args_skills_dir args;
     args_list_skills := args_list_skills args;
     args_validate := args_validate args;
     args_dry_run := dry_run;
     args_backup := args_backup args;
     args_verbose := args_verbose args |}.

(** ** What the scan reaches *)

(** One candidate child of the root gives its own record, or those of its
    candidate children. *)
Definition group_records (fs : node) (child : Path) : list Skill :=
  match locate fs child with
  | Some skill => [skill]
  | None => omap (locate fs) (candidates fs child)
  end.

(** A path below the root that the scan can reach: at most three levels
    deep, and neither of its first two components is ignored. *)
Definition visible (rel : Path) : Prop :=
  length rel ≤ 3 ∧ ∀ c, c ∈ take 2 rel → should_ignore [c] = false.

(** Two file systems agree at every path below [root] that the scan can
    reach. *)
Definition same_visible (root : Path) (fs1 fs2 : node) : Prop :=
  ∀ rel, visible rel → shape fs1 (root ++ rel) = shape fs2 (root ++ rel).

(** [fs] with the entry [c] of the directory [d] set to [new]; [fs] itself
    when [d] is not a directory. *)
Fixpoint put (d : Path) (c : str) (new : node) (fs : node) : node :=
  match fs with
  | File _ => fs
  | Dir entries =>
      match d with
      | [] => Dir (<[c := new]> entries)
      | x :: d' =>
          match entries !! x with
          | Some child => Dir (<[x := put d' c new child]> entries)
          | None => fs
          end
      end
  end.

(** ** The file system after a run *)

(** The file system after the events of a trace, in order. *)
Fixpoint apply_effects (fs : node) (events : list event) : option node :=
  match events with
  | [] => Some fs
  | e :: events' => fs' ← apply_effect fs e; apply_effects fs' events'
  end.

(** An event that changes nothing outside the entry [c] of [d]. *)
Definition inside (d : Path) (c : str) (e : event) : Prop :=
  match e with
  | Copy2 _ dst => ∃ rest, dst = d ++ c :: rest
  | Mkdir p => ∃ rest, p = d ++ c :: rest
  | WriteText p _ => ∃ rest, p = d ++ c :: rest
  | Log _ _ | Print _ => True
  end.

(** What a build adds to the trace once the index [content] is made: the
    backup of the router file when it is asked for and the file exists,
    the router directory, the file, and the closing log line. *)
Definition build_trace (fs : node) (timestamp : str) (args : Args)
    (content : str) : list event :=
  let router_dir := args_skills_dir args </> py "_router" in
  let router_file := router_dir </> py "SKILL.md" in
  (if args_backup args && is_file fs router_file
   then [Copy2 router_file (backup_file router_dir timestamp);
         Log INFO (py "Backed up existing router to "
                   ++ path_str (backup_file router_dir timestamp))]
   else [])
  ++ [Mkdir router_dir; WriteText router_file content;
      Log INFO (py "Router written to " ++ path_str router_file)].

(** ** Further example inputs *)

(** The entries of a descriptor that gives [name] twice. *)
Definition sample_entries : list (str * str) :=
  [(py "name", py "alpha"); (py "allowed-tools", py "Read, Grep");
   (py "description", py "does X: well"); (py "name", py "beta")].

(** A store with two records below [/home/u]. *)
Definition sample_store : pystate :=
  {| objects :=
       [ {| name := py "beta"; path := [py "home"; py "u"; py "skills"; py "beta"];
            description := Some (py "second"); helpers := []; warnings := [] |};
         {| name := py "alpha";
            path := [py "home"; py "u"; py "skills"; py "group"; py "alpha"];
            description := None; helpers := [py "scripts"];
            warnings := [missing_description_warning] |} ];
     trace := [] |}.

(** * Properties *)

(** ** The string operations on sample inputs *)

Example splitlines_sample :
  splitlines (py "a" ++ [CR; LF] ++ py "b" ++ [LF; LF] ++ py "c" ++ [CR] ++ py "d" ++ [LF])
  = [py "a"; py "b"; []; py "c"; py "d"].
Proof. vm_compute. reflexivity. Qed.

Example strip_sample : strip ([32; 9] ++ py "x y" ++ [160; 10])%N = py "x y".
Proof. vm_compute. reflexivity. Qed.

Example partition_sample :
  partition COLON (py "key: a:b") = (py "key", py " a:b").
Proof. vm_compute. reflexivity. Qed.

Example replace_sample :
  replace (py "aa") (py "~") (py "xaaaaay") = py "x~~ay".
Proof. vm_compute. reflexivity. Qed.

Example sorted_sample :
  sorted str_leb id [py "b"; py "B"; py "ab"; py "a"; py ""]
  = [py ""; py "B"; py "a"; py "ab"; py "b"].
Proof. vm_compute. reflexivity. Qed.

Example with_suffix_sample :
  with_suffix [py "skills"; py "_router"; py "SKILL.md"] (py ".20250101_000000.bak")
  = [py "skills"; py "_router"; py "SKILL.20250101_000000.bak"].
Proof. vm_compute. reflexivity. Qed.

(** The opening line may end in whitespace and be followed by empty lines;
    an empty block is found by giving a newline back. *)
Example frontmatter_re_samples :
  frontmatter_re (py "--- " ++ [LF; LF] ++ py "a: b" ++ [LF] ++ py "---") = Some (py "a: b") ∧
  frontmatter_re (py "---" ++ [LF; LF] ++ py "---") = Some [] ∧
  frontmatter_re (py "---" ++ [LF] ++ py "---") = None ∧
  frontmatter_re (py "---" ++ [LF] ++ py "a: b") = None ∧
  frontmatter_re ([LF] ++ py "---" ++ [LF] ++ py "a: b" ++ [LF] ++ py "---") = None.
Proof. vm_compute. repeat split. Qed.

(** ** Strings *)

Lemma leading_space_lstrip s : leading_space s ++ lstrip s = s.
Proof.
  induction s as [|c s IH]; simpl; [done|].
  destruct (isspace c); simpl; [by rewrite IH | done].
Qed.

Lemma leading_space_Forall s : Forall (λ c, isspace c = true) (leading_space s).
Proof.
  induction s as [|c s IH]; simpl; [constructor|].
  destruct (isspace c) eqn:E; [by constructor | constructor].
Qed.

Lemma after_last_suffix c s : ∃ pre, s = pre ++ after_last c s.
Proof.
  induction s as [|x s [pre IH]]; simpl; [by exists []|].
  case_bool_decide.
  - exists (x :: pre). simpl. by rewrite <- IH.
  - case_bool_decide; [by exists [x] | by exists []].
Qed.

Lemma after_last_cons_elem c x s : c ∈ s → after_last c (x :: s) = after_last c s.
Proof. intros H. simpl. by rewrite bool_decide_eq_true_2. Qed.

Lemma after_last_cons_fresh c s : c ∉ s → after_last c (c :: s) = s.
Proof.
  intros H. simpl. rewrite bool_decide_eq_false_2 by done.
  by rewrite bool_decide_eq_true_2.
Qed.

Lemma before_first_cons pat c s :
  before_first pat (c :: s)
  = if startswith pat (c :: s) then Some [] else (c ::.) <$> before_first pat s.
Proof. by destruct pat. Qed.

Lemma before_first_app pat pre tail g :
  before_first pat (pre ++ tail) = Some g →
  before_first pat tail = None →
  ∃ x, pre = g ++ x.
Proof.
  revert g. induction pre as [|c pre IH]; intros g Hg Hnone.
  - simpl in Hg. congruence.
  - change ((c :: pre) ++ tail) with (c :: pre ++ tail) in Hg.
    rewrite before_first_cons in Hg.
    destruct (startswith pat (c :: pre ++ tail)).
    + injection Hg as <-. by eexists.
    + destruct (before_first pat (pre ++ tail)) as [g'|] eqn:E; [|done].
      injection Hg as <-.
      destruct (IH g' eq_refl Hnone) as [x ->]. by exists x.
Qed.

(** ** The regular expression *)

Lemma lazy_any_before_first pat s :
  re_group_lazy_any (re_lit pat re_end) s = (λ g, (g, tt)) <$> before_first pat s.
Proof.
  induction s as [|c s IH].
  - simpl. unfold re_lit, re_end. by destruct pat.
  - rewrite before_first_cons.
    change (re_group_lazy_any (re_lit pat re_end) (c :: s))
      with (match re_lit pat re_end (c :: s) with
            | Some r => Some ([], r)
            | None => (λ '(g, r), (c :: g, r)) <$> re_group_lazy_any (re_lit pat re_end) s
            end).
    unfold re_lit at 1.
    destruct (startswith pat (c :: s)); [done|].
    rewrite IH. by destruct (before_first pat s).
Qed.

(** What follows [\s*] in the pattern. *)
Lemma after_space_cons c s :
  re_lit [LF] (re_group_lazy_any (re_lit (LF :: DELIM) re_end)) (c :: s)
  = if bool_decide (c = LF)
    then (λ g, (g, tt)) <$> before_first (LF :: DELIM) s
    else None.
Proof.
  unfold re_lit at 1. simpl startswith.
  rewrite (bool_decide_ext (LF = c) (c = LF)) by done.
  case_bool_decide; [|done].
  simpl. apply lazy_any_before_first.
Qed.

Lemma after_space_nil :
  re_lit [LF] (re_group_lazy_any (re_lit (LF :: DELIM) re_end)) [] = None.
Proof. done. Qed.

Lemma isspace_LF c : c = LF → isspace c = true.
Proof. by intros ->. Qed.

(** Without a newline in the leading whitespace the pattern cannot match. *)
Lemma star_no_newline s :
  LF ∉ leading_space s →
  re_star_greedy isspace
    (re_lit [LF] (re_group_lazy_any (re_lit (LF :: DELIM) re_end))) s = None.
Proof.
  induction s as [|c s IH]; intros Hnl.
  - done.
  - simpl re_star_greedy. simpl in Hnl.
    rewrite after_space_cons.
    destruct (isspace c) eqn:Hc.
    + rewrite IH by (intros ?; apply Hnl; by right).
      rewrite bool_decide_eq_false_2; [done|].
      intros ->. apply Hnl. by left.
    + case_bool_decide as Hlf; [|done].
      by rewrite (isspace_LF _ Hlf) in Hc.
Qed.

(** The block of the pattern after the opening delimiter, described
    without backtracking. *)
Lemma star_block s :
  let direct :=
    if bool_decide (LF ∈ leading_space s)
    then before_first (LF :: DELIM) (after_last LF (leading_space s) ++ lstrip s)
    else None in
  match re_star_greedy isspace
          (re_lit [LF] (re_group_lazy_any (re_lit (LF :: DELIM) re_end))) s with
  | Some (g, _) => direct = Some g ∨ (direct = None ∧ Forall (λ c, isspace c = true) g)
  | None => direct = None
  end.
Proof.
  induction s as [|c s IH]; [done|].
  cbv zeta in *.
  simpl re_star_greedy. simpl leading_space. simpl lstrip.
  rewrite after_space_cons.
  destruct (isspace c) eqn:Hc; cycle 1.
  { destruct (decide (c = LF)) as [Hlf|Hlf];
      [by rewrite (isspace_LF _ Hlf) in Hc|].
    rewrite (bool_decide_eq_false_2 (c = LF)) by done.
    rewrite bool_decide_eq_false_2; [done|]. apply not_elem_of_nil. }
  destruct (decide (LF ∈ leading_space s)) as [Hin|Hnot].
  - (* the newline of the opening line lies further on *)
    rewrite (bool_decide_eq_true_2 _ Hin) in IH.
    rewrite (bool_decide_eq_true_2 (LF ∈ c :: leading_space s)) by (by right).
    rewrite after_last_cons_elem by done.
    destruct (re_star_greedy _ _ s) as [[g []]|] eqn:Hstar; [done|].
    destruct (decide (c = LF)) as [Hlf|Hlf];
      [rewrite (bool_decide_eq_true_2 _ Hlf)
      |by rewrite (bool_decide_eq_false_2 _ Hlf)].
    destruct (before_first (LF :: DELIM) s) as [g|] eqn:Hg; [|done].
    simpl. right. split; [done|].
    destruct (after_last_suffix LF (leading_space s)) as [pre Hpre].
    assert (Hs : s = pre ++ (after_last LF (leading_space s) ++ lstrip s)).
    { rewrite app_assoc, <- Hpre. by rewrite leading_space_lstrip. }
    rewrite Hs in Hg.
    destruct (before_first_app _ _ _ _ Hg IH) as [x Hx].
    pose proof (leading_space_Forall s) as Hall.
    rewrite Hpre, Hx in Hall.
    rewrite !Forall_app in Hall. tauto.
  - rewrite star_no_newline by done.
    destruct (decide (c = LF)) as [Hlf|Hlf].
    + subst c. rewrite (bool_decide_eq_true_2 (LF = LF)) by done.
      rewrite bool_decide_eq_true_2 by (by left).
      rewrite after_last_cons_fresh by done.
      rewrite leading_space_lstrip.
      destruct (before_first (LF :: DELIM) s); simpl; auto.
    + rewrite (bool_decide_eq_false_2 _ Hlf).
      rewrite bool_decide_eq_false_2; [done|].
      intros [?|?]%elem_of_cons; [by apply Hlf | by apply Hnot].
Qed.

(** ** Lines and bindings *)

Lemma splitlines_from_chars s : ∀ cur l c,
  l ∈ splitlines_from cur s → c ∈ l → c ∈ cur ∨ c ∈ s.
Proof.
  induction s as [|x s IH]; intros cur l c Hl Hc.
  - simpl in Hl. case_bool_decide; [by apply elem_of_nil in Hl|].
    apply list_elem_of_singleton in Hl as ->.
    left. by apply elem_of_reverse.
  - assert (Hcur : ∀ l', l' = reverse cur → c ∈ l' → c ∈ cur ∨ c ∈ x :: s).
    { intros l' -> ?. left. by apply elem_of_reverse. }
    assert (Hrest : l ∈ splitlines_from [] s → c ∈ cur ∨ c ∈ x :: s).
    { intros H. destruct (IH [] l c H Hc) as [Hn|?].
      - by apply elem_of_nil in Hn.
      - right. by apply elem_of_cons; right. }
    simpl in Hl. case_bool_decide.
    + destruct s as [|y s].
      * apply list_elem_of_singleton in Hl. eauto.
      * case_bool_decide.
        -- apply elem_of_cons in Hl as [Hl|Hl]; [eauto|].
           apply Hrest. subst y. simpl.
           apply elem_of_cons. by right.
        -- apply elem_of_cons in Hl as [Hl|Hl]; eauto.
    + destruct (is_linebreak x).
      * apply elem_of_cons in Hl as [Hl|Hl]; eauto.
      * destruct (IH (x :: cur) l c Hl Hc) as [Hx|Hx].
        -- apply elem_of_cons in Hx as [->|Hx]; [right; by left | by left].
        -- right. by apply elem_of_cons; right.
Qed.

Lemma splitlines_chars s l c : l ∈ splitlines s → c ∈ l → c ∈ s.
Proof.
  intros Hl Hc. destruct (splitlines_from_chars s [] l c Hl Hc) as [H|H]; [|done].
  by apply elem_of_nil in H.
Qed.

Lemma partition_spec line :
  COLON ∈ line →
  line = (partition COLON line).1 ++ COLON :: (partition COLON line).2
  ∧ COLON ∉ (partition COLON line).1.
Proof.
  induction line as [|c line IH]; intros Hin.
  - by apply elem_of_nil in Hin.
  - simpl. case_bool_decide as Hc.
    + subst c. simpl. split; [done|]. apply not_elem_of_nil.
    + apply elem_of_cons in Hin as [Hin|Hin]; [by subst c|].
      destruct (IH Hin) as [Heq Hnot].
      destruct (partition COLON line) as [before after]. simpl in *.
      split; [by rewrite <- Heq|].
      intros [?|?]%elem_of_cons; [by subst c | done].
Qed.

Lemma partition_unique raw_key raw_value :
  COLON ∉ raw_key →
  partition COLON (raw_key ++ COLON :: raw_value) = (raw_key, raw_value).
Proof.
  induction raw_key as [|c k IH]; intros Hnot; simpl.
  - done.
  - rewrite bool_decide_eq_false_2.
    + rewrite IH; [done|]. intros ?. apply Hnot. by apply elem_of_cons; right.
    + intros ->. apply Hnot. by left.
Qed.

Lemma binds_iff line key value :
  binds line key value ↔
  COLON ∈ line ∧ strip (partition COLON line).1 = key
  ∧ strip (partition COLON line).2 = value.
Proof.
  split.
  - intros (rk & rv & -> & Hnot & <- & <-).
    rewrite partition_unique by done. simpl. split; [|done].
    apply elem_of_app. right. by left.
  - intros (Hin & <- & <-). destruct (partition_spec line Hin) as [Heq Hnot].
    by exists (partition COLON line).1, (partition COLON line).2.
Qed.

Lemma binds_functional line key v1 v2 :
  binds line key v1 → binds line key v2 → v1 = v2.
Proof. rewrite !binds_iff. intros (_ & _ & <-) (_ & _ & <-). done. Qed.

Section read_lines.
(** The body of the loop of [parse_frontmatter]. *)
Local Abbreviation read_line :=
  (λ (frontmatter : gmap str str) (line : str),
     if bool_decide (COLON ∈ line) then
       let '(key, value) := partition COLON line in
       <[strip key := strip value]> frontmatter
     else frontmatter).

Lemma read_line_lookup (m : gmap str str) line key :
  read_line m line !! key
  = if decide (COLON ∈ line ∧ strip (partition COLON line).1 = key)
    then Some (strip (partition COLON line).2)
    else m !! key.
Proof.
  cbv beta. case_bool_decide as Hin.
  - destruct (partition COLON line) as [k v] eqn:E. simpl.
    destruct (decide (strip k = key)) as [<-|Hne].
    + rewrite lookup_insert_eq. by rewrite decide_True.
    + rewrite lookup_insert_ne by done. rewrite decide_False; [done|]. tauto.
  - rewrite decide_False; [done|]. tauto.
Qed.

(** A key has the value of the last line that binds it. *)
Lemma read_lines_lookup lines : ∀ (m : gmap str str) key value,
  foldl read_line m lines !! key = Some value ↔
    (∃ before line after,
        lines = before ++ line :: after ∧ binds line key value ∧
        ∀ l v, l ∈ after → ¬ binds l key v)
    ∨ (m !! key = Some value ∧ ∀ l v, l ∈ lines → ¬ binds l key v).
Proof.
  induction lines as [|x lines IH] using rev_ind; intros m key value.
  - simpl. split.
    + intros H. right. split; [done|]. intros l v Hl. by apply elem_of_nil in Hl.
    + intros [(before & line & after & Heq & _)|[H _]]; [|done].
      by destruct before.
  - rewrite foldl_app. cbn [foldl]. rewrite read_line_lookup.
    destruct (decide _) as [[Hin Hkey]|Hno].
    + assert (Hb : binds x key (strip (partition COLON x).2))
        by (by apply binds_iff).
      split.
      * intros [= <-]. left. exists lines, x, []. split_and!; [done..|].
        intros l v Hl. by apply elem_of_nil in Hl.
      * intros [(before & line & after & Heq & Hbl & Hafter)|[_ Hnone]].
        -- destruct after as [|a after _] using rev_ind.
           ++ apply app_inj_tail in Heq as [_ <-].
              f_equal. eapply binds_functional; eauto.
           ++ rewrite app_comm_cons, app_assoc in Heq.
              apply app_inj_tail in Heq as [_ <-].
              exfalso. eapply Hafter; [|exact Hb].
              apply elem_of_app. right. by left.
        -- exfalso. eapply Hnone; [|exact Hb].
           apply elem_of_app. right. by left.
    + assert (Hx : ∀ v, ¬ binds x key v).
      { intros v Hv. apply binds_iff in Hv. tauto. }
      rewrite IH. split.
      * intros [(before & line & after & -> & Hbl & Hafter)|[Hm Hnone]].
        -- left. exists before, line, (after ++ [x]).
           split_and!; [by rewrite <- app_assoc | done |].
           intros l v [?|Hl]%elem_of_app; [eauto|].
           apply list_elem_of_singleton in Hl as ->. apply Hx.
        -- right. split; [done|].
           intros l v [?|Hl]%elem_of_app; [eauto|].
           apply list_elem_of_singleton in Hl as ->. apply Hx.
      * intros [(before & line & after & Heq & Hbl & Hafter)|[Hm Hnone]].
        -- destruct after as [|a after _] using rev_ind.
           ++ apply app_inj_tail in Heq as [_ <-]. by destruct (Hx value).
           ++ rewrite app_comm_cons, app_assoc in Heq.
              apply app_inj_tail in Heq as [-> <-].
              left. exists before, line, after. split_and!; [done..|].
              intros l v Hl. apply Hafter. apply elem_of_app. by left.
        -- right. split; [done|]. intros l v Hl. apply Hnone.
           apply elem_of_app. by left.
Qed.

Lemma read_lines_no_colon (lines : list str) (m : gmap str str) :
  (∀ l, l ∈ lines → COLON ∉ l) → foldl read_line m lines = m.
Proof.
  revert m. induction lines as [|x lines IH]; intros m Hno; [done|].
  simpl. rewrite bool_decide_eq_false_2 by (apply Hno; by left).
  apply IH. intros l Hl. apply Hno. by right.
Qed.
End read_lines.

(** A block of whitespace binds nothing. *)
Lemma parse_whitespace_block g :
  Forall (λ c, isspace c = true) g →
  ∀ l, l ∈ splitlines g → COLON ∉ l.
Proof.
  intros Hws l Hl Hc.
  pose proof (splitlines_chars _ _ _ Hl Hc) as Hin.
  rewrite Forall_forall in Hws. by specialize (Hws _ Hin).
Qed.

(** [parse_frontmatter] reads the block of [frontmatter_block]. *)
Lemma parse_frontmatter_block content :
  ∃ lines,
    parse_frontmatter content
    = foldl (λ (frontmatter : gmap str str) (line : str),
               if bool_decide (COLON ∈ line) then
                 let '(key, value) := partition COLON line in
                 <[strip key := strip value]> frontmatter
               else frontmatter) ∅ lines
    ∧ match frontmatter_block content with
      | Some body => lines = splitlines body
      | None => ∀ l, l ∈ lines → COLON ∉ l
      end.
Proof.
  unfold parse_frontmatter, frontmatter_re, frontmatter_block, re_lit at 1.
  destruct (startswith DELIM content); cycle 1.
  { exists []. split; [done|]. intros l Hl. by apply elem_of_nil in Hl. }
  pose proof (star_block (drop (length DELIM) content)) as Hblock.
  cbv zeta in *.
  generalize dependent (drop (length DELIM) content). intros rest Hblock.
  destruct (re_star_greedy _ _ _) as [[g []]|]; simpl.
  - exists (splitlines g). split; [done|].
    destruct Hblock as [->|[-> Hws]]; [done|].
    by apply parse_whitespace_block.
  - exists []. split; [done|]. rewrite Hblock.
    intros l Hl. by apply elem_of_nil in Hl.
Qed.

(** ** parse_frontmatter *)

(** C5, as amended: the parser reads the block that starts after the
    opening delimiter and the whitespace up to its last newline, and ends
    before the first later line that starts with the delimiter. A key has
    a value exactly when some line of that block, cut at its first colon,
    has the key as its trimmed left part and the value as its trimmed right
    part, and no later line of the block has that key. Lines without a
    colon bind nothing, and a text without such a block gives the empty
    mapping. *)
Theorem parse_frontmatter_reads_block content key value :
  parse_frontmatter content !! key = Some value ↔
  ∃ body before line after,
    frontmatter_block content = Some body ∧
    splitlines body = before ++ line :: after ∧
    binds line key value ∧
    ∀ l v, l ∈ after → ¬ binds l key v.
Proof.
  destruct (parse_frontmatter_block content) as (lines & -> & Hblock).
  rewrite read_lines_lookup. split.
  - intros [(before & line & after & -> & Hb & Hafter)|[Hempty _]];
      [|by rewrite lookup_empty in Hempty].
    destruct (frontmatter_block content) as [body|].
    + by exists body, before, line, after.
    + apply binds_iff in Hb as [Hin _]. exfalso.
      eapply Hblock; [|exact Hin]. apply elem_of_app. right. by left.
  - intros (body & before & line & after & Hbody & Hlines & Hb & Hafter).
    rewrite Hbody in Hblock. subst lines.
    left. by exists before, line, after.
Qed.

(** C5 as stated fails: the text has no fenced block whose closing line is
    the delimiter alone, yet the parser returns a mapping that is not
    empty. *)
Lemma parse_frontmatter_unfenced :
  claimed_fenced_block unfenced_text = None ∧
  parse_frontmatter unfenced_text ≠ ∅.
Proof.
  split; [by vm_compute|].
  intros Hempty.
  assert (H : parse_frontmatter unfenced_text !! py "name" = Some (py "demo"))
    by (by vm_compute).
  rewrite Hempty, lookup_empty in H. discriminate.
Qed.

(** C9: two applications of the parser to the same text yield the same
    mapping; in particular for a text with a well-formed fenced block. *)
Theorem parse_frontmatter_idempotent content m1 m2 :
  parse_frontmatter content = m1 →
  parse_frontmatter content = m2 →
  m1 = m2.
Proof. intros <- <-. reflexivity. Qed.

Lemma parse_frontmatter_idempotent_witness :
  claimed_fenced_block fenced_text = Some [py "name: alpha"; py "description: does X: well"] ∧
  parse_frontmatter fenced_text
  = <[py "name" := py "alpha"]> (<[py "description" := py "does X: well"]> ∅).
Proof.
  split; [by vm_compute|].
  apply (parse_frontmatter_idempotent fenced_text
           (parse_frontmatter fenced_text)); [reflexivity|].
  vm_compute. reflexivity.
Defined.

(** ** The interpreter state *)

Lemma extend_nil st : extend st [] [] = st.
Proof. destruct st. unfold extend. simpl. by rewrite !app_nil_r. Qed.

Lemma extend_extend st f1 l1 f2 l2 :
  extend (extend st f1 l1) f2 l2 = extend st (f1 ++ f2) (l1 ++ l2).
Proof. unfold extend. simpl. by rewrite !app_assoc. Qed.

Lemma bind_run {A B} (m : Py A) (k : A → Py B) st :
  (m ≫= k) st = match m st with Some (a, st') => k a st' | None => None end.
Proof. reflexivity. Qed.

Lemma ret_run {A} (a : A) st : (mret a : Py A) st = Some (a, st).
Proof. reflexivity. Qed.

Lemma log_run lvl msg st : log lvl msg st = Some (tt, extend st [] [Log lvl msg]).
Proof. unfold log, emit, extend. by rewrite app_nil_r. Qed.

Lemma new_Skill_run s st :
  new_Skill s st = Some (length (objects st), extend st [s] []).
Proof. unfold new_Skill, extend. by rewrite app_nil_r. Qed.

Lemma attr_run {A} (f : Skill → A) r s st :
  objects st !! r = Some s → attr f r st = Some (f s, st).
Proof. intros H. unfold attr. by rewrite H. Qed.

(** ** find_helper_dirs and find_skill_in_dir *)

Lemma find_helper_dirs_spec fs skill_path :
  find_helper_dirs fs skill_path
  = filter (λ h, is_dir fs (skill_path </> h) = true) helper_names.
Proof.
  unfold find_helper_dirs, helper_names.
  replace (elements HELPER_DIRS)
    with [py "scripts"; py "assets"; py "references"] by (by vm_compute).
  cbn [foldl].
  rewrite !filter_cons, filter_nil.
  destruct (is_dir fs (skill_path </> py "scripts"));
    destruct (is_dir fs (skill_path </> py "assets"));
    destruct (is_dir fs (skill_path </> py "references"));
    repeat (rewrite decide_True by done || rewrite decide_False by done);
    reflexivity.
Qed.

Lemma find_skill_in_dir_run fs dir_path st :
  find_skill_in_dir fs dir_path st
  = Some (match locate fs dir_path with
          | Some skill => (Some (length (objects st)), extend st [skill] [])
          | None => (None, st)
          end).
Proof.
  unfold find_skill_in_dir, locate, is_file, read_text.
  destruct (resolve fs (dir_path </> py "SKILL.md")) as [[content|entries]|];
    [|done..].
  cbn [negb]. rewrite bind_run. cbv beta iota.
  destruct (negb (truthy (parse_frontmatter content !! py "name"))) eqn:Hname;
    rewrite bind_run, new_Skill_run, ret_run.
  all: do 3 f_equal; unfold located_skill; rewrite find_helper_dirs_spec.
  all: revert Hname.
  all: destruct (parse_frontmatter content !! py "name") as [[|c n]|];
    destruct (parse_frontmatter content !! py "description") as [[|c' d]|];
    done.
Qed.


(** C1, as amended: a directory without a descriptor file yields no record
    and changes nothing. A directory with one yields a new record for that
    directory: its name is the value of the [name] field when the field is
    present and not empty, and otherwise the name of the directory, with a
    warning that records the fallback; a [description] that is absent or
    empty adds a warning; the helpers are the recognized helper names that
    are subdirectories, in alphabetical order. *)
Theorem find_skill_in_dir_spec fs dir_path st :
  (is_file fs (dir_path </> py "SKILL.md") = false →
   find_skill_in_dir fs dir_path st = Some (None, st)) ∧
  (∀ content,
     resolve fs (dir_path </> py "SKILL.md") = Some (File content) →
     ∃ skill,
       find_skill_in_dir fs dir_path st
       = Some (Some (length (objects st)), extend st [skill] []) ∧
       path skill = dir_path ∧
       name skill
       = match parse_frontmatter content !! py "name" with
         | Some (c :: n) => c :: n
         | _ => path_name dir_path
         end ∧
       description skill = parse_frontmatter content !! py "description" ∧
       warnings skill
       = match parse_frontmatter content !! py "name" with
         | Some (_ :: _) => []
         | _ => [missing_name_warning (path_name dir_path)]
         end
         ++ match parse_frontmatter content !! py "description" with
            | Some (_ :: _) => []
            | _ => [missing_description_warning]
            end ∧
       helpers skill
       = filter (λ h, is_dir fs (dir_path </> h) = true)
                [py "assets"; py "references"; py "scripts"]).
Proof.
  rewrite find_skill_in_dir_run. unfold locate, is_file. split.
  - by destruct (resolve fs (dir_path </> py "SKILL.md")) as [[?|?]|].
  - intros content ->. by exists (located_skill fs dir_path content).
Qed.

Lemma find_skill_in_dir_spec_witness :
  ∃ skill,
    find_skill_in_dir empty_fields_fs [py "tool"] st0
    = Some (Some 0, extend st0 [skill] []) ∧
    name skill = py "tool" ∧
    warnings skill
    = [missing_name_warning (py "tool"); missing_description_warning] ∧
    helpers skill = [].
Proof.
  destruct (find_skill_in_dir_spec empty_fields_fs [py "tool"] st0) as [_ H].
  destruct (H _ eq_refl) as (skill & Hrun & _ & Hname & _ & Hwarn & Hhelp).
  exists skill. split_and!; [exact Hrun | exact Hname | exact Hwarn | exact Hhelp].
Defined.

(** C1 as stated fails: the descriptor has a [name] field, its value is the
    empty string, and the record is named after the directory. *)
Lemma find_skill_in_dir_empty_name :
  ∃ content skill,
    resolve empty_fields_fs ([py "tool"] </> py "SKILL.md") = Some (File content) ∧
    find_skill_in_dir empty_fields_fs [py "tool"] st0
    = Some (Some 0, extend st0 [skill] []) ∧
    parse_frontmatter content !! py "name" = Some [] ∧
    name skill ≠ claimed_name (parse_frontmatter content) [py "tool"].
Proof.
  eexists _, _. split_and!.
  - vm_compute. reflexivity.
  - vm_compute. reflexivity.
  - by vm_compute.
  - by vm_compute.
Qed.

(** C10: a [name] field whose trimmed value is empty is treated as a
    missing field: the record is named after the directory and carries the
    fallback warning, as when the key is absent; a [description] field
    whose trimmed value is empty gives the missing-description warning. *)
Theorem find_skill_in_dir_empty_fields fs dir_path st content :
  resolve fs (dir_path </> py "SKILL.md") = Some (File content) →
  ∃ skill,
    find_skill_in_dir fs dir_path st
    = Some (Some (length (objects st)), extend st [skill] []) ∧
    (parse_frontmatter content !! py "name" = Some []
     ∨ parse_frontmatter content !! py "name" = None →
     name skill = path_name dir_path ∧
     ∃ rest, warnings skill = missing_name_warning (path_name dir_path) :: rest) ∧
    (parse_frontmatter content !! py "description" = Some []
     ∨ parse_frontmatter content !! py "description" = None →
     missing_description_warning ∈ warnings skill).
Proof.
  intros Hfile. rewrite find_skill_in_dir_run. unfold locate. rewrite Hfile.
  exists (located_skill fs dir_path content). split; [done|].
  unfold located_skill. cbn [name warnings]. split.
  - intros [Hn|Hn]; rewrite Hn; (split; [done|]); by eexists.
  - intros Hd. apply elem_of_app. right.
    destruct Hd as [Hd|Hd]; rewrite Hd; by left.
Qed.

Lemma find_skill_in_dir_empty_fields_witness :
  ∃ skill,
    find_skill_in_dir empty_fields_fs [py "tool"] st0
    = Some (Some 0, extend st0 [skill] []) ∧
    name skill = py "tool" ∧
    (∃ rest, warnings skill = missing_name_warning (py "tool") :: rest) ∧
    missing_description_warning ∈ warnings skill.
Proof.
  destruct (find_skill_in_dir_empty_fields empty_fields_fs [py "tool"] st0 _ eq_refl)
    as (skill & Hrun & Hname & Hdesc).
  exists skill. split; [exact Hrun|].
  destruct Hname as [Hn Hw]; [left; by vm_compute|].
  split_and!; [exact Hn | exact Hw |].
  apply Hdesc. left. by vm_compute.
Defined.

(** ** Comparison and sorting *)

Section seq_leb.
Context {A : Type} (leb : A → A → bool).
Hypothesis leb_total : ∀ a b, leb a b = true ∨ leb b a = true.
Hypothesis leb_trans : ∀ a b c, leb a b = true → leb b c = true → leb a c = true.
Hypothesis leb_antisym : ∀ a b, leb a b = true → leb b a = true → a = b.

Lemma leb_refl a : leb a a = true.
Proof using leb_total. by destruct (leb_total a a). Qed.

Lemma seq_leb_total x : ∀ y, seq_leb leb x y = true ∨ seq_leb leb y x = true.
Proof using leb_total.
  induction x as [|a x IH]; intros [|b y]; simpl; auto.
  destruct (leb a b) eqn:Hab, (leb b a) eqn:Hba; auto.
  destruct (leb_total a b); congruence.
Qed.

Lemma seq_leb_antisym x : ∀ y,
  seq_leb leb x y = true → seq_leb leb y x = true → x = y.
Proof using leb_antisym.
  induction x as [|a x IH]; intros [|b y]; simpl; try done.
  destruct (leb a b) eqn:Hab, (leb b a) eqn:Hba; try done.
  intros Hxy Hyx. f_equal; auto.
Qed.

Lemma seq_leb_trans x : ∀ y z,
  seq_leb leb x y = true → seq_leb leb y z = true → seq_leb leb x z = true.
Proof using leb_total leb_trans leb_antisym.
  induction x as [|a x IH]; intros [|b y] [|c z]; simpl; try done.
  destruct (leb a b) eqn:Hab; [|done].
  destruct (leb b c) eqn:Hbc; [|by destruct (leb b a)].
  rewrite (leb_trans a b c Hab Hbc).
  destruct (leb b a) eqn:Hba, (leb c b) eqn:Hcb, (leb c a) eqn:Hca;
    try done; intros Hxy Hyz; try (by eauto).
  all: first [ pose proof (leb_trans _ _ _ Hca Hab); congruence
             | pose proof (leb_trans _ _ _ Hbc Hca); congruence ].
Qed.

(** Siblings compare as their last components do. *)
Lemma seq_leb_siblings d a b :
  seq_leb leb (d ++ [a]) (d ++ [b]) = leb a b.
Proof using leb_total.
  induction d as [|c d IH]; simpl.
  - by destruct (leb a b), (leb b a).
  - by rewrite leb_refl.
Qed.
End seq_leb.

Lemma N_leb_total a b : N.leb a b = true ∨ N.leb b a = true.
Proof. rewrite !N.leb_le. lia. Qed.

Lemma N_leb_trans a b c : N.leb a b = true → N.leb b c = true → N.leb a c = true.
Proof. rewrite !N.leb_le. lia. Qed.

Lemma N_leb_antisym a b : N.leb a b = true → N.leb b a = true → a = b.
Proof. rewrite !N.leb_le. lia. Qed.

Lemma str_leb_total a b : str_leb a b = true ∨ str_leb b a = true.
Proof. apply seq_leb_total, N_leb_total. Qed.

Lemma str_leb_trans a b c :
  str_leb a b = true → str_leb b c = true → str_leb a c = true.
Proof.
  apply seq_leb_trans; [apply N_leb_total | apply N_leb_trans | apply N_leb_antisym].
Qed.

Lemma str_leb_antisym a b : str_leb a b = true → str_leb b a = true → a = b.
Proof. apply seq_leb_antisym, N_leb_antisym. Qed.

Lemma path_leb_total a b : path_leb a b = true ∨ path_leb b a = true.
Proof. apply seq_leb_total, str_leb_total. Qed.

Lemma path_leb_trans a b c :
  path_leb a b = true → path_leb b c = true → path_leb a c = true.
Proof.
  apply seq_leb_trans; [apply str_leb_total | apply str_leb_trans | apply str_leb_antisym].
Qed.

Lemma path_leb_siblings d a b : path_leb (d </> a) (d </> b) = str_leb a b.
Proof. apply seq_leb_siblings, str_leb_total. Qed.

Section sorted.
Context {A K : Type} (leb : K → K → bool) (key : A → K).

Lemma sorted_insert_Permutation x l : sorted_insert leb key x l ≡ₚ x :: l.
Proof.
  induction l as [|y l IH]; simpl; [done|].
  destruct (leb (key x) (key y)); [done|].
  rewrite IH. apply Permutation_swap.
Qed.

Lemma sorted_Permutation l : sorted leb key l ≡ₚ l.
Proof.
  induction l as [|x l IH]; simpl; [done|].
  by rewrite sorted_insert_Permutation, IH.
Qed.

Hypothesis leb_total : ∀ a b, leb a b = true ∨ leb b a = true.
Hypothesis leb_trans : ∀ a b c, leb a b = true → leb b c = true → leb a c = true.

Lemma sorted_insert_StronglySorted x l :
  StronglySorted (λ a b, leb (key a) (key b) = true) l →
  StronglySorted (λ a b, leb (key a) (key b) = true) (sorted_insert leb key x l).
Proof using leb_total leb_trans.
  induction 1 as [|y l Hl IH Hy]; simpl.
  - repeat constructor.
  - destruct (leb (key x) (key y)) eqn:Hxy.
    + constructor; [by constructor|].
      constructor; [done|].
      eapply Forall_impl; [exact Hy|]. simpl. eauto.
    + constructor; [done|].
      rewrite sorted_insert_Permutation. constructor; [|done].
      destruct (leb_total (key x) (key y)); congruence.
Qed.

Lemma sorted_StronglySorted l :
  StronglySorted (λ a b, leb (key a) (key b) = true) (sorted leb key l).
Proof using leb_total leb_trans.
  induction l as [|x l IH]; simpl; [constructor|].
  by apply sorted_insert_StronglySorted.
Qed.
End sorted.

(** ** Loops *)

Lemma for_each_cons {A S} (x : A) l (body : A → S → Py S) s st :
  for_each (x :: l) body s st
  = match body x s st with
    | Some (s', st') => for_each l body s' st'
    | None => None
    end.
Proof. reflexivity. Qed.

(** An invariant of the loop variables and the state, indexed by the items
    already visited, holds after the loop; in particular the loop does not
    raise. *)
Lemma for_each_invariant {A S} (I : list A → S → pystate → Prop)
    (body : A → S → Py S) l :
  (∀ visited x s st, x ∈ l → I visited s st →
     ∃ s' st', body x s st = Some (s', st') ∧ I (visited ++ [x]) s' st') →
  ∀ visited s st, I visited s st →
  ∃ s' st', for_each l body s st = Some (s', st') ∧ I (visited ++ l) s' st'.
Proof.
  induction l as [|x l IH]; intros Hstep visited s st HI.
  - exists s, st. by rewrite app_nil_r.
  - destruct (Hstep visited x s st) as (s1 & st1 & Hbody & HI1); [by left|done|].
    destruct (IH (λ v y s st Hy, Hstep v y s st (list_elem_of_further _ _ _ Hy))
                 (visited ++ [x]) s1 st1 HI1) as (s2 & st2 & Hloop & HI2).
    exists s2, st2. rewrite for_each_cons, Hbody.
    split; [done|]. by rewrite <- app_assoc in HI2.
Qed.

Lemma for_each_ext {A S} (body1 body2 : A → S → Py S) l :
  (∀ x s st, x ∈ l → body1 x s st = body2 x s st) →
  ∀ s st, for_each l body1 s st = for_each l body2 s st.
Proof.
  induction l as [|x l IH]; intros Hext s st; [done|].
  rewrite !for_each_cons, Hext by (by left).
  destruct (body2 x s st) as [[s' st']|]; [|done].
  apply IH. intros y ? ? Hy. apply Hext. by right.
Qed.

(** ** The file system *)

Lemma is_dir_shape fs p : is_dir fs p = bool_decide (shape fs p = Some None).
Proof.
  unfold is_dir, shape. by destruct (resolve fs p) as [[?|?]|].
Qed.

Lemma resolve_app fs p : ∀ q,
  resolve fs (p ++ q) = resolve fs p ≫= λ n, resolve n q.
Proof.
  revert fs. induction p as [|c p IH]; intros fs q; [done|].
  simpl. destruct fs as [?|entries]; [done|].
  destruct (entries !! c) as [child|]; simpl; [apply IH|done].
Qed.

Lemma iterdir_run fs p st :
  is_dir fs p = true → iterdir fs p st = Some (children fs p, st).
Proof.
  unfold is_dir, iterdir, children.
  by destruct (resolve fs p) as [[?|?]|].
Qed.

Lemma elem_of_children fs d p :
  p ∈ children fs d ↔
  ∃ c, p = d </> c ∧ is_dir fs d = true ∧ is_Some (resolve fs (d </> c)).
Proof.
  unfold children, is_dir, path_div. rewrite ?resolve_app.
  setoid_rewrite resolve_app.
  destruct (resolve fs d) as [[?|entries]|]; simpl.
  - rewrite elem_of_nil. split; [done|]. by intros (? & ? & ? & ?).
  - rewrite list_elem_of_fmap. setoid_rewrite elem_of_elements.
    setoid_rewrite elem_of_dom.
    split.
    + intros (c & -> & [n Hn]). exists c. split_and!; [done..|].
      rewrite Hn. by eexists.
    + intros (c & -> & _ & [n Hn]). exists c. split; [done|].
      destruct (entries !! c); [by eexists | done].
  - rewrite elem_of_nil. split; [done|]. by intros (? & ? & ? & ?).
Qed.

Lemma NoDup_children fs d : NoDup (children fs d).
Proof.
  unfold children. destruct (resolve fs d) as [[?|entries]|]; try constructor.
  apply NoDup_fmap_2; [|apply NoDup_elements].
  intros a b H. unfold path_div in H. by apply app_inj_tail in H as [_ ?].
Qed.

(** ** scan_skills *)

Lemma appended_refl st skills : appended st skills [] skills st.
Proof. exists []. by rewrite app_nil_r, extend_nil. Qed.

Lemma appended_log st0 skills0 found skills st e :
  appended st0 skills0 found skills st →
  appended st0 skills0 found skills (extend st [] [e]).
Proof.
  intros (logged & -> & ->). exists (logged ++ [e]).
  by rewrite extend_extend, app_nil_r.
Qed.

Lemma appended_new st0 skills0 found skills st s :
  appended st0 skills0 found skills st →
  appended st0 skills0 (found ++ [s]) (skills ++ [length (objects st)])
           (extend st [s] []).
Proof.
  intros (logged & -> & ->). exists logged.
  rewrite extend_extend, app_nil_r. split; [|done].
  rewrite <- app_assoc. f_equal.
  rewrite length_app. cbn [length]. rewrite seq_app. cbn [seq].
  unfold extend. cbn [objects]. by rewrite length_app.
Qed.

Lemma attr_new {A} (f : Skill → A) st s logged :
  attr f (length (objects st)) (extend st [s] logged)
  = Some (f s, extend st [s] logged).
Proof. apply attr_run. unfold extend. cbn [objects]. apply list_lookup_middle. done. Qed.

Lemma skip_false fs p :
  negb (is_dir fs p) || should_ignore p = false ↔
  is_dir fs p = true ∧ should_ignore p = false.
Proof. destruct (is_dir fs p), (should_ignore p); simpl; intuition congruence. Qed.

Lemma scan_skills_run fs root st :
  ∃ skills st',
    scan_skills fs root st = Some (skills, st') ∧
    appended st [] (scan_records fs root) skills st'.
Proof.
  unfold scan_skills, scan_records.
  destruct (is_dir fs root) eqn:Hroot; cbn [negb]; cycle 1.
  { rewrite bind_run, log_run, ret_run. eexists _, _. split; [done|].
    apply appended_log, appended_refl. }
  rewrite bind_run, iterdir_run by done. unfold candidates.
  generalize (sorted path_leb id (children fs root)). intros items.
  set (group := λ child,
         match locate fs child with
         | Some skill => [skill]
         | None =>
             omap (locate fs)
               (filter (λ p, is_dir fs p = true ∧ should_ignore p = false)
                       (sorted path_leb id (children fs child)))
         end).
  match goal with
  | |- context [for_each items ?body [] st] =>
      destruct (λ Hstep, for_each_invariant
                  (λ visited skills st',
                     appended st []
                       (filter (λ p, is_dir fs p = true ∧ should_ignore p = false)
                               visited ≫= group) skills st')
                  body items Hstep [] [] st) as (skills & st' & Hloop & HI)
  end.
  - (* one child of the root *)
    intros visited item skills st1 _ HI.
    rewrite filter_app, bind_app.
    destruct (negb (is_dir fs item) || should_ignore item) eqn:Hskip.
    { rewrite ret_run. eexists _, _. split; [done|].
      rewrite filter_cons_False, filter_nil, app_nil_r; [done|].
      rewrite <- skip_false. congruence. }
    apply skip_false in Hskip as Hok.
    rewrite filter_cons_True, filter_nil by done.
    cbn [mbind list_bind mjoin foldr]. rewrite app_nil_r. unfold group at 2.
    rewrite bind_run, find_skill_in_dir_run.
    destruct (locate fs item) as [s|].
    + rewrite bind_run, attr_new, bind_run, log_run, ret_run.
      eexists _, _. split; [done|].
      by apply appended_log, appended_new.
    + rewrite bind_run, log_run, bind_run, iterdir_run by tauto.
      generalize (sorted path_leb id (children fs item)). intros subitems.
      match goal with
      | |- context [for_each subitems ?body skills ?st2] =>
          destruct (λ Hstep, for_each_invariant
                      (λ visited' skills' st',
                         appended st []
                           ((filter (λ p, is_dir fs p = true ∧ should_ignore p = false)
                                    visited ≫= group)
                            ++ omap (locate fs)
                                 (filter (λ p, is_dir fs p = true ∧ should_ignore p = false)
                                         visited'))
                           skills' st')
                      body subitems Hstep [] skills st2)
            as (skills' & st' & Hloop & HI')
      end.
      * (* one child of a group *)
        intros visited' subitem skills' st3 _ HI3.
        rewrite filter_app, omap_app.
        destruct (negb (is_dir fs subitem) || should_ignore subitem) eqn:Hskip'.
        { rewrite ret_run. eexists _, _. split; [done|].
          rewrite filter_cons_False, filter_nil, app_nil_r; [done|].
          rewrite <- skip_false. congruence. }
        apply skip_false in Hskip'.
        rewrite filter_cons_True, filter_nil by done. cbn [omap list_omap].
        rewrite bind_run, find_skill_in_dir_run.
        destruct (locate fs subitem) as [s|].
        -- rewrite bind_run, attr_new, bind_run, log_run, ret_run.
           eexists _, _. split; [done|].
           rewrite app_assoc.
           by apply appended_log, appended_new.
        -- rewrite ret_run. eexists _, _. split; [done|]. by rewrite app_nil_r.
      * cbn [filter list_filter omap list_omap]. rewrite app_nil_r.
        by apply appended_log.
      * exists skills', st'. split; [done|]. exact HI'.
  - cbn [filter list_filter]. apply appended_refl.
  - exists skills, st'. split; [done|]. exact HI.
Qed.

(** ** The candidates of a directory *)

Lemma is_dir_child fs d c :
  is_dir fs (d </> c) = true →
  is_dir fs d = true ∧ is_Some (resolve fs (d </> c)).
Proof.
  unfold is_dir, path_div. rewrite resolve_app.
  destruct (resolve fs d) as [[?|entries]|]; simpl; [done| |done].
  destruct (entries !! c) as [[?|?]|]; simpl; [done| |done].
  intros _. split; [done|]. by eexists.
Qed.

Lemma path_name_div d c : path_name (d </> c) = c.
Proof. unfold path_name, path_div. by rewrite last_snoc. Qed.

Lemma elem_of_candidates fs d p :
  p ∈ candidates fs d ↔
  (∃ c, p = d </> c) ∧ is_dir fs p = true ∧ should_ignore p = false.
Proof.
  unfold candidates. rewrite list_elem_of_filter, sorted_Permutation, elem_of_children.
  split.
  - intros [Hok (c & -> & _)]. split; [by exists c | done].
  - intros [[c ->] Hok]. split; [done|]. exists c. split; [done|].
    apply is_dir_child. tauto.
Qed.

Lemma candidates_sorted fs d :
  StronglySorted
    (λ p q, str_leb (path_name p) (path_name q) = true ∧ path_name p ≠ path_name q)
    (candidates fs d).
Proof.
  unfold candidates.
  assert (Hsorted : StronglySorted (λ p q, path_leb (id p) (id q) = true)
                      (sorted path_leb id (children fs d)))
    by (apply sorted_StronglySorted; [apply path_leb_total | apply path_leb_trans]).
  assert (Hnodup : NoDup (sorted path_leb id (children fs d)))
    by (rewrite sorted_Permutation; apply NoDup_children).
  assert (Hchild : Forall (λ p, ∃ c, p = d </> c) (sorted path_leb id (children fs d))).
  { rewrite sorted_Permutation. apply Forall_forall. intros p Hp.
    apply elem_of_children in Hp as (c & -> & _). by exists c. }
  induction Hsorted as [|p l Hl IH Hp]; [constructor|].
  apply NoDup_cons in Hnodup as [Hnotin Hnodup].
  apply Forall_cons in Hchild as [[a ->] Hchild].
  specialize (IH Hnodup Hchild).
  assert (Hhead : Forall (λ q, str_leb (path_name (d </> a)) (path_name q) = true
                              ∧ path_name (d </> a) ≠ path_name q) l).
  { apply Forall_forall. intros q Hq.
    rewrite Forall_forall in Hp, Hchild.
    destruct (Hchild q Hq) as [b ->]. specialize (Hp _ Hq). simpl in Hp.
    rewrite path_leb_siblings in Hp. rewrite !path_name_div.
    split; [done|]. intros ->. done. }
  rewrite filter_cons. case_decide.
  - constructor; [done|]. apply Forall_forall.
    intros q [_ Hq]%list_elem_of_filter.
    rewrite Forall_forall in Hhead. by apply Hhead.
  - done.
Qed.

(** ** File systems that agree near the root *)

Lemma same_is_dir depth root fs1 fs2 rel :
  same_to_depth depth root fs1 fs2 → length rel ≤ depth →
  is_dir fs1 (root ++ rel) = is_dir fs2 (root ++ rel).
Proof. intros Hsame Hrel. by rewrite !is_dir_shape, Hsame. Qed.

Lemma shape_file fs p content :
  resolve fs p = Some (File content) ↔ shape fs p = Some (Some content).
Proof.
  unfold shape. destruct (resolve fs p) as [[?|?]|]; simpl; [|done..].
  split; congruence.
Qed.

Lemma same_locate root fs1 fs2 rel :
  same_to_depth 3 root fs1 fs2 → length rel ≤ 2 →
  locate fs1 (root ++ rel) = locate fs2 (root ++ rel).
Proof.
  intros Hsame Hrel.
  assert (Hsub : ∀ c, shape fs1 ((root ++ rel) </> c) = shape fs2 ((root ++ rel) </> c)).
  { intros c. unfold path_div. rewrite <- !app_assoc. apply Hsame.
    rewrite length_app. simpl. lia. }
  assert (Hdir : ∀ c, is_dir fs1 ((root ++ rel) </> c) = is_dir fs2 ((root ++ rel) </> c)).
  { intros c. by rewrite !is_dir_shape, Hsub. }
  assert (Hrec : ∀ content, located_skill fs1 (root ++ rel) content
                            = located_skill fs2 (root ++ rel) content).
  { intros content. unfold located_skill. f_equal.
    apply list_filter_iff. intros h. by rewrite Hdir. }
  unfold locate.
  destruct (resolve fs1 ((root ++ rel) </> py "SKILL.md")) as [[content|?]|] eqn:H1;
    destruct (resolve fs2 ((root ++ rel) </> py "SKILL.md")) as [[content'|?]|] eqn:H2;
    try done.
  all: pose proof (Hsub (py "SKILL.md")) as Hs; unfold shape in Hs;
    rewrite H1, H2 in Hs; simpl in Hs; try done.
  injection Hs as ->. by rewrite Hrec.
Qed.

Lemma same_children depth root fs1 fs2 rel :
  same_to_depth depth root fs1 fs2 → length rel < depth →
  children fs1 (root ++ rel) = children fs2 (root ++ rel).
Proof.
  intros Hsame Hrel.
  pose proof (Hsame rel ltac:(lia)) as Hhere.
  assert (Hsub : ∀ c, shape fs1 ((root ++ rel) ++ [c]) = shape fs2 ((root ++ rel) ++ [c])).
  { intros c. rewrite <- !app_assoc. apply Hsame. rewrite length_app. simpl. lia. }
  unfold shape in Hhere, Hsub. setoid_rewrite resolve_app in Hsub.
  unfold children.
  destruct (resolve fs1 (root ++ rel)) as [[?|e1]|];
    destruct (resolve fs2 (root ++ rel)) as [[?|e2]|]; try done.
  f_equal. f_equal. apply set_eq. intros c. rewrite !elem_of_dom.
  specialize (Hsub c). simpl in Hsub.
  destruct (e1 !! c), (e2 !! c); simpl in Hsub; done.
Qed.

(** The scan reads nothing below the third level under its root, and of
    the directories at the third level only that they are directories. *)
Lemma scan_skills_same fs1 fs2 root st :
  same_to_depth 3 root fs1 fs2 →
  scan_skills fs1 root st = scan_skills fs2 root st.
Proof.
  intros Hsame.
  assert (Hroot : is_dir fs1 root = is_dir fs2 root).
  { rewrite <- (app_nil_r root). apply (same_is_dir 3); [done|simpl; lia]. }
  assert (Hitems : children fs1 root = children fs2 root).
  { rewrite <- (app_nil_r root). apply (same_children 3); [done|simpl; lia]. }
  unfold scan_skills. rewrite Hroot.
  destruct (is_dir fs2 root) eqn:Hdir; cbn [negb]; [|done].
  rewrite !bind_run, !iterdir_run, Hitems by congruence.
  apply for_each_ext. intros item skills st1 Hitem.
  rewrite sorted_Permutation in Hitem.
  apply elem_of_children in Hitem as (c & -> & _).
  assert (Hc : is_dir fs1 (root </> c) = is_dir fs2 (root </> c)).
  { apply (same_is_dir 3); [done|simpl; lia]. }
  assert (Hloc : locate fs1 (root </> c) = locate fs2 (root </> c)).
  { apply same_locate; [done|simpl; lia]. }
  assert (Hsub : children fs1 (root </> c) = children fs2 (root </> c)).
  { apply (same_children 3); [done|simpl; lia]. }
  rewrite Hc.
  destruct (negb (is_dir fs2 (root </> c)) || should_ignore (root </> c)) eqn:Hskip;
    [done|].
  apply skip_false in Hskip as [Hcdir _].
  rewrite !bind_run, !find_skill_in_dir_run, Hloc.
  destruct (locate fs2 (root </> c)) as [s|]; [done|].
  rewrite !bind_run, !log_run, !bind_run, !iterdir_run, Hsub by congruence.
  apply for_each_ext. intros subitem skills' st2 Hsubitem.
  rewrite sorted_Permutation in Hsubitem.
  apply elem_of_children in Hsubitem as (c' & -> & _).
  assert (Hc' : is_dir fs1 (root </> c </> c') = is_dir fs2 (root </> c </> c')).
  { unfold path_div. rewrite <- app_assoc. apply (same_is_dir 3); [done|simpl; lia]. }
  assert (Hloc' : locate fs1 (root </> c </> c') = locate fs2 (root </> c </> c')).
  { unfold path_div. rewrite <- app_assoc. apply same_locate; [done|simpl; lia]. }
  rewrite Hc'.
  destruct (negb (is_dir fs2 (root </> c </> c')) || should_ignore (root </> c </> c'));
    [done|].
  by rewrite !bind_run, !find_skill_in_dir_run, Hloc'.
Qed.

Lemma shape_graft p : ∀ fs q entries entries',
  resolve fs p = Some (Dir entries) → length q ≤ length p →
  shape (graft fs p (Dir entries')) q = shape fs q.
Proof.
  induction p as [|c p IH]; intros fs q entries entries' Hp Hq.
  - destruct q; [|simpl in Hq; lia]. simpl in Hp. by injection Hp as ->.
  - simpl in Hp. destruct fs as [?|es]; [done|].
    simpl. destruct (es !! c) as [child|] eqn:Hc; [|done].
    destruct q as [|c' q]; [done|].
    unfold shape. simpl. destruct (decide (c = c')) as [<-|Hne].
    + rewrite lookup_insert_eq, Hc. simpl.
      apply (IH child q entries entries' Hp). simpl in Hq. lia.
    + by rewrite lookup_insert_ne.
Qed.

(** Replacing what a directory of the third level contains changes nothing
    down to the third level. *)
Lemma same_to_depth_graft fs root rel entries entries' :
  length rel = 3 →
  resolve fs (root ++ rel) = Some (Dir entries) →
  same_to_depth 3 root fs (graft fs (root ++ rel) (Dir entries')).
Proof.
  intros Hrel Hdir rel' Hrel'. symmetry.
  apply (shape_graft _ _ _ entries); [done|]. rewrite !length_app. lia.
Qed.

(** C2: a root that is not a directory gives the empty list. Otherwise the
    scan returns references to new records, in order: for each direct child
    directory of the root that is not ignored, in alphabetical order, the
    record of the locator for that child when there is one, and otherwise
    the records of the locator for the child's own direct child directories
    that are not ignored, in alphabetical order. Nothing below the third
    level under the root is read, and of the directories of the third level
    only that they are directories. The record of the locator for a
    directory is [locate]. *)
Theorem scan_skills_spec fs root st :
  (∃ logged,
     scan_skills fs root st
     = Some (seq (length (objects st)) (length (scan_records fs root)),
             extend st (scan_records fs root) logged)) ∧
  (is_dir fs root = false →
     ∃ logged, scan_skills fs root st = Some ([], extend st [] logged)) ∧
  (∀ d,
     StronglySorted
       (λ p q, str_leb (path_name p) (path_name q) = true ∧ path_name p ≠ path_name q)
       (candidates fs d) ∧
     ∀ p, p ∈ candidates fs d ↔
          (∃ c, p = d </> c) ∧ is_dir fs p = true ∧
          path_name p ∉ IGNORED_DIRS ∧ startswith (py ".") (path_name p) = false) ∧
  (∀ fs', same_to_depth 3 root fs fs' →
     scan_skills fs' root st = scan_skills fs root st) ∧
  (∀ d st',
     find_skill_in_dir fs d st'
     = Some (match locate fs d with
             | Some skill => (Some (length (objects st')), extend st' [skill] [])
             | None => (None, st')
             end)).
Proof.
  destruct (scan_skills_run fs root st) as (skills & st' & Hrun & logged & -> & ->).
  split_and!; [| | | |apply find_skill_in_dir_run].
  - by exists logged.
  - intros Hroot. exists logged. rewrite Hrun.
    unfold scan_records. by rewrite Hroot.
  - intros d. split; [apply candidates_sorted|].
    intros p. rewrite elem_of_candidates. unfold should_ignore.
    rewrite orb_false_iff, bool_decide_eq_false. tauto.
  - intros fs' Hsame. symmetry. by apply scan_skills_same.
Qed.

Lemma scan_skills_spec_witness :
  fst <$> scan_skills demo_fs demo_root st0 = Some [0; 1; 2] ∧
  scan_skills
    (graft demo_fs (demo_root ++ [py "group"; py "x"; py "references"]) (Dir ∅))
    demo_root st0
  = scan_skills demo_fs demo_root st0.
Proof.
  destruct (scan_skills_spec demo_fs demo_root st0)
    as ([logged Hrun] & _ & _ & Hsame & _).
  split.
  - rewrite Hrun. by vm_compute.
  - apply Hsame.
    apply (same_to_depth_graft _ _ _ {[ py "deep" := Dir ∅ ]}); [done|].
    vm_compute. reflexivity.
Defined.

(** ** validate_skills *)

Lemma objects_extend_nil st logged : objects (extend st [] logged) = objects st.
Proof. unfold extend. simpl. apply app_nil_r. Qed.

Lemma deref_snoc objs skills r s :
  objs !! r = Some s → deref objs (skills ++ [r]) = deref objs skills ++ [s].
Proof. intros H. unfold deref. rewrite omap_app. simpl. by rewrite H. Qed.

Lemma valid_refs_elem st skills r :
  valid_refs st skills → r ∈ skills → ∃ s, objects st !! r = Some s.
Proof. unfold valid_refs. rewrite Forall_forall. intros H Hr. by apply H. Qed.

Lemma validate_skills_run st skills :
  valid_refs st skills →
  validate_skills skills st
  = Some (sum_list_with (λ s, length (warnings s)) (deref (objects st) skills),
          extend st [] (deref (objects st) skills ≫= warning_events)).
Proof.
  intros Hvalid. unfold validate_skills. cbv zeta.
  match goal with
  | |- for_each skills ?body 0 st = _ =>
      destruct (λ Hstep, for_each_invariant
                  (λ visited n st',
                     n = sum_list_with (λ s, length (warnings s)) (deref (objects st) visited) ∧
                     st' = extend st [] (deref (objects st) visited ≫= warning_events))
                  body skills Hstep [] 0 st) as (n & st' & Hloop & -> & ->)
  end.
  - intros visited r n st1 Hr [-> ->].
    destruct (valid_refs_elem _ _ _ Hvalid Hr) as [s Hs].
    rewrite bind_run, (attr_run _ _ s) by (by rewrite objects_extend_nil).
    match goal with
    | |- context [for_each (warnings s) ?body ?n ?st1] =>
        destruct (λ Hstep, for_each_invariant
                    (λ visited' n' st',
                       n' = n + length visited' ∧
                       st' = extend st1 []
                               ((λ w, Log WARNING (name s ++ py ": " ++ w)) <$> visited'))
                    body (warnings s) Hstep [] n st1) as (n' & st' & Hloop & -> & ->)
    end.
    + intros visited' w n' st2 _ [-> ->].
      rewrite bind_run, (attr_run _ _ s) by (by rewrite !objects_extend_nil).
      rewrite bind_run, log_run, ret_run. eexists _, _. split; [done|].
      rewrite length_app, fmap_app, extend_extend. simpl. split; [lia|done].
    + split; [simpl; lia | by rewrite extend_nil].
    + eexists _, _. split; [exact Hloop|].
      rewrite (deref_snoc _ _ _ _ Hs), sum_list_with_app, bind_app, extend_extend.
      simpl. rewrite !app_nil_r. split; [lia|done].
  - by rewrite extend_nil.
  - by rewrite Hloop.
Qed.

(** ** check_conflicts *)

Lemma first_seen_app objs l1 : ∀ earlier l2,
  first_seen objs earlier (l1 ++ l2)
  = first_seen objs earlier l1 ++ first_seen objs (earlier ++ l1) l2.
Proof.
  induction l1 as [|r l1 IH]; intros earlier l2; simpl.
  - by rewrite app_nil_r.
  - by rewrite IH, <- !app_assoc.
Qed.

Lemma conflicts_app objs l1 : ∀ earlier l2,
  conflicts objs earlier (l1 ++ l2)
  = conflicts objs earlier l1 ++ conflicts objs (earlier ++ l1) l2.
Proof.
  induction l1 as [|r l1 IH]; intros earlier l2; simpl.
  - by rewrite app_nil_r.
  - by rewrite IH, <- !app_assoc.
Qed.

Lemma registered_app objs l1 l2 n :
  registered objs (l1 ++ l2) n
  = match registered objs l1 n with
    | Some p => Some p
    | None => registered objs l2 n
    end.
Proof.
  induction l1 as [|e l1 IH]; simpl; [done|].
  destruct (objs !! e) as [s|]; [|done].
  by destruct (decide (name s = n)).
Qed.

Lemma registered_None objs earlier n :
  registered objs earlier n = None ↔ Some n ∉ name_of objs <$> earlier.
Proof.
  induction earlier as [|e earlier IH]; simpl.
  - split; [intros _; apply not_elem_of_nil | done].
  - rewrite not_elem_of_cons, <- IH. unfold name_of at 1.
    destruct (objs !! e) as [s|]; simpl.
    + destruct (decide (name s = n)) as [->|Hne].
      * split; [done|]. by intros [? _].
      * split; [|tauto]. intros H. split; [congruence|done].
    + split; [|tauto]. by intros H.
Qed.

Lemma check_conflicts_run st skills :
  valid_refs st skills →
  check_conflicts skills st
  = Some (first_seen (objects st) [] skills,
          extend st [] (conflicts (objects st) [] skills)).
Proof.
  intros Hvalid. unfold check_conflicts. cbv zeta. rewrite bind_run.
  match goal with
  | |- context [for_each skills ?body (∅, []) st] =>
      destruct (λ Hstep, for_each_invariant
                  (λ visited (s : gmap str Path * list ref) st',
                     s.2 = first_seen (objects st) [] visited ∧
                     st' = extend st [] (conflicts (objects st) [] visited) ∧
                     ∀ n, s.1 !! n = registered (objects st) visited n)
                  body skills Hstep [] (∅, []) st)
        as ([seen unique] & st' & Hloop & Hunique & -> & Hseen)
  end.
  - intros visited r [seen unique] st1 Hr (Hunique & -> & Hseen).
    simpl in Hunique, Hseen. subst unique.
    destruct (valid_refs_elem _ _ _ Hvalid Hr) as [s Hs].
    rewrite bind_run, (attr_run _ _ s) by (by rewrite objects_extend_nil).
    rewrite Hseen, first_seen_app, conflicts_app. cbn [first_seen conflicts app].
    rewrite Hs, !app_nil_r.
    destruct (registered (objects st) visited (name s)) as [first_path|] eqn:Hreg.
    + rewrite bind_run, (attr_run _ _ s) by (by rewrite objects_extend_nil).
      rewrite bind_run, log_run, ret_run. eexists _, _. split; [done|].
      cbn [fst snd]. split_and!.
      * rewrite decide_True, app_nil_r; [done|].
        destruct (decide (name_of (objects st) r ∈ name_of (objects st) <$> visited))
          as [|Hnot]; [done|].
        unfold name_of at 1 in Hnot. rewrite Hs in Hnot.
        apply registered_None in Hnot. congruence.
      * by rewrite extend_extend, app_nil_r.
      * intros n. rewrite registered_app, Hseen.
        destruct (registered (objects st) visited n) eqn:Hn; [done|].
        simpl. rewrite Hs. destruct (decide (name s = n)); [congruence|done].
    + rewrite bind_run, (attr_run _ _ s) by (by rewrite objects_extend_nil).
      rewrite ret_run. eexists _, _. split; [done|].
      cbn [fst snd]. split_and!.
      * rewrite decide_False; [done|].
        unfold name_of at 1. rewrite Hs. by apply registered_None.
      * by rewrite app_nil_r.
      * intros n. rewrite registered_app, <- Hseen. simpl. rewrite Hs.
        destruct (decide (name s = n)) as [<-|Hne].
        -- by rewrite lookup_insert_eq, Hseen, Hreg.
        -- rewrite lookup_insert_ne by done. by destruct (seen !! n).
  - cbn [fst snd first_seen conflicts]. split_and!; [done| by rewrite extend_nil |].
    intros n. apply lookup_empty.
  - rewrite Hloop. simpl in Hunique. by subst unique.
Qed.

Lemma first_seen_sublist objs skills : ∀ earlier,
  first_seen objs earlier skills `sublist_of` skills.
Proof.
  induction skills as [|r skills IH]; intros earlier; simpl; [done|].
  destruct (decide _); simpl.
  - by apply sublist_cons.
  - by apply sublist_skip.
Qed.

Lemma first_seen_fresh objs skills : ∀ earlier r,
  r ∈ first_seen objs earlier skills →
  name_of objs r ∉ name_of objs <$> earlier.
Proof.
  induction skills as [|x skills IH]; intros earlier r; simpl.
  - by intros ?%elem_of_nil.
  - intros [Hr|Hr]%elem_of_app.
    + destruct (decide _) as [|Hnot]; [by apply elem_of_nil in Hr|].
      by apply list_elem_of_singleton in Hr as ->.
    + apply IH in Hr. rewrite fmap_app in Hr.
      intros ?. apply Hr. apply elem_of_app. by left.
Qed.

Lemma first_seen_NoDup objs skills : ∀ earlier,
  NoDup (name_of objs <$> first_seen objs earlier skills).
Proof.
  induction skills as [|x skills IH]; intros earlier; simpl; [constructor|].
  destruct (decide _) as [|Hnot]; simpl; [apply IH|].
  constructor; [|apply IH].
  intros (r & Heq & Hr)%list_elem_of_fmap.
  apply first_seen_fresh in Hr. apply Hr. rewrite <- Heq, fmap_app.
  apply elem_of_app. right. by left.
Qed.

Lemma first_seen_covers objs skills : ∀ earlier r,
  r ∈ skills →
  name_of objs r ∈ name_of objs <$> (earlier ++ first_seen objs earlier skills).
Proof.
  induction skills as [|x skills IH]; intros earlier r; simpl.
  - by intros ?%elem_of_nil.
  - intros [->|Hr]%elem_of_cons.
    + destruct (decide _) as [Hin|Hnot].
      * rewrite fmap_app. apply elem_of_app. by left.
      * rewrite !fmap_app. simpl. apply elem_of_app. right. by left.
    + specialize (IH (earlier ++ [x]) r Hr).
      rewrite !fmap_app in IH. rewrite !fmap_app.
      apply elem_of_app in IH as [[?|Hx]%elem_of_app|?].
      * apply elem_of_app. by left.
      * simpl in Hx. apply list_elem_of_singleton in Hx. rewrite Hx.
        destruct (decide _) as [Hin|Hnot].
        -- apply elem_of_app. by left.
        -- apply elem_of_app. right. simpl. by left.
      * apply elem_of_app. right. apply elem_of_app. by right.
Qed.

Lemma first_seen_count objs skills : ∀ earlier,
  Forall (λ r, is_Some (objs !! r)) skills →
  length (first_seen objs earlier skills) + length (conflicts objs earlier skills)
  = length skills.
Proof.
  induction skills as [|x skills IH]; intros earlier Hvalid; simpl; [done|].
  apply Forall_cons in Hvalid as [[s Hs] Hvalid].
  rewrite !length_app, Hs. specialize (IH (earlier ++ [x]) Hvalid).
  destruct (decide _) as [Hin|Hnot].
  - unfold name_of at 1 in Hin. rewrite Hs in Hin. simpl in Hin.
    destruct (registered objs earlier (name s)) eqn:Hreg; [simpl; lia|].
    by apply registered_None in Hreg.
  - unfold name_of at 1 in Hnot. rewrite Hs in Hnot. simpl in Hnot.
    apply registered_None in Hnot. rewrite Hnot. simpl. lia.
Qed.

Lemma conflicts_warnings objs skills : ∀ earlier,
  Forall (λ e, ∃ msg, e = Log WARNING msg) (conflicts objs earlier skills).
Proof.
  induction skills as [|x skills IH]; intros earlier; simpl; [constructor|].
  apply Forall_app. split; [|apply IH].
  destruct (objs !! x) as [s|]; [|constructor].
  destruct (registered objs earlier (name s)); repeat constructor. by eexists.
Qed.

Lemma demo_valid : valid_refs demo_st [0; 1; 2].
Proof.
  repeat (apply Forall_cons; split; [eexists; vm_compute; reflexivity|]).
  apply Forall_nil. done.
Qed.

(** C3: the resolver returns a list that keeps the order of its input and
    has at most one record of each name: a record is kept exactly when no
    record before it in the input has its name, so that every name of the
    input keeps its first record. Every other record is dropped with one
    warning, which names its path and the path of the first record of its
    name. The records themselves are not touched. *)
Theorem check_conflicts_spec st skills :
  valid_refs st skills →
  ∃ unique logged,
    check_conflicts skills st = Some (unique, extend st [] logged) ∧
    unique = first_seen (objects st) [] skills ∧
    logged = conflicts (objects st) [] skills ∧
    unique `sublist_of` skills ∧
    NoDup (name_of (objects st) <$> unique) ∧
    (∀ r, r ∈ skills → name_of (objects st) r ∈ name_of (objects st) <$> unique) ∧
    (∀ before r after,
       skills = before ++ r :: after →
       unique
       = first_seen (objects st) [] before
         ++ (if decide (name_of (objects st) r ∈ name_of (objects st) <$> before)
             then [] else [r])
         ++ first_seen (objects st) (before ++ [r]) after) ∧
    length unique + length logged = length skills ∧
    Forall (λ e, ∃ msg, e = Log WARNING msg) logged.
Proof.
  intros Hvalid. eexists _, _. split; [by apply check_conflicts_run|].
  split_and!; try done.
  - apply first_seen_sublist.
  - apply first_seen_NoDup.
  - intros r Hr. by apply (first_seen_covers _ _ []).
  - intros before r after ->. by rewrite first_seen_app.
  - by apply first_seen_count.
  - apply conflicts_warnings.
Qed.

Lemma check_conflicts_spec_witness :
  ∃ logged,
    check_conflicts [0; 1; 2] demo_st = Some ([0; 1], extend demo_st [] logged) ∧
    length logged = 1.
Proof.
  destruct (check_conflicts_spec demo_st [0; 1; 2] demo_valid)
    as (unique & logged & Hrun & Hunique & Hlogged & _).
  exists logged. split.
  - rewrite Hrun. do 2 f_equal. rewrite Hunique. by vm_compute.
  - rewrite Hlogged. by vm_compute.
Defined.

(** C7: the validator logs every warning attached to every record, in
    order, each with the name of its record, returns the number of these
    warnings, and leaves the records as they are. *)
Theorem validate_skills_spec st skills records :
  Forall2 (λ r s, objects st !! r = Some s) skills records →
  ∃ st',
    validate_skills skills st
    = Some (sum_list_with (λ s, length (warnings s)) records, st') ∧
    objects st' = objects st ∧
    trace st' = trace st ++ (records ≫= warning_events).
Proof.
  intros Hrecords.
  assert (Hvalid : valid_refs st skills).
  { induction Hrecords; constructor; [by eexists | done]. }
  assert (Hderef : deref (objects st) skills = records).
  { clear Hvalid. induction Hrecords as [|r s ? ? Hs ? IH]; [done|].
    unfold deref in *. cbn [omap list_omap]. rewrite Hs. by rewrite <- IH. }
  exists (extend st [] (records ≫= warning_events)).
  rewrite validate_skills_run, Hderef by done.
  split_and!; [done| apply objects_extend_nil | done].
Qed.

Lemma validate_skills_spec_witness :
  ∃ st', validate_skills [0; 1; 2] demo_st = Some (3, st') ∧
         objects st' = objects demo_st.
Proof.
  destruct (validate_skills_spec demo_st [0; 1; 2] (scan_records demo_fs demo_root))
    as (st' & Hrun & Hobjs & _).
  - repeat (apply Forall2_cons; split; [by vm_compute|]). apply Forall2_nil. done.
  - exists st'. split; [|exact Hobjs]. rewrite Hrun. by vm_compute.
Defined.

(** C8: the resolver followed by the validator changes no field of any
    record: the store of records after both is the store before. The
    resolver only selects references from its input, and what the two log
    goes to the trace as warnings and into no record. *)
Theorem dedup_validate_frame st skills :
  valid_refs st skills →
  ∃ unique st1 warning_count st2 logged,
    check_conflicts skills st = Some (unique, st1) ∧
    validate_skills unique st1 = Some (warning_count, st2) ∧
    objects st1 = objects st ∧
    objects st2 = objects st ∧
    (∀ r, objects st2 !! r = objects st !! r) ∧
    unique `sublist_of` skills ∧
    trace st2 = trace st ++ logged ∧
    Forall (λ e, ∃ msg, e = Log WARNING msg) logged.
Proof.
  intros Hvalid.
  pose proof (check_conflicts_run st skills Hvalid) as Hdedup.
  set (unique := first_seen (objects st) [] skills) in *.
  set (st1 := extend st [] (conflicts (objects st) [] skills)) in *.
  assert (Hobjs1 : objects st1 = objects st) by apply objects_extend_nil.
  assert (Hsub : unique `sublist_of` skills) by apply first_seen_sublist.
  assert (Hvalid1 : valid_refs st1 unique).
  { unfold valid_refs in *. rewrite Hobjs1. rewrite Forall_forall in Hvalid.
    apply Forall_forall. intros r Hr. apply Hvalid. by eapply elem_of_sublist. }
  pose proof (validate_skills_run st1 unique Hvalid1) as Hvalidate.
  exists unique, st1,
    (sum_list_with (λ s, length (warnings s)) (deref (objects st1) unique)),
    (extend st1 [] (deref (objects st1) unique ≫= warning_events)),
    (conflicts (objects st) [] skills
     ++ (deref (objects st1) unique ≫= warning_events)).
  split_and!; [exact Hdedup | exact Hvalidate | ..].
  - done.
  - by rewrite objects_extend_nil.
  - intros r. by rewrite objects_extend_nil, Hobjs1.
  - done.
  - unfold st1, extend. cbn [trace]. by rewrite app_assoc.
  - apply Forall_app. split; [apply conflicts_warnings|].
    apply Forall_forall. intros e (s & Hs & Hw)%list_elem_of_bind.
    unfold warning_events in Hs. apply list_elem_of_fmap in Hs as (w & -> & _).
    by eexists.
Qed.

Lemma dedup_validate_frame_witness :
  ∃ st1 st2,
    check_conflicts [0; 1; 2] demo_st = Some ([0; 1], st1) ∧
    validate_skills [0; 1] st1 = Some (2, st2) ∧
    objects st2 = objects demo_st.
Proof.
  destruct (dedup_validate_frame demo_st [0; 1; 2] demo_valid)
    as (unique & st1 & n & st2 & logged & Hdedup & Hvalidate & _ & Hobjs & _).
  assert (Hunique : unique = [0; 1]).
  { assert (H : fst <$> check_conflicts [0; 1; 2] demo_st = Some [0; 1])
      by (by vm_compute).
    rewrite Hdedup in H. by injection H. }
  subst unique.
  assert (Hn : n = 2).
  { assert (H : fst <$> (check_conflicts [0; 1; 2] demo_st
                         ≫= λ '(u, s), validate_skills u s) = Some 2)
      by (by vm_compute).
    rewrite Hdedup in H. simpl in H. rewrite Hvalidate in H. by injection H. }
  subst n. exists st1, st2.
  split; [exact Hdedup|]. split; [exact Hvalidate | exact Hobjs].
Defined.

(** ** generate_router_content *)

Lemma mapM_run {A B} (g : A → Py B) (h : A → B) l st :
  (∀ x, x ∈ l → g x st = Some (h x, st)) →
  mapM g l st = Some (h <$> l, st).
Proof.
  induction l as [|x l IH]; intros Hg; [done|].
  cbn [mapM]. rewrite bind_run, Hg by (by left).
  rewrite bind_run, IH; [done|]. intros y Hy. apply Hg. by right.
Qed.

Section sorted_fmap.
Context {A B K : Type} (leb : K → K → bool).
Context (keyA : A → K) (keyB : B → K) (g : B → A).

Lemma sorted_insert_fmap x l :
  keyA (g x) = keyB x → (∀ b, b ∈ l → keyA (g b) = keyB b) →
  g <$> sorted_insert leb keyB x l = sorted_insert leb keyA (g x) (g <$> l).
Proof.
  intros Hx. induction l as [|y l IH]; intros Hl; [done|].
  simpl. rewrite Hx, (Hl y) by (by left).
  destruct (leb (keyB x) (keyB y)); [done|].
  rewrite fmap_cons. f_equal. apply IH. intros b Hb. apply Hl. by right.
Qed.

Lemma sorted_fmap l :
  (∀ b, b ∈ l → keyA (g b) = keyB b) →
  g <$> sorted leb keyB l = sorted leb keyA (g <$> l).
Proof.
  induction l as [|x l IH]; intros Hl; [done|].
  simpl. rewrite sorted_insert_fmap.
  - f_equal. apply IH. intros b Hb. apply Hl. by right.
  - apply Hl. by left.
  - intros b Hb. apply Hl. right. by rewrite sorted_Permutation in Hb.
Qed.
End sorted_fmap.

Lemma deref_valid st skills :
  valid_refs st skills →
  Forall2 (λ r s, objects st !! r = Some s) skills (deref (objects st) skills).
Proof.
  induction 1 as [|r skills [s Hs] _ IH]; [constructor|].
  unfold deref in *. cbn [omap list_omap]. rewrite Hs. by constructor.
Qed.

Lemma generate_router_content_run home st skills :
  valid_refs st skills →
  generate_router_content home skills st
  = Some (router_text home (deref (objects st) skills), st).
Proof.
  intros Hvalid. unfold generate_router_content. cbv zeta.
  pose (obj := λ r, objects st !! r).
  pose (keyed := λ r, (default [] (name <$> obj r), r)).
  rewrite bind_run, (mapM_run _ keyed); cycle 1.
  { intros r Hr. destruct (valid_refs_elem _ _ _ Hvalid Hr) as [s Hs].
    rewrite bind_run, (attr_run _ _ s), ret_run by done.
    unfold keyed, obj. by rewrite Hs. }
  rewrite bind_run.
  match goal with
  | |- context [for_each ?l ?body ?lines0 st] =>
      destruct (λ Hstep, for_each_invariant
                  (λ visited lines st',
                     st' = st ∧
                     Some <$> lines
                     = (Some <$> lines0)
                       ++ ((λ kr, router_line home <$> obj kr.2) <$> visited))
                  body l Hstep [] lines0 st) as (lines & st' & Hloop & -> & Hlines)
  end.
  - intros visited [k r] lines st1 Hkr [-> Hlines].
    rewrite sorted_Permutation in Hkr.
    apply list_elem_of_fmap in Hkr as (r' & [= -> ->] & Hr).
    destruct (valid_refs_elem _ _ _ Hvalid Hr) as [s Hs].
    rewrite bind_run, (attr_run _ _ s), bind_run, (attr_run _ _ s), ret_run by done.
    eexists _, _. split; [done|]. split; [done|].
    rewrite !fmap_app, Hlines, <- app_assoc. do 2 f_equal.
    simpl. unfold obj. by rewrite Hs.
  - split; [done|]. by rewrite app_nil_r.
  - rewrite Hloop, ret_run. do 2 f_equal. unfold router_text.
    rewrite app_nil_l in Hlines.
    assert (Hsort : (λ kr : str * ref, obj kr.2) <$> sorted str_leb fst (keyed <$> skills)
                    = Some <$> sorted str_leb name (deref (objects st) skills)).
    { pose proof (deref_valid _ _ Hvalid) as Hd.
      rewrite (sorted_fmap str_leb (λ o, default [] (name <$> o)) fst (λ kr, obj kr.2))
        by (by intros [k r] (r' & [= -> ->] & _)%list_elem_of_fmap).
      rewrite <- list_fmap_compose.
      replace ((λ kr : str * ref, obj kr.2) ∘ keyed <$> skills)
        with (Some <$> deref (objects st) skills); cycle 1.
      { clear -Hd. induction Hd as [|r s ? ? Hs ? IH]; [done|].
        rewrite !fmap_cons, IH. f_equal. simpl. unfold obj. by rewrite Hs. }
      by rewrite <- (sorted_fmap str_leb (λ o, default [] (name <$> o)) name Some). }
    rewrite (app_assoc [_; _]). f_equal. f_equal.
    apply (inj (fmap Some)).
    rewrite !fmap_app, Hlines. f_equal.
    change (λ kr : str * ref, router_line home <$> obj kr.2)
      with (fmap (M := option) (router_line home) ∘ (λ kr : str * ref, obj kr.2)).
    rewrite list_fmap_compose, Hsort, <- !list_fmap_compose. done.
Qed.

(** ** list_skills, backup_router and main *)

Lemma emit_run e st : emit e st = Some (tt, extend st [] [e]).
Proof. unfold emit, extend. by rewrite app_nil_r. Qed.

Lemma print_run text st : print text st = Some (tt, extend st [] [Print text]).
Proof. apply emit_run. Qed.

Lemma valid_refs_extend st found logged skills :
  valid_refs st skills → valid_refs (extend st found logged) skills.
Proof.
  unfold valid_refs, extend. cbn [objects]. intros Hvalid.
  eapply Forall_impl; [exact Hvalid|].
  intros r [s Hs]. exists s. by apply lookup_app_l_Some.
Qed.

Lemma valid_refs_sublist st unique skills :
  unique `sublist_of` skills → valid_refs st skills → valid_refs st unique.
Proof.
  unfold valid_refs. rewrite !Forall_forall. intros Hsub Hvalid r Hr.
  apply Hvalid. by eapply elem_of_sublist.
Qed.

Lemma appended_valid st found skills st' :
  appended st [] found skills st' → valid_refs st' skills.
Proof.
  intros (logged & -> & ->). unfold valid_refs, extend. cbn [objects app].
  apply Forall_forall. intros r Hr%elem_of_seq.
  apply lookup_lt_is_Some. rewrite length_app. lia.
Qed.

Lemma list_skills_run st skills :
  valid_refs st skills →
  ∃ printed, list_skills skills st = Some (tt, extend st [] printed).
Proof.
  intros Hvalid. unfold list_skills.
  case_bool_decide; [eexists; apply print_run|].
  pose (obj := λ st' r, objects st' !! r).
  rewrite bind_run, (mapM_run _ (λ r, default [] (name <$> obj st r))); cycle 1.
  { intros r Hr. destruct (valid_refs_elem _ _ _ Hvalid Hr) as [s Hs].
    rewrite (attr_run _ _ s) by done. unfold obj. by rewrite Hs. }
  cbv zeta. rewrite bind_run, print_run, bind_run, print_run, extend_extend.
  rewrite bind_run.
  match goal with
  | |- context [mapM ?g skills] =>
      rewrite (mapM_run g (λ r, (default [] (name <$> obj st r), r)))
  end; cycle 1.
  { intros r Hr. destruct (valid_refs_elem _ _ _ Hvalid Hr) as [s Hs].
    rewrite bind_run, (attr_run _ _ s), ret_run
      by (rewrite objects_extend_nil; done).
    unfold obj. by rewrite Hs. }
  rewrite bind_run.
  match goal with
  | |- context [for_each ?l ?body tt ?st1] =>
      destruct (λ Hstep, for_each_invariant
                  (λ visited (_ : unit) st', ∃ printed, st' = extend st [] printed)
                  body l Hstep [] tt st1) as ([] & st' & Hloop & printed & ->)
  end.
  - intros visited [k r] [] st1 Hkr [printed ->].
    rewrite sorted_Permutation in Hkr.
    apply list_elem_of_fmap in Hkr as (r' & [= -> ->] & Hr).
    destruct (valid_refs_elem _ _ _ Hvalid Hr) as [s Hs].
    rewrite bind_run, (attr_run _ _ s) by (by rewrite objects_extend_nil).
    rewrite bind_run, (attr_run _ _ s) by (by rewrite objects_extend_nil).
    rewrite bind_run, (attr_run _ _ s) by (by rewrite objects_extend_nil).
    rewrite print_run, extend_extend. eexists _, _. split; [done|]. by eexists.
  - by eexists.
  - rewrite Hloop, print_run, extend_extend. by eexists.
Qed.

(** ** generate_router_content on a path that contains the home directory *)

(** C4 fails on the code where the claim is right. The record lies under
    [/backup/home/u/skills], which does not begin with the home directory
    [/home/u]; the shorthand is substituted all the same, inside the path,
    and the index that [main] writes has the line [x: /backup~/skills/x/]. *)
Lemma generate_router_content_inner_home :
  startswith (path_str demo_home) (path_str (backup_root </> py "x")) = false ∧
  (λ r, (r.1, objects r.2, writes (trace r.2)))
    <$> main backup_fs demo_home [] (build backup_root) st0
  = Some (0,
          [{| name := py "x"; path := backup_root </> py "x";
              description := Some (py "d"); helpers := []; warnings := [] |}],
          [(backup_root </> py "_router" </> py "SKILL.md",
            py "# Skill Router

x: /backup~/skills/x/
")]).
Proof. split; vm_compute; reflexivity. Qed.

(** * Further properties *)

(** ** Trimming *)

Lemma lstrip_lstrip s : lstrip (lstrip s) = lstrip s.
Proof.
  induction s as [|c s IH]; [done|]. simpl.
  destruct (isspace c) eqn:Hc; [done|]. simpl. by rewrite Hc.
Qed.

Lemma lstrip_app_nonspace x c y :
  isspace c = false → lstrip (x ++ c :: y) = lstrip x ++ c :: y.
Proof.
  intros Hc. induction x as [|a x IH]; simpl.
  - by rewrite Hc.
  - by destruct (isspace a).
Qed.

Lemma lstrip_elem s c : c ∈ lstrip s → c ∈ s.
Proof.
  induction s as [|a s IH]; [done|]. simpl.
  destruct (isspace a); [|done]. intros ?. right. auto.
Qed.

Lemma rstrip_elem s c : c ∈ rstrip s → c ∈ s.
Proof.
  unfold rstrip. rewrite elem_of_reverse. intros H%lstrip_elem.
  by apply elem_of_reverse.
Qed.

Lemma strip_elem s c : c ∈ strip s → c ∈ s.
Proof. unfold strip. intros H%rstrip_elem. by apply lstrip_elem. Qed.

Lemma rstrip_cons_nonspace c s :
  isspace c = false → rstrip (c :: s) = c :: rstrip s.
Proof.
  intros Hc. unfold rstrip. rewrite reverse_cons, lstrip_app_nonspace by done.
  by rewrite reverse_app.
Qed.

Lemma rstrip_rstrip s : rstrip (rstrip s) = rstrip s.
Proof. unfold rstrip. by rewrite reverse_involutive, lstrip_lstrip. Qed.

Lemma lstrip_nonspace c s : isspace c = false → lstrip (c :: s) = c :: s.
Proof. intros Hc. simpl. by rewrite Hc. Qed.

(** A trimmed text is empty or starts with a character that is not
    whitespace. *)
Lemma lstrip_strip s : lstrip (strip s) = strip s.
Proof.
  unfold strip. induction s as [|c s IH]; [done|]. simpl.
  destruct (isspace c) eqn:Hc; [done|].
  rewrite rstrip_cons_nonspace by done. by apply lstrip_nonspace.
Qed.

Lemma strip_strip s : strip (strip s) = strip s.
Proof.
  unfold strip at 1. rewrite lstrip_strip. unfold strip. apply rstrip_rstrip.
Qed.

Lemma strip_space_cons c s : isspace c = true → strip (c :: s) = strip s.
Proof. intros Hc. unfold strip. simpl. by rewrite Hc. Qed.

(** ** Lines have no line boundary *)

Lemma splitlines_from_no_linebreak s : ∀ cur l c,
  (∀ a, a ∈ cur → is_linebreak a = false) →
  l ∈ splitlines_from cur s → c ∈ l → is_linebreak c = false.
Proof.
  induction s as [|x s IH]; intros cur l c Hcur Hl Hc.
  - simpl in Hl. case_bool_decide; [by apply elem_of_nil in Hl|].
    apply list_elem_of_singleton in Hl as ->.
    apply Hcur. by apply elem_of_reverse.
  - assert (Hhead : l = reverse cur → is_linebreak c = false).
    { intros ->. apply Hcur. by apply elem_of_reverse. }
    assert (Hrest : l ∈ splitlines_from [] s → is_linebreak c = false).
    { intros H. apply (IH [] l c); [|done..]. by intros a ?%elem_of_nil. }
    simpl in Hl. case_bool_decide as Hcr.
    + destruct s as [|y s].
      * apply list_elem_of_singleton in Hl. auto.
      * case_bool_decide.
        -- apply elem_of_cons in Hl as [Hl|Hl]; [auto|].
           apply Hrest. subst y. simpl. apply elem_of_cons. by right.
        -- apply elem_of_cons in Hl as [Hl|Hl]; auto.
    + destruct (is_linebreak x) eqn:Hx.
      * apply elem_of_cons in Hl as [Hl|Hl]; auto.
      * apply (IH (x :: cur) l c); [|done..].
        intros a [->|?]%elem_of_cons; auto.
Qed.

Lemma splitlines_no_linebreak s l c :
  l ∈ splitlines s → c ∈ l → is_linebreak c = false.
Proof.
  apply splitlines_from_no_linebreak. by intros a ?%elem_of_nil.
Qed.

Lemma parse_frontmatter_lookup_trimmed content key value :
  parse_frontmatter content !! key = Some value →
  strip key = key ∧ strip value = value ∧ COLON ∉ key ∧
  ∀ c, c ∈ key ++ value → is_linebreak c = false.
Proof.
  destruct (parse_frontmatter_block content) as (lines & -> & Hblock).
  rewrite read_lines_lookup.
  intros [(before & line & after & -> & Hb & _)|[Hempty _]];
    [|by rewrite lookup_empty in Hempty].
  assert (Hline : line ∈ before ++ line :: after)
    by (apply elem_of_app; right; by left).
  pose proof Hb as (Hcolon & _)%binds_iff.
  destruct Hb as (rk & rv & -> & Hnot & <- & <-).
  split_and!; [apply strip_strip | apply strip_strip | by intros ?%strip_elem |].
  destruct (frontmatter_block content) as [body|];
    [|by destruct (Hblock _ Hline)].
  intros c Hc. rewrite Hblock in Hline.
  apply (splitlines_no_linebreak _ _ _ Hline).
  apply elem_of_app in Hc as [?%strip_elem|?%strip_elem];
    apply elem_of_app; [by left | right; by right].
Qed.

(** X1: every key of the mapping is trimmed and has no colon, every value
    is trimmed, and neither holds a line boundary. *)
Theorem parse_frontmatter_entries_trimmed content key value :
  parse_frontmatter content !! key = Some value →
  strip key = key ∧ strip value = value ∧ COLON ∉ key ∧
  ∀ c, c ∈ key ++ value → is_linebreak c = false.
Proof. apply parse_frontmatter_lookup_trimmed. Qed.

Lemma parse_frontmatter_entries_trimmed_witness :
  strip (py "description") = py "description" ∧
  strip (py "does X: well") = py "does X: well" ∧
  COLON ∉ py "description" ∧
  ∀ c, c ∈ py "description" ++ py "does X: well" → is_linebreak c = false.
Proof.
  apply (parse_frontmatter_entries_trimmed fenced_text).
  vm_compute. reflexivity.
Defined.

Lemma before_first_line l t :
  LF ∉ l →
  before_first (LF :: DELIM) (l ++ LF :: t)
  = if startswith DELIM t then Some l
    else (λ g, l ++ LF :: g) <$> before_first (LF :: DELIM) t.
Proof.
  intros Hl. induction l as [|c l IH].
  - rewrite app_nil_l, before_first_cons.
    change (startswith (LF :: DELIM) (LF :: t)) with (true && startswith DELIM t).
    cbn [andb]. destruct (startswith DELIM t); [done|].
    by destruct (before_first (LF :: DELIM) t).
  - apply not_elem_of_cons in Hl as [Hc Hl].
    rewrite <- app_comm_cons, before_first_cons.
    assert (Hstart : startswith (LF :: DELIM) (c :: l ++ LF :: t) = false).
    { change (startswith (LF :: DELIM) (c :: l ++ LF :: t))
        with (bool_decide (LF = c) && startswith DELIM (l ++ LF :: t)).
      by rewrite bool_decide_eq_false_2. }
    rewrite Hstart, IH by done.
    destruct (startswith DELIM t); [done|].
    by destruct (before_first (LF :: DELIM) t).
Qed.

Lemma startswith_app p t : startswith p (p ++ t) = true.
Proof.
  induction p as [|a p IH]; [done|]. simpl.
  by rewrite bool_decide_eq_true_2.
Qed.

Lemma render_entry_not_delim e t :
  startswith DELIM e.1 = false → startswith DELIM (render_entry e ++ t) = false.
Proof.
  unfold render_entry. destruct e as [k v]. simpl fst. simpl snd.
  destruct k as [|a [|b [|c k]]]; simpl.
  - done.
  - intros _. apply andb_false_r.
  - intros _. by rewrite !andb_false_r.
  - done.
Qed.

Lemma is_linebreak_LF c : is_linebreak c = false → c ≠ LF ∧ c ≠ CR.
Proof. intros H. split; intros ->; done. Qed.

Lemma plain_entry_line e :
  plain_entry e →
  (∀ c, c ∈ render_entry e → is_linebreak c = false) ∧ render_entry e ≠ [] ∧
  ∃ c line, render_entry e = c :: line ∧ isspace c = false.
Proof.
  intros (Hk & _ & _ & _ & Hbreak). unfold render_entry.
  split_and!.
  - intros c [?|[?|?]%elem_of_app]%elem_of_app.
    + apply Hbreak, elem_of_app. by left.
    + revert H. change (py ": ") with [COLON; 32%N].
      intros [->|[->|?%elem_of_nil]%elem_of_cons]%elem_of_cons; done.
    + apply Hbreak, elem_of_app. by right.
  - by destruct e.1.
  - destruct e.1 as [|c k] eqn:Hkey.
    + by exists COLON, (32%N :: e.2).
    + exists c, (k ++ py ": " ++ e.2). split; [done|].
      pose proof (lstrip_strip (c :: k)) as Hl. rewrite Hk in Hl.
      simpl in Hl. destruct (isspace c); [|done].
      exfalso. assert (Hlen : length (lstrip k) = length (c :: k)) by (by rewrite Hl).
      clear -Hlen. assert (length (lstrip k) ≤ length k); [|simpl in *; lia].
      clear. induction k as [|a k IH]; [done|]. simpl.
      destruct (isspace a); simpl; lia.
Qed.

Lemma join_singleton sep (l : str) : join sep [l] = l.
Proof. reflexivity. Qed.

Lemma join_cons_cons sep (a b : str) l :
  join sep (a :: b :: l) = a ++ sep ++ join sep (b :: l).
Proof. reflexivity. Qed.

Lemma join_LF_cons_cons (a b : str) l t :
  join [LF] (a :: b :: l) ++ t = a ++ LF :: (join [LF] (b :: l) ++ t).
Proof. rewrite join_cons_cons, <- !app_assoc. reflexivity. Qed.

Lemma before_first_join lines rest :
  lines ≠ [] →
  Forall (λ l, LF ∉ l) lines →
  Forall (λ l, ∀ t, startswith DELIM (l ++ t) = false) lines →
  before_first (LF :: DELIM) (join [LF] lines ++ LF :: DELIM ++ rest)
  = Some (join [LF] lines).
Proof.
  induction lines as [|l lines IH]; [done|]. intros _ Hlf Hdelim.
  apply Forall_cons in Hlf as [Hl Hlf].
  apply Forall_cons in Hdelim as [_ Hdelim].
  destruct lines as [|l2 lines].
  - rewrite join_singleton, before_first_line, startswith_app; done.
  - rewrite join_LF_cons_cons, before_first_line by done.
    assert (Hnext : startswith DELIM (join [LF] (l2 :: lines) ++ LF :: DELIM ++ rest) = false).
    { apply Forall_cons in Hdelim as [H2 _].
      destruct lines as [|l3 lines].
      - rewrite join_singleton. apply H2.
      - rewrite join_LF_cons_cons. apply H2. }
    rewrite Hnext, IH by done.
    rewrite join_cons_cons. reflexivity.
Qed.

Lemma splitlines_from_line l : ∀ cur t,
  (∀ c, c ∈ l → is_linebreak c = false) →
  splitlines_from cur (l ++ LF :: t) = (reverse cur ++ l) :: splitlines_from [] t.
Proof.
  induction l as [|c l IH]; intros cur t Hl.
  - simpl. by rewrite app_nil_r.
  - destruct (is_linebreak_LF c) as [_ Hcr]; [apply Hl; by left|].
    rewrite <- app_comm_cons. simpl.
    rewrite bool_decide_eq_false_2 by done.
    rewrite (Hl c) by (by left).
    rewrite IH by (intros ? ?; apply Hl; by right).
    by rewrite reverse_cons, <- app_assoc.
Qed.

Lemma splitlines_from_last l : ∀ cur,
  (∀ c, c ∈ l → is_linebreak c = false) → reverse cur ++ l ≠ [] →
  splitlines_from cur l = [reverse cur ++ l].
Proof.
  induction l as [|c l IH]; intros cur Hl Hne.
  - simpl. rewrite app_nil_r in *.
    rewrite bool_decide_eq_false_2; [done|]. intros ->. done.
  - destruct (is_linebreak_LF c) as [_ Hcr]; [apply Hl; by left|].
    simpl. rewrite bool_decide_eq_false_2 by done.
    rewrite (Hl c) by (by left).
    rewrite IH.
    + by rewrite reverse_cons, <- app_assoc.
    + intros ? ?. apply Hl. by right.
    + rewrite reverse_cons. by destruct (reverse cur).
Qed.

Lemma splitlines_join lines :
  Forall (λ l, l ≠ [] ∧ ∀ c, c ∈ l → is_linebreak c = false) lines →
  splitlines (join [LF] lines) = lines.
Proof.
  unfold splitlines. induction 1 as [|l lines [Hne Hl] Hlines IH]; [done|].
  destruct lines as [|l2 lines].
  - rewrite join_singleton. by rewrite splitlines_from_last.
  - rewrite <- (app_nil_r (join _ _)), join_LF_cons_cons, app_nil_r.
    rewrite splitlines_from_line by done. by rewrite IH.
Qed.

Lemma join_head (l : str) lines t :
  ∃ t', join [LF] (l :: lines) ++ t = l ++ t'.
Proof.
  destruct lines as [|l2 lines].
  - rewrite join_singleton. by eexists.
  - rewrite join_LF_cons_cons. by eexists.
Qed.

Lemma frontmatter_block_newline (c : char) (body : str) :
  isspace c = false →
  frontmatter_block (DELIM ++ LF :: c :: body)
  = before_first (LF :: DELIM) (c :: body).
Proof.
  intros Hc. unfold frontmatter_block.
  rewrite startswith_app, drop_app_length. cbv zeta.
  assert (Hws : leading_space (LF :: c :: body) = [LF]).
  { cbn [leading_space]. change (isspace LF) with true. cbv iota. by rewrite Hc. }
  assert (Hstrip : lstrip (LF :: c :: body) = c :: body).
  { cbn [lstrip]. change (isspace LF) with true. cbv iota. by rewrite Hc. }
  rewrite Hws, Hstrip. reflexivity.
Qed.

Lemma frontmatter_block_render entries rest :
  entries ≠ [] → Forall plain_entry entries →
  frontmatter_block (render_frontmatter entries rest)
  = Some (join [LF] (render_entry <$> entries)).
Proof.
  intros Hne Hplain.
  assert (Hlines : Forall (λ l, LF ∉ l) (render_entry <$> entries)
                   ∧ Forall (λ l, ∀ t, startswith DELIM (l ++ t) = false)
                       (render_entry <$> entries)).
  { rewrite !Forall_fmap. split; (eapply Forall_impl; [exact Hplain|]).
    - intros e [Hbreak _]%plain_entry_line Hin. by specialize (Hbreak _ Hin).
    - intros e (_ & _ & _ & Hd & _) t. by apply render_entry_not_delim. }
  destruct Hlines as [Hlf Hdelim].
  assert (Hhead : ∃ c body,
             join [LF] (render_entry <$> entries) ++ LF :: DELIM ++ rest = c :: body
             ∧ isspace c = false).
  { destruct entries as [|e entries]; [done|].
    apply Forall_cons in Hplain as [(_ & _ & c & line & Hc & Hspace)%plain_entry_line _].
    destruct (join_head (render_entry e) (render_entry <$> entries)
                (LF :: DELIM ++ rest)) as [t' Ht'].
    rewrite fmap_cons, Ht', Hc. by exists c, (line ++ t'). }
  destruct Hhead as (c & body & Hbody & Hc).
  unfold render_frontmatter.
  transitivity (frontmatter_block
                  (DELIM ++ LF :: (join [LF] (render_entry <$> entries)
                                     ++ LF :: DELIM ++ rest))).
  { reflexivity. }
  rewrite Hbody, frontmatter_block_newline by done. rewrite <- Hbody.
  apply before_first_join; [by destruct entries|done..].
Qed.

Lemma strip_plain_value v : strip v = v → strip (32%N :: v) = v.
Proof. intros Hv. by rewrite strip_space_cons. Qed.

Lemma read_rendered entries : ∀ m : gmap str str,
  Forall plain_entry entries →
  foldl (λ (frontmatter : gmap str str) (line : str),
           if bool_decide (COLON ∈ line) then
             let '(key, value) := partition COLON line in
             <[strip key := strip value]> frontmatter
           else frontmatter) m (render_entry <$> entries)
  = foldl (λ m e, <[e.1 := e.2]> m) m entries.
Proof.
  induction entries as [|e entries IH]; intros m Hplain; [done|].
  apply Forall_cons in Hplain as [(Hk & Hv & Hcolon & _) Hplain].
  rewrite fmap_cons. cbn [foldl]. rewrite <- IH by done. f_equal.
  unfold render_entry. change (py ": ") with [COLON; 32%N].
  change ([COLON; 32%N] ++ e.2) with (COLON :: 32%N :: e.2).
  rewrite bool_decide_eq_true_2 by (apply elem_of_app; right; by left).
  rewrite partition_unique by done.
  by rewrite Hk, strip_plain_value.
Qed.

Lemma splitlines_render entries :
  Forall plain_entry entries →
  splitlines (join [LF] (render_entry <$> entries)) = render_entry <$> entries.
Proof.
  intros Hplain. apply splitlines_join.
  rewrite Forall_fmap. eapply Forall_impl; [exact Hplain|].
  intros e (Hbreak & Hnil & _)%plain_entry_line. done.
Qed.

(** X2: a descriptor written with a list of plain entries is read back as
    that list: the mapping has each key with the value of its last
    entry. *)
Theorem parse_frontmatter_render entries rest :
  entries ≠ [] → Forall plain_entry entries →
  parse_frontmatter (render_frontmatter entries rest)
  = foldl (λ m e, <[e.1 := e.2]> m) ∅ entries.
Proof.
  intros Hne Hplain.
  destruct (parse_frontmatter_block (render_frontmatter entries rest))
    as (lines & -> & Hblock).
  rewrite frontmatter_block_render in Hblock by done. subst lines.
  rewrite splitlines_render by done.
  by apply read_rendered.
Qed.

Lemma parse_frontmatter_render_witness :
  parse_frontmatter (render_frontmatter sample_entries (py "
# Title
---
more"))
  = <[py "name" := py "beta"]>
      (<[py "description" := py "does X: well"]>
         (<[py "allowed-tools" := py "Read, Grep"]>
            (<[py "name" := py "alpha"]> ∅))).
Proof.
  apply (parse_frontmatter_render sample_entries); [done|].
  unfold sample_entries.
  repeat apply Forall_cons_2; [..|apply Forall_nil_2].
  all: split_and!;
    [first [vm_compute; reflexivity
           |apply (bool_decide_unpack _); vm_compute; exact I] ..|].
  all: apply Forall_forall; repeat apply Forall_cons_2; [..|apply Forall_nil_2].
  all: vm_compute; reflexivity.
Defined.

(** ** The displayed path *)

Lemma replace_from_skip old new pre : ∀ t,
  replace_from old new (length pre) (pre ++ t) = replace_from old new 0 t.
Proof.
  induction pre as [|c pre IH]; intros t; [by destruct t|]. apply IH.
Qed.

Lemma replace_prefix old new t :
  old ≠ [] → replace old new (old ++ t) = new ++ replace old new t.
Proof.
  destruct old as [|a old]; [done|]. intros _. unfold replace.
  rewrite <- app_comm_cons. cbn [replace_from].
  rewrite (app_comm_cons old t a), startswith_app.
  cbn [length]. rewrite Nat.sub_succ, Nat.sub_0_r.
  by rewrite replace_from_skip.
Qed.

Lemma replace_absent old new s :
  before_first old s = None → replace old new s = s.
Proof.
  unfold replace. induction s as [|c s IH]; [done|].
  rewrite before_first_cons. cbn [replace_from].
  destruct (startswith old (c :: s)); [done|].
  destruct (before_first old s); [done|]. intros _. by rewrite IH.
Qed.

Lemma path_str_app (p q : Path) :
  p ≠ [] → q ≠ [] → path_str (p ++ q) = path_str p ++ path_str q.
Proof.
  destruct p as [|a p]; [done|]. destruct q as [|b q]; [done|]. intros _ _.
  unfold path_str. change ((a :: p) ++ b :: q) with (a :: (p ++ b :: q)).
  cbv beta iota. by rewrite app_comm_cons, fmap_app, join_app.
Qed.

Lemma path_str_nonempty p : path_str p ≠ [].
Proof. by destruct p. Qed.

Lemma sample_store_valid : valid_refs sample_store [0; 1].
Proof.
  repeat (apply Forall_cons; split; [eexists; reflexivity|]). apply Forall_nil. done.
Qed.

Lemma router_text_lines home records (line : Skill → str) :
  (∀ s, s ∈ records → router_line home s = line s) →
  router_text home records
  = join [LF] ([py "# Skill Router"; []]
               ++ (line <$> sorted str_leb name records) ++ [[]]).
Proof.
  intros Hline. unfold router_text. do 3 f_equal.
  apply list_fmap_ext. intros i s Hs. apply Hline.
  rewrite <- (sorted_Permutation str_leb name). by eapply list_elem_of_lookup_2.
Qed.

(** X3: when every record lies below the home directory and the text of
    the home directory does not occur again in the rest of its path, the
    index shows every path with [~] in place of the home directory. *)
Theorem generate_router_content_under_home home st skills :
  valid_refs st skills → home ≠ [] →
  (∀ s, s ∈ deref (objects st) skills →
     ∃ rel, path s = home ++ rel ∧ rel ≠ [] ∧
            before_first (path_str home) (path_str rel) = None) →
  generate_router_content home skills st
  = Some (join [LF]
            ([py "# Skill Router"; []]
             ++ ((λ s, name s ++ py ": ~"
                       ++ path_str (drop (length home) (path s)) ++ py "/")
                   <$> sorted str_leb name (deref (objects st) skills))
             ++ [[]]), st).
Proof.
  intros Hvalid Hhome Hunder.
  rewrite generate_router_content_run by done. do 2 f_equal.
  apply router_text_lines. intros s (rel & Hpath & Hrel & Habsent)%Hunder.
  unfold router_line. rewrite Hpath, drop_app_length, path_str_app by done.
  rewrite replace_prefix by apply path_str_nonempty.
  rewrite replace_absent by done.
  change (py ": ~") with (py ": " ++ py "~"). by rewrite <- !app_assoc.
Qed.

Lemma generate_router_content_under_home_witness :
  generate_router_content [py "home"; py "u"] [0; 1] sample_store
  = Some (py "# Skill Router

alpha: ~/skills/group/alpha/
beta: ~/skills/beta/
", sample_store).
Proof.
  rewrite (generate_router_content_under_home
             [py "home"; py "u"] sample_store [0; 1] sample_store_valid).
  - vm_compute. reflexivity.
  - discriminate.
  - intros s Hs.
    change (deref (objects sample_store) [0; 1]) with (objects sample_store) in Hs.
    apply elem_of_cons in Hs as [->|Hs].
    { exists [py "skills"; py "beta"]. split_and!; [reflexivity|discriminate|].
      vm_compute. reflexivity. }
    apply elem_of_cons in Hs as [->|Hs].
    { exists [py "skills"; py "group"; py "alpha"].
      split_and!; [reflexivity|discriminate|]. vm_compute. reflexivity. }
    by apply elem_of_nil in Hs.
Defined.

(** X4: a path in which the text of the home directory does not occur is
    shown in the index as it is. *)
Theorem generate_router_content_outside_home home st skills :
  valid_refs st skills →
  (∀ s, s ∈ deref (objects st) skills →
     before_first (path_str home) (path_str (path s)) = None) →
  generate_router_content home skills st
  = Some (join [LF]
            ([py "# Skill Router"; []]
             ++ ((λ s, name s ++ py ": " ++ path_str (path s) ++ py "/")
                   <$> sorted str_leb name (deref (objects st) skills))
             ++ [[]]), st).
Proof.
  intros Hvalid Habsent.
  rewrite generate_router_content_run by done. do 2 f_equal.
  apply router_text_lines. intros s Hs%Habsent.
  unfold router_line. by rewrite replace_absent.
Qed.

Lemma generate_router_content_outside_home_witness :
  generate_router_content [py "home"; py "v"] [0; 1] sample_store
  = Some (py "# Skill Router

alpha: /home/u/skills/group/alpha/
beta: /home/u/skills/beta/
", sample_store).
Proof.
  rewrite (generate_router_content_outside_home
             [py "home"; py "v"] sample_store [0; 1] sample_store_valid).
  - vm_compute. reflexivity.
  - intros s Hs.
    change (deref (objects sample_store) [0; 1]) with (objects sample_store) in Hs.
    apply elem_of_cons in Hs as [->|Hs]; [vm_compute; reflexivity|].
    apply elem_of_cons in Hs as [->|Hs]; [vm_compute; reflexivity|].
    by apply elem_of_nil in Hs.
Defined.

(** ** Lists without repeated names *)

Lemma first_seen_distinct objs skills : ∀ earlier,
  NoDup (name_of objs <$> skills) →
  (∀ r, r ∈ skills → name_of objs r ∉ name_of objs <$> earlier) →
  first_seen objs earlier skills = skills.
Proof.
  induction skills as [|x skills IH]; intros earlier Hnodup Hfresh; [done|].
  rewrite fmap_cons in Hnodup. apply NoDup_cons in Hnodup as [Hx Hnodup].
  cbn [first_seen]. rewrite decide_False by (apply Hfresh; by left).
  cbn [app]. f_equal. apply IH; [done|].
  intros r Hr. rewrite fmap_app. intros [Hin|Hin]%elem_of_app.
  - by apply (Hfresh r); [right|].
  - apply list_elem_of_singleton in Hin. apply Hx. rewrite <- Hin.
    by apply list_elem_of_fmap_2.
Qed.

Lemma conflicts_distinct objs skills : ∀ earlier,
  NoDup (name_of objs <$> skills) →
  (∀ r, r ∈ skills → name_of objs r ∉ name_of objs <$> earlier) →
  conflicts objs earlier skills = [].
Proof.
  induction skills as [|x skills IH]; intros earlier Hnodup Hfresh; [done|].
  rewrite fmap_cons in Hnodup. apply NoDup_cons in Hnodup as [Hx Hnodup].
  cbn [conflicts]. rewrite IH; [|done|].
  - rewrite app_nil_r. destruct (objs !! x) as [s|] eqn:Hs; [|done].
    assert (Hreg : registered objs earlier (name s) = None).
    { apply registered_None. specialize (Hfresh x). unfold name_of at 1 in Hfresh.
      rewrite Hs in Hfresh. apply Hfresh. by left. }
    by rewrite Hreg.
  - intros r Hr. rewrite fmap_app. intros [Hin|Hin]%elem_of_app.
    + by apply (Hfresh r); [right|].
    + apply list_elem_of_singleton in Hin. apply Hx. rewrite <- Hin.
      by apply list_elem_of_fmap_2.
Qed.

(** X5: a list in which no two records have the same name is returned as
    it is, and nothing is logged. *)
Theorem check_conflicts_distinct st skills :
  valid_refs st skills → NoDup (name_of (objects st) <$> skills) →
  check_conflicts skills st = Some (skills, st).
Proof.
  intros Hvalid Hnodup. rewrite check_conflicts_run by done.
  rewrite first_seen_distinct, conflicts_distinct, extend_nil; try done.
  all: intros r _; apply not_elem_of_nil.
Qed.

Lemma check_conflicts_distinct_witness :
  check_conflicts [1; 0] sample_store = Some ([1; 0], sample_store).
Proof.
  apply check_conflicts_distinct.
  - repeat (apply Forall_cons; split; [eexists; reflexivity|]). apply Forall_nil. done.
  - apply (bool_decide_unpack _). vm_compute. exact I.
Defined.

(** X6: deduplicating twice is deduplicating once: run on its own result,
    the resolver returns that result and logs nothing. *)
Theorem check_conflicts_twice st skills :
  valid_refs st skills →
  ∃ unique st',
    check_conflicts skills st = Some (unique, st') ∧
    check_conflicts unique st' = Some (unique, st').
Proof.
  intros Hvalid.
  pose proof (first_seen_NoDup (objects st) skills []) as Hnodup.
  pose proof (first_seen_sublist (objects st) skills []) as Hsub.
  exists (first_seen (objects st) [] skills),
    (extend st [] (conflicts (objects st) [] skills)).
  split; [by apply check_conflicts_run|].
  generalize dependent (first_seen (objects st) [] skills). intros unique Hnodup Hsub.
  generalize (conflicts (objects st) [] skills). intros logged.
  assert (Hunique : valid_refs (extend st [] logged) unique).
  { apply valid_refs_extend. by eapply valid_refs_sublist. }
  rewrite check_conflicts_run, objects_extend_nil by done.
  rewrite first_seen_distinct, conflicts_distinct, extend_nil; try done.
  all: intros r _; apply not_elem_of_nil.
Qed.

Lemma check_conflicts_twice_witness :
  ∃ unique st',
    check_conflicts [0; 1; 0] sample_store = Some (unique, st') ∧
    check_conflicts unique st' = Some (unique, st').
Proof.
  apply check_conflicts_twice.
  repeat (apply Forall_cons; split; [eexists; reflexivity|]). apply Forall_nil. done.
Defined.

(** ** The index after deduplication *)

Lemma name_of_deref objs skills :
  Forall (λ r, is_Some (objs !! r)) skills →
  Some <$> (name <$> deref objs skills) = name_of objs <$> skills.
Proof.
  induction 1 as [|r skills [s Hs] _ IH]; [done|].
  unfold deref in *. cbn [omap list_omap]. rewrite Hs, !fmap_cons, IH.
  f_equal. unfold name_of. by rewrite Hs.
Qed.




(** ** The lines of the index *)






(** A directory whose name holds a newline gives a record whose entry in
    the index spans two lines. *)
Example router_text_line_break :
  splitlines (router_text demo_home
                [ {| name := py "b" ++ [LF] ++ py "a";
                     path := [py "srv"; py "b" ++ [LF] ++ py "a"];
                     description := None; helpers := []; warnings := [] |} ])
  = [py "# Skill Router"; []; py "b"; py "a: /srv/b"; py "a/"].
Proof. vm_compute. reflexivity. Qed.

(** ** The listing *)

Lemma shown_description_length s : length (shown_description s) ≤ 60.
Proof.
  unfold shown_description. cbv zeta. case_bool_decide; [|lia].
  rewrite length_app, length_take. change (length (py "...")) with 3. lia.
Qed.

Lemma max_list_elem (l : list nat) n : n ∈ l → n ≤ max_list l.
Proof.
  induction l as [|m l IH]; [by intros ?%elem_of_nil|].
  intros [->|Hn]%elem_of_cons; simpl; [lia|]. specialize (IH Hn). lia.
Qed.

Lemma ljust_length s width : length s ≤ width → length (ljust s width) = width.
Proof. intros H. unfold ljust. rewrite length_app, length_replicate. lia. Qed.

Lemma names_deref st skills :
  valid_refs st skills →
  (λ r, default [] (name <$> objects st !! r)) <$> skills
  = name <$> deref (objects st) skills.
Proof.
  induction 1 as [|r skills [s Hs] _ IH]; [done|].
  unfold deref in *. cbn [omap list_omap]. rewrite Hs, !fmap_cons, IH.
  f_equal. by rewrite Hs.
Qed.

Lemma list_skills_rows st skills :
  valid_refs st skills → skills ≠ [] →
  let records := deref (objects st) skills in
  let width := max_list (length <$> (name <$> records)) in
  list_skills skills st
  = Some (tt, extend st []
            (Print <$>
               [[LF] ++ ljust (py "SKILL") width ++ py "  DESCRIPTION";
                replicate width 45%N ++ py "  " ++ replicate 50 45%N]
               ++ ((λ s, ljust (name s) width ++ py "  " ++ shown_description s
                         ++ shown_helpers s)
                     <$> sorted str_leb name records)
               ++ [[LF] ++ py "Total: " ++ str_of_nat (length skills)
                   ++ py " skill(s)"])).
Proof.
  intros Hvalid Hne records width. unfold list_skills.
  rewrite bool_decide_eq_false_2 by done.
  pose (obj := λ r, objects st !! r).
  rewrite bind_run, (mapM_run _ (λ r, default [] (name <$> obj r))); cycle 1.
  { intros r Hr. destruct (valid_refs_elem _ _ _ Hvalid Hr) as [s Hs].
    rewrite (attr_run _ _ s) by done. unfold obj. by rewrite Hs. }
  cbv zeta. unfold obj at 1 2 3. rewrite names_deref by done.
  fold records. fold width.
  rewrite bind_run, print_run, bind_run, print_run, extend_extend.
  rewrite bind_run.
  match goal with
  | |- context [mapM ?g skills] =>
      rewrite (mapM_run g (λ r, (default [] (name <$> obj r), r)))
  end; cycle 1.
  { intros r Hr. destruct (valid_refs_elem _ _ _ Hvalid Hr) as [s Hs].
    rewrite bind_run, (attr_run _ _ s), ret_run
      by (rewrite objects_extend_nil; done).
    unfold obj. by rewrite Hs. }
  rewrite bind_run.
  set (row := λ s, ljust (name s) width ++ py "  " ++ shown_description s
                   ++ shown_helpers s).
  cbn [app].
  match goal with
  | |- context [for_each ?l ?body tt (extend st [] ?head)] =>
      destruct (λ Hstep, for_each_invariant
                  (λ visited (_ : unit) st',
                     ∃ rows,
                       Some <$> rows = (λ kr : str * ref, row <$> obj kr.2) <$> visited ∧
                       st' = extend st [] (head ++ (Print <$> rows)))
                  body l Hstep [] tt (extend st [] head))
        as ([] & st' & Hloop & rows & Hrows & ->)
  end.
  - intros visited [k r] [] st1 Hkr (rows & Hrows & ->).
    rewrite sorted_Permutation in Hkr.
    apply list_elem_of_fmap in Hkr as (r' & [= -> ->] & Hr).
    destruct (valid_refs_elem _ _ _ Hvalid Hr) as [s Hs].
    rewrite bind_run, (attr_run _ _ s) by (by rewrite objects_extend_nil).
    rewrite bind_run, (attr_run _ _ s) by (by rewrite objects_extend_nil).
    rewrite bind_run, (attr_run _ _ s) by (by rewrite objects_extend_nil).
    rewrite print_run, extend_extend. eexists tt, _. split; [done|].
    exists (rows ++ [row s]). split.
    + rewrite !fmap_app, Hrows. f_equal. simpl. unfold obj. by rewrite Hs.
    + rewrite fmap_app, <- app_assoc. reflexivity.
  - exists []. split; [done|]. by rewrite app_nil_r.
  - rewrite Hloop, print_run, extend_extend. do 3 f_equal.
    assert (Hsort : (λ kr : str * ref, obj kr.2)
                      <$> sorted str_leb fst
                            ((λ r, (default [] (name <$> obj r), r)) <$> skills)
                    = Some <$> sorted str_leb name records).
    { pose proof (deref_valid _ _ Hvalid) as Hd.
      rewrite (sorted_fmap str_leb (λ o, default [] (name <$> o)) fst (λ kr, obj kr.2))
        by (by intros [k r] (r' & [= -> ->] & _)%list_elem_of_fmap).
      rewrite <- list_fmap_compose.
      replace ((λ kr : str * ref, obj kr.2)
                 ∘ (λ r, (default [] (name <$> obj r), r)) <$> skills)
        with (Some <$> records); cycle 1.
      { unfold records. clear -Hd. induction Hd as [|r s ? ? Hs ? IH]; [done|].
        rewrite !fmap_cons, IH. f_equal. simpl. unfold obj. by rewrite Hs. }
      by rewrite <- (sorted_fmap str_leb (λ o, default [] (name <$> o)) name Some). }
    assert (rows = row <$> sorted str_leb name records) as ->.
    { apply (inj (fmap Some)). rewrite Hrows.
      change (λ kr : str * ref, row <$> obj kr.2)
        with (fmap (M := option) row ∘ (λ kr : str * ref, obj kr.2)).
      rewrite app_nil_l, list_fmap_compose, Hsort, <- !list_fmap_compose. done. }
    rewrite !fmap_cons, fmap_app, <- app_assoc. reflexivity.
Qed.

(** X8: the listing of a non-empty list prints a heading, a rule, one row
    for every record in the order of the names, and the total, and does
    nothing else. Every row starts with the name padded to one width, the
    length of the longest name, so that the descriptions are aligned, and
    no description cell is longer than 60 characters. *)
Theorem list_skills_table st skills :
  valid_refs st skills → skills ≠ [] →
  let records := deref (objects st) skills in
  let width := max_list (length <$> (name <$> records)) in
  list_skills skills st
  = Some (tt, extend st []
            (Print <$>
               [[LF] ++ ljust (py "SKILL") width ++ py "  DESCRIPTION";
                replicate width 45%N ++ py "  " ++ replicate 50 45%N]
               ++ ((λ s, ljust (name s) width ++ py "  " ++ shown_description s
                         ++ shown_helpers s)
                     <$> sorted str_leb name records)
               ++ [[LF] ++ py "Total: " ++ str_of_nat (length skills)
                   ++ py " skill(s)"])) ∧
  ∀ s, s ∈ records →
       length (ljust (name s) width) = width ∧
       length (shown_description s) ≤ 60.
Proof.
  intros Hvalid Hne records width.
  split; [by apply list_skills_rows|].
  intros s Hs. split; [|apply shown_description_length].
  apply ljust_length, max_list_elem.
  apply list_elem_of_fmap_2, list_elem_of_fmap_2, Hs.
Qed.

Lemma list_skills_table_witness :
  list_skills [0; 1] sample_store
  = Some (tt, extend sample_store []
                [Print (py "
SKILL  DESCRIPTION");
                 Print (py "-----  --------------------------------------------------");
                 Print (py "alpha  (no description) [scripts]");
                 Print (py "beta   second");
                 Print (py "
Total: 2 skill(s)")]).
Proof.
  destruct (list_skills_table sample_store [0; 1] sample_store_valid)
    as [Hrun _]; [discriminate|].
  rewrite Hrun. vm_compute. reflexivity.
Defined.

(** ** What a run does to the file system *)

Lemma fs_effects_app l1 l2 : fs_effects (l1 ++ l2) = fs_effects l1 ++ fs_effects l2.
Proof. apply filter_app. Qed.

Lemma quiet_ret {A} (a : A) : quiet (mret a).
Proof.
  intros st a' st' [= <- <-]. exists [], []. by rewrite extend_nil.
Qed.

Lemma quiet_bind {A B} (m : Py A) (k : A → Py B) :
  quiet m → (∀ a, quiet (k a)) → quiet (m ≫= k).
Proof.
  intros Hm Hk st b st'. rewrite bind_run.
  destruct (m st) as [[a st1]|] eqn:Hrun; [|done]. intros Hrun'.
  destruct (Hm _ _ _ Hrun) as (f1 & l1 & -> & H1).
  destruct (Hk _ _ _ _ Hrun') as (f2 & l2 & -> & H2).
  exists (f1 ++ f2), (l1 ++ l2). rewrite extend_extend. split; [done|].
  by rewrite fs_effects_app, H1, H2.
Qed.

Lemma quiet_log lvl msg : quiet (log lvl msg).
Proof.
  intros st a st'. rewrite log_run. intros [= <- <-]. by exists [], [Log lvl msg].
Qed.

Lemma quiet_print text : quiet (print text).
Proof.
  intros st a st'. rewrite print_run. intros [= <- <-]. by exists [], [Print text].
Qed.

Lemma quiet_attr {A} (f : Skill → A) r : quiet (attr f r).
Proof.
  intros st a st'. unfold attr. destruct (objects st !! r); [|done].
  intros [= <- <-]. exists [], []. by rewrite extend_nil.
Qed.

Lemma quiet_new_Skill s : quiet (new_Skill s).
Proof.
  intros st a st'. rewrite new_Skill_run. intros [= <- <-]. by exists [s], [].
Qed.

Lemma quiet_iterdir fs p : quiet (iterdir fs p).
Proof.
  intros st a st'. unfold iterdir. destruct (resolve fs p) as [[?|?]|]; try done.
  intros [= <- <-]. exists [], []. by rewrite extend_nil.
Qed.

Lemma quiet_read_text fs p : quiet (read_text fs p).
Proof.
  intros st a st'. unfold read_text. destruct (resolve fs p) as [[?|?]|]; try done.
  intros [= <- <-]. exists [], []. by rewrite extend_nil.
Qed.

Lemma quiet_for_each {A S} (l : list A) (body : A → S → Py S) :
  (∀ x s, quiet (body x s)) → ∀ s, quiet (for_each l body s).
Proof.
  intros Hbody. induction l as [|x l IH]; intros s.
  - apply quiet_ret.
  - apply (quiet_bind (body x s)); [apply Hbody | apply IH].
Qed.

Lemma quiet_mapM {A B} (g : A → Py B) (l : list A) :
  (∀ x, quiet (g x)) → quiet (mapM g l).
Proof.
  intros Hg. induction l as [|x l IH]; [apply quiet_ret|].
  apply (quiet_bind (g x)); [apply Hg|]. intros b.
  apply (quiet_bind (mapM g l)); [apply IH|]. intros bs. apply quiet_ret.
Qed.

Ltac quiet_steps :=
  repeat first
    [ apply quiet_ret | apply quiet_log | apply quiet_print | apply quiet_attr
    | apply quiet_new_Skill | apply quiet_iterdir | apply quiet_read_text
    | apply quiet_bind; [|intros ?]
    | apply quiet_for_each; intros [? ?] ?; cbv beta iota
    | apply quiet_for_each; intros ? ?
    | apply quiet_mapM; intros ?
    | match goal with
      | |- quiet (if ?b then _ else _) => destruct b
      | |- quiet (match ?x with Some _ => _ | None => _ end) => destruct x
      | |- quiet (let '(_, _) := ?x in _) => destruct x
      | |- quiet (match ?x with (_, _) => _ end) => destruct x
      end ].

Lemma find_skill_in_dir_quiet fs dir_path : quiet (find_skill_in_dir fs dir_path).
Proof. unfold find_skill_in_dir. cbv zeta. quiet_steps. Qed.

Lemma scan_skills_quiet fs skills_dir : quiet (scan_skills fs skills_dir).
Proof.
  unfold scan_skills. cbv zeta.
  pose proof find_skill_in_dir_quiet. quiet_steps; done.
Qed.

(** ** backup_router *)

Lemma with_suffix_SKILL (d : Path) suffix :
  with_suffix (d </> py "SKILL.md") suffix = d </> (py "SKILL" ++ suffix).
Proof.
  unfold with_suffix. rewrite path_name_div. cbv zeta.
  change (rfind 46%N (py "SKILL.md")) with (Some 5).
  change (length (py "SKILL.md") - 1) with 7. cbv iota beta.
  rewrite bool_decide_eq_true_2 by lia.
  change (take 5 (py "SKILL.md")) with (py "SKILL").
  unfold path_div. by rewrite removelast_last.
Qed.

Lemma perform_run fs e st :
  perform fs e st
  = (λ fs', (fs', extend st [] [e])) <$> apply_effect fs e.
Proof.
  unfold perform, extend. rewrite app_nil_r. by destruct (apply_effect fs e).
Qed.

Lemma backup_router_SKILL fs timestamp (d : Path) st :
  backup_router fs timestamp (d </> py "SKILL.md") st
  = if is_file fs (d </> py "SKILL.md") then
      (λ fs', (Some (backup_file d timestamp), fs',
               extend st []
                 [Copy2 (d </> py "SKILL.md") (backup_file d timestamp);
                  Log INFO (py "Backed up existing router to "
                            ++ path_str (backup_file d timestamp))]))
        <$> copy2 (d </> py "SKILL.md") (backup_file d timestamp) fs
    else Some (None, fs, st).
Proof.
  unfold backup_router. destruct (is_file fs (d </> py "SKILL.md")); cbn [negb].
  - cbv zeta. rewrite with_suffix_SKILL. fold (backup_file d timestamp).
    rewrite bind_run, perform_run. cbn [apply_effect].
    destruct (copy2 _ _ fs) as [fs'|]; [|done]. cbn [fmap option_fmap option_map].
    by rewrite bind_run, log_run, ret_run, extend_extend.
  - apply ret_run.
Qed.

(** ** main, mode by mode *)

Lemma apply_effects_app l1 : ∀ fs l2,
  apply_effects fs (l1 ++ l2) = apply_effects fs l1 ≫= λ fs', apply_effects fs' l2.
Proof.
  induction l1 as [|e l1 IH]; intros fs l2; [done|].
  cbn [app apply_effects]. destruct (apply_effect fs e) as [fs'|]; [|done].
  apply IH.
Qed.

Lemma main_modes fs home timestamp args st skills st1 :
  scan_skills fs (args_skills_dir args)
    (extend st [] [Log INFO (py "Scanning: " ++ path_str (args_skills_dir args))])
  = Some (skills, st1) →
  valid_refs st1 skills → skills ≠ [] →
  let unique := first_seen (objects st1) [] skills in
  let records := deref (objects st1) unique in
  let warning_count := sum_list_with (λ s, length (warnings s)) records in
  let content := router_text home records in
  let st5 :=
    extend st1 []
      (conflicts (objects st1) [] skills
       ++ (records ≫= warning_events)
       ++ [Log INFO (py "Found " ++ str_of_nat (length unique) ++ py " skill(s)")]
       ++ (if bool_decide (warning_count ≠ 0)
           then [Log INFO (py "Validation: " ++ str_of_nat warning_count
                           ++ py " warning(s)")]
           else [])) in
  main fs home timestamp args st
  = if args_list_skills args then
      list_skills unique st5 ≫= λ '(_, st'), Some (0, st')
    else if args_validate args then
      if bool_decide (warning_count ≠ 0)
      then Some (1, extend st5 [] [Print (validation_report warning_count)])
      else Some (0, extend st5 [] [Print ([LF] ++ py "All skills valid")])
    else if args_dry_run args then
      Some (0, extend st5 []
                 [Print ([LF] ++ py "--- Router content (dry run) ---");
                  Print content; Print (py "--- End ---")])
    else
      match apply_effects fs (build_trace fs timestamp args content) with
      | Some _ => Some (0, extend st5 [] (build_trace fs timestamp args content))
      | None => None
      end.
Proof.
  intros Hscan Hvalid Hnil unique records warning_count content st5.
  unfold main. cbv zeta. rewrite bind_run, log_run, bind_run, Hscan.
  rewrite bool_decide_eq_false_2 by done.
  rewrite bind_run, check_conflicts_run by done. fold unique.
  set (st2 := extend st1 [] (conflicts (objects st1) [] skills)).
  assert (Hvalid2 : valid_refs st2 unique).
  { apply valid_refs_extend.
    eapply valid_refs_sublist; [apply first_seen_sublist | done]. }
  rewrite bind_run, validate_skills_run by done.
  assert (Hobjs2 : objects st2 = objects st1) by apply objects_extend_nil.
  rewrite Hobjs2. fold records. fold warning_count.
  set (st3 := extend st2 [] (records ≫= warning_events)).
  rewrite bind_run, log_run, bind_run.
  assert (Hlog : (if bool_decide (warning_count ≠ 0)
                  then log INFO (py "Validation: " ++ str_of_nat warning_count
                                 ++ py " warning(s)")
                  else mret ())
                   (extend st3 [] [Log INFO (py "Found " ++ str_of_nat (length unique)
                                             ++ py " skill(s)")])
                 = Some (tt, st5)).
  { unfold st5, st3, st2. case_bool_decide.
    - by rewrite log_run, !extend_extend.
    - by rewrite ret_run, !extend_extend, app_nil_r. }
  rewrite Hlog.
  assert (Hvalid5 : valid_refs st5 unique).
  { unfold st5. apply valid_refs_extend.
    eapply valid_refs_sublist; [apply first_seen_sublist | done]. }
  assert (Hobjs5 : objects st5 = objects st1) by apply objects_extend_nil.
  destruct (args_list_skills args).
  { rewrite bind_run. destruct (list_skills unique st5) as [[[] st']|]; done. }
  destruct (args_validate args).
  { case_bool_decide; rewrite bind_run, print_run, ret_run; reflexivity. }
  rewrite bind_run, generate_router_content_run by done.
  rewrite Hobjs5. fold records. fold content.
  destruct (args_dry_run args).
  { by rewrite bind_run, print_run, bind_run, print_run, bind_run, print_run,
      ret_run, !extend_extend. }
  unfold build_trace. cbv zeta.
  set (router_dir := args_skills_dir args </> py "_router").
  set (router_file := router_dir </> py "SKILL.md").
  rewrite bind_run.
  destruct (args_backup args); cbn [andb]; cycle 1.
  { rewrite ret_run, app_nil_l. cbn [apply_effects apply_effect].
    rewrite bind_run, perform_run. cbn [apply_effect].
    destruct (mkdir_p router_dir fs) as [fs_made|]; [|done].
    cbn [fmap option_fmap option_map mbind option_bind].
    rewrite bind_run, perform_run. cbn [apply_effect].
    destruct (write_text router_file content fs_made) as [fs_written|]; [|done].
    cbn [fmap option_fmap option_map mbind option_bind].
    by rewrite bind_run, log_run, ret_run, !extend_extend. }
  unfold router_file at 1. rewrite bind_run, backup_router_SKILL.
  fold router_file.
  destruct (is_file fs router_file).
  - cbn [apply_effects apply_effect app].
    destruct (copy2 router_file (backup_file router_dir timestamp) fs)
      as [fs_copied|]; [|done].
    cbn [fmap option_fmap option_map mbind option_bind].
    rewrite ret_run. cbn [snd].
    rewrite bind_run, perform_run. cbn [apply_effect].
    destruct (mkdir_p router_dir fs_copied) as [fs_made|]; [|done].
    cbn [fmap option_fmap option_map mbind option_bind].
    rewrite bind_run, perform_run. cbn [apply_effect].
    destruct (write_text router_file content fs_made) as [fs_written|]; [|done].
    cbn [fmap option_fmap option_map mbind option_bind].
    by rewrite bind_run, log_run, ret_run, !extend_extend.
  - rewrite ret_run. cbn [snd app apply_effects apply_effect].
    rewrite bind_run, perform_run. cbn [apply_effect].
    destruct (mkdir_p router_dir fs) as [fs_made|]; [|done].
    cbn [fmap option_fmap option_map mbind option_bind].
    rewrite bind_run, perform_run. cbn [apply_effect].
    destruct (write_text router_file content fs_made) as [fs_written|]; [|done].
    cbn [fmap option_fmap option_map mbind option_bind].
    by rewrite bind_run, log_run, ret_run, !extend_extend.
Qed.

Lemma list_skills_quiet skills : quiet (list_skills skills).
Proof. unfold list_skills. cbv zeta. quiet_steps. Qed.

Lemma writes_fs_effects events : writes (fs_effects events) = writes events.
Proof.
  unfold writes, fs_effects. induction events as [|e events IH]; [done|].
  rewrite filter_cons.
  destruct (decide (is_fs_effect e = true)) as [He|He]; destruct e; try done;
    cbn [omap list_omap]; by rewrite IH.
Qed.

Lemma fs_effects_extend st found logged :
  fs_effects (trace (extend st found logged))
  = fs_effects (trace st) ++ fs_effects logged.
Proof. unfold extend. cbn [trace]. apply fs_effects_app. Qed.

Lemma fs_effects_warnings logged :
  Forall (λ e, ∃ msg, e = Log WARNING msg) logged → fs_effects logged = [].
Proof.
  induction 1 as [|e logged [msg ->] _ IH]; [done|].
  unfold fs_effects in *. by rewrite filter_cons_False.
Qed.

Lemma fs_effects_warning_events records :
  fs_effects (records ≫= warning_events) = [].
Proof.
  apply fs_effects_warnings, Forall_forall.
  intros e (s & He & _)%list_elem_of_bind. unfold warning_events in He.
  apply list_elem_of_fmap in He as (w & -> & _). by eexists.
Qed.

(** The scan that [main] runs, with what it leaves. *)
Lemma main_scan fs args st :
  ∃ skills st1,
    scan_skills fs (args_skills_dir args)
      (extend st [] [Log INFO (py "Scanning: " ++ path_str (args_skills_dir args))])
    = Some (skills, st1) ∧
    valid_refs st1 skills ∧
    fs_effects (trace st1) = fs_effects (trace st) ∧
    (skills = [] ↔ scan_records fs (args_skills_dir args) = []).
Proof.
  destruct (scan_skills_run fs (args_skills_dir args)
              (extend st [] [Log INFO (py "Scanning: "
                                       ++ path_str (args_skills_dir args))]))
    as (skills & st1 & Hscan & Happ).
  exists skills, st1. split; [done|]. split; [by eapply appended_valid|].
  split.
  - destruct (scan_skills_quiet _ _ _ _ _ Hscan) as (found & logged & -> & Hq).
    by rewrite !fs_effects_extend, Hq, !app_nil_r.
  - destruct Happ as (logged & -> & _). cbn [app].
    generalize (scan_records fs (args_skills_dir args)). intros [|s l]; [done|].
    split; intros H; discriminate H.
Qed.

Lemma main_reported_quiet objs skills records n m :
  fs_effects
    (conflicts objs [] skills
     ++ (records ≫= warning_events)
     ++ [Log INFO n]
     ++ (if bool_decide (m ≠ 0) then [Log INFO (py "Validation: " ++ str_of_nat m
                                                 ++ py " warning(s)")] else []))
  = [].
Proof.
  rewrite !fs_effects_app, (fs_effects_warnings (conflicts _ _ _))
    by apply conflicts_warnings.
  rewrite fs_effects_warning_events. by case_bool_decide.
Qed.

Lemma main_empty fs home timestamp args st st1 :
  scan_skills fs (args_skills_dir args)
    (extend st [] [Log INFO (py "Scanning: " ++ path_str (args_skills_dir args))])
  = Some ([], st1) →
  main fs home timestamp args st
  = Some (1, extend st1 [] [Log WARNING (py "No skills found")]).
Proof.
  intros Hscan. unfold main. cbv zeta.
  rewrite bind_run, log_run, bind_run, Hscan.
  by rewrite bool_decide_eq_true_2, bind_run, log_run, ret_run.
Qed.

(** ** The exit status *)










(** X9: with [--list], [--validate] or [--dry-run], and whenever the scan
    finds no record, a run returns without copying, creating or writing
    anything. *)
Theorem main_no_write fs home timestamp args st :
  args_list_skills args = true ∨ args_validate args = true ∨
  args_dry_run args = true ∨ scan_records fs (args_skills_dir args) = [] →
  ∃ code st',
    main fs home timestamp args st = Some (code, st') ∧
    fs_effects (trace st') = fs_effects (trace st).
Proof.
  intros Hmode.
  destruct (main_scan fs args st) as (skills & st1 & Hscan & Hvalid & Hfs & Hnil).
  destruct (decide (skills = [])) as [->|Hne].
  { rewrite (main_empty _ _ _ _ _ _ Hscan). eexists _, _. split; [done|].
    by rewrite fs_effects_extend, Hfs, app_nil_r. }
  rewrite (main_modes _ _ _ _ _ _ _ Hscan Hvalid Hne). cbv zeta.
  match goal with
  | |- context [list_skills ?unique ?st5] =>
      set (s5 := st5); set (u := unique);
      assert (H5 : fs_effects (trace s5) = fs_effects (trace st))
        by (unfold s5; rewrite fs_effects_extend, main_reported_quiet, app_nil_r;
            exact Hfs);
      assert (Hu : valid_refs s5 u)
        by (apply valid_refs_extend;
            eapply valid_refs_sublist; [apply first_seen_sublist | done])
  end.
  destruct (args_list_skills args).
  { destruct (list_skills_run s5 u Hu) as [printed Hprinted].
    destruct (list_skills_quiet _ _ _ _ Hprinted) as (found & logged & Hst & Hq).
    rewrite Hprinted. eexists _, _. split; [reflexivity|].
    by rewrite Hst, fs_effects_extend, Hq, app_nil_r. }
  destruct (args_validate args).
  { case_bool_decide; eexists _, _; (split; [done|]);
      by rewrite fs_effects_extend, app_nil_r. }
  destruct (args_dry_run args).
  { eexists _, _. split; [done|]. by rewrite fs_effects_extend, app_nil_r. }
  destruct Hmode as [?|[?|[?|Hempty]]]; try done.
  by apply Hnil in Hempty.
Qed.

Lemma main_no_write_witness :
  ∃ code st',
    main demo_fs demo_home [] (validate_only demo_root) st0 = Some (code, st') ∧
    fs_effects (trace st') = [].
Proof.
  apply (main_no_write demo_fs demo_home [] (validate_only demo_root) st0).
  right. left. reflexivity.
Defined.

Lemma write_text_resolve p content : ∀ fs fs',
  write_text p content fs = Some fs' → resolve fs' p = Some (File content).
Proof.
  induction p as [|c p IH]; intros [text|entries] fs' Hrun;
    cbn [write_text] in Hrun; try done.
  destruct (entries !! c) as [child|].
  - destruct (write_text p content child) as [child'|] eqn:Hchild; [|done].
    cbn [mbind option_bind] in Hrun. injection Hrun as <-.
    cbn [resolve]. rewrite lookup_insert_eq. by apply (IH child).
  - destruct p; [|done]. injection Hrun as <-.
    cbn [resolve]. by rewrite lookup_insert_eq.
Qed.

Lemma fs_effects_build_trace fs timestamp args content :
  fs_effects (build_trace fs timestamp args content)
  = (if args_backup args
        && is_file fs (args_skills_dir args </> py "_router" </> py "SKILL.md")
     then [Copy2 (args_skills_dir args </> py "_router" </> py "SKILL.md")
             (backup_file (args_skills_dir args </> py "_router") timestamp)]
     else [])
    ++ [Mkdir (args_skills_dir args </> py "_router");
        WriteText (args_skills_dir args </> py "_router" </> py "SKILL.md") content].
Proof.
  unfold build_trace. cbv zeta. rewrite fs_effects_app.
  by destruct (args_backup args && is_file fs _).
Qed.


Lemma backup_fs_found : scan_records backup_fs backup_root ≠ [].
Proof.
  assert (Hlen : length (scan_records backup_fs backup_root) = 1)
    by (vm_compute; reflexivity).
  intros Hnil. rewrite Hnil in Hlen. discriminate Hlen.
Qed.


Lemma scan_skills_missing fs skills_dir st :
  is_dir fs skills_dir = false →
  scan_skills fs skills_dir st
  = Some ([], extend st []
                [Log ERROR (py "Skills directory does not exist: "
                            ++ path_str skills_dir)]).
Proof.
  intros Hdir. unfold scan_skills. rewrite Hdir. cbn [negb]. cbv zeta.
  by rewrite bind_run, log_run, ret_run.
Qed.

(** X11: when the skills directory does not exist, or is not a directory,
    a run logs the error and the warning that nothing was found, returns
    1, and does nothing else, whatever the options. *)
Theorem main_missing_directory fs home timestamp args st :
  is_dir fs (args_skills_dir args) = false →
  main fs home timestamp args st
  = Some (1, extend st []
               [Log INFO (py "Scanning: " ++ path_str (args_skills_dir args));
                Log ERROR (py "Skills directory does not exist: "
                           ++ path_str (args_skills_dir args));
                Log WARNING (py "No skills found")]).
Proof.
  intros Hdir.
  pose proof (scan_skills_missing fs (args_skills_dir args)
                (extend st [] [Log INFO (py "Scanning: "
                                         ++ path_str (args_skills_dir args))])
                Hdir) as Hscan.
  rewrite (main_empty _ _ _ _ _ _ Hscan). by rewrite !extend_extend.
Qed.

Lemma main_missing_directory_witness :
  main demo_fs demo_home [] (build [py "home"; py "nobody"]) st0
  = Some (1, {| objects := [];
                trace := [Log INFO (py "Scanning: /home/nobody");
                          Log ERROR (py "Skills directory does not exist: /home/nobody");
                          Log WARNING (py "No skills found")] |}).
Proof.
  rewrite (main_missing_directory demo_fs demo_home []
             (build [py "home"; py "nobody"]) st0).
  - vm_compute. reflexivity.
  - vm_compute. reflexivity.
Defined.

(** X12: what [--dry-run] prints between its two marker lines is the text
    that the same run without [--dry-run] writes to the router file,
    whenever that run returns. *)
Theorem main_dry_run_preview fs home timestamp args st :
  args_list_skills args = false → args_validate args = false →
  scan_records fs (args_skills_dir args) ≠ [] →
  ∃ content st_dry before,
    main fs home timestamp (set_dry_run true args) st = Some (0, st_dry) ∧
    trace st_dry
    = before ++ [Print ([LF] ++ py "--- Router content (dry run) ---");
                 Print content; Print (py "--- End ---")] ∧
    ∀ code st_build,
      main fs home timestamp (set_dry_run false args) st = Some (code, st_build) →
      code = 0 ∧
      writes (trace st_build)
      = writes (trace st)
        ++ [(args_skills_dir args </> py "_router" </> py "SKILL.md", content)].
Proof.
  intros Hlist Hval Hfound.
  destruct (main_scan fs args st) as (skills & st1 & Hscan & Hvalid & Hfs & Hnil).
  assert (Hne : skills ≠ []) by (by rewrite Hnil).
  pose proof (main_modes fs home timestamp (set_dry_run true args) st skills st1
                Hscan Hvalid Hne) as Hdry.
  pose proof (main_modes fs home timestamp (set_dry_run false args) st skills st1
                Hscan Hvalid Hne) as Hbuild.
  cbv zeta in Hdry, Hbuild. cbn [set_dry_run args_list_skills args_validate
    args_dry_run args_backup args_skills_dir] in Hdry, Hbuild.
  rewrite Hlist, Hval in Hdry, Hbuild.
  set (content := router_text home
                    (deref (objects st1) (first_seen (objects st1) [] skills))) in *.
  match type of Hdry with
  | _ = Some (0, extend ?s5 [] _) => set (st5 := s5) in *
  end.
  exists content. eexists. exists (trace st5).
  split; [exact Hdry|]. split; [reflexivity|].
  intros code st_build Hrun. rewrite Hbuild in Hrun.
  destruct (apply_effects fs _) as [fs'|]; [|done].
  injection Hrun as <- <-. split; [done|].
  rewrite <- (writes_fs_effects (trace (extend _ _ _))), fs_effects_extend.
  unfold st5 at 1. rewrite fs_effects_extend, main_reported_quiet, app_nil_r, Hfs.
  unfold writes at 1. rewrite omap_app. fold (writes (fs_effects (trace st))).
  rewrite writes_fs_effects. f_equal.
  pose proof (fs_effects_build_trace fs timestamp (set_dry_run false args) content)
    as Heff.
  cbn [set_dry_run args_backup args_skills_dir] in Heff. rewrite Heff.
  by destruct (args_backup args && is_file fs _).
Qed.

Lemma main_dry_run_preview_witness :
  ∃ content st_dry before st_build,
    main backup_fs demo_home [] (set_dry_run true (build backup_root)) st0
    = Some (0, st_dry) ∧
    trace st_dry
    = before ++ [Print ([LF] ++ py "--- Router content (dry run) ---");
                 Print content; Print (py "--- End ---")] ∧
    main backup_fs demo_home [] (set_dry_run false (build backup_root)) st0
    = Some (0, st_build) ∧
    writes (trace st_build)
    = [(backup_root </> py "_router" </> py "SKILL.md", content)].
Proof.
  destruct (main_dry_run_preview backup_fs demo_home [] (build backup_root) st0
              eq_refl eq_refl backup_fs_found)
    as (content & st_dry & before & Hdry & Htrace & Hbuild).
  destruct (main backup_fs demo_home [] (set_dry_run false (build backup_root)) st0)
    as [[code st_build]|] eqn:Hmain.
  - destruct (Hbuild code st_build eq_refl) as [-> Hwrites].
    exists content, st_dry, before, st_build.
    split; [exact Hdry|]. split; [exact Htrace|]. split; [reflexivity|].
    exact Hwrites.
  - exfalso. clear -Hmain.
    assert (Hrun : is_Some (main backup_fs demo_home []
                              (set_dry_run false (build backup_root)) st0))
      by (vm_compute; eexists; reflexivity).
    rewrite Hmain in Hrun. by destruct Hrun.
Defined.

(** ** The order of the records of a scan *)

Lemma deref_seq (found : list Skill) : ∀ objs,
  deref (objs ++ found) (seq (length objs) (length found)) = found.
Proof.
  induction found as [|s found IH]; intros objs; [done|].
  cbn [length seq]. unfold deref in *. cbn [omap list_omap].
  rewrite list_lookup_middle by done. f_equal.
  specialize (IH (objs ++ [s])). rewrite length_app, <- app_assoc in IH.
  cbn [length app] in IH. by rewrite Nat.add_1_r in IH.
Qed.

Lemma locate_Some fs d s :
  locate fs d = Some s → path s = d ∧ is_file fs (d </> py "SKILL.md") = true.
Proof.
  unfold locate, is_file.
  destruct (resolve fs (d </> py "SKILL.md")) as [[content|?]|]; try done.
  by intros [= <-].
Qed.

Lemma locate_None fs d :
  locate fs d = None → is_file fs (d </> py "SKILL.md") = false.
Proof.
  unfold locate, is_file.
  by destruct (resolve fs (d </> py "SKILL.md")) as [[content|?]|].
Qed.

Lemma path_leb_diverge (d : Path) c1 c2 (r1 r2 : Path) :
  str_leb c1 c2 = true → c1 ≠ c2 →
  path_leb (d ++ c1 :: r1) (d ++ c2 :: r2) = true.
Proof.
  intros Hle Hne. unfold path_leb. induction d as [|x d IH]; simpl.
  - rewrite Hle. destruct (str_leb c2 c1) eqn:Hge; [|done].
    destruct Hne. by apply str_leb_antisym.
  - by rewrite (leb_refl str_leb str_leb_total).
Qed.

Lemma StronglySorted_bind {A B} (R : B → B → Prop) (R' : A → A → Prop)
    (f : A → list B) (l : list A) :
  StronglySorted R' l →
  (∀ x, x ∈ l → StronglySorted R (f x)) →
  (∀ x y a b, R' x y → a ∈ f x → b ∈ f y → R a b) →
  StronglySorted R (l ≫= f).
Proof.
  intros Hl Hf Hcross. revert Hf.
  induction Hl as [|x l Hl IH Hx]; intros Hf; [constructor|].
  cbn [mbind list_bind]. change (?a ++ list_bind _ _ f l) with (a ++ (l ≫= f)).
  apply StronglySorted_app_2.
  - intros a b Ha (y & Hb & Hy)%list_elem_of_bind.
    apply (Hcross x y); [|done..]. by eapply Forall_forall in Hx.
  - apply Hf. by left.
  - apply IH. intros y Hy. apply Hf. by right.
Qed.

Lemma StronglySorted_Forall {A} (R : A → A → Prop) (P : A → Prop) (l : list A) :
  StronglySorted R l → Forall P l →
  StronglySorted (λ x y, R x y ∧ P x ∧ P y) l.
Proof.
  induction 1 as [|x l Hl IH Hx]; intros HP; [constructor|].
  apply Forall_cons in HP as [Px HP]. constructor; [by apply IH|].
  rewrite Forall_forall in Hx, HP. apply Forall_forall. intros y Hy.
  split_and!; auto.
Qed.

Lemma StronglySorted_mono {A} (R1 R2 : A → A → Prop) (l : list A) :
  (∀ x y, R1 x y → R2 x y) → StronglySorted R1 l → StronglySorted R2 l.
Proof.
  intros HR. induction 1 as [|x l Hl IH Hx]; constructor; [done|].
  eapply Forall_impl; [exact Hx|]. auto.
Qed.

Lemma candidates_ordered fs d :
  StronglySorted
    (λ p q, ∃ a b, p = d </> a ∧ q = d </> b ∧ str_leb a b = true ∧ a ≠ b)
    (candidates fs d).
Proof.
  eapply StronglySorted_mono
    with (R1 := λ p q, (str_leb (path_name p) (path_name q) = true
                        ∧ path_name p ≠ path_name q)
                       ∧ (∃ a, p = d </> a) ∧ (∃ b, q = d </> b)).
  - intros p q ([Hle Hne] & [a ->] & [b ->]). rewrite !path_name_div in Hle, Hne.
    by exists a, b.
  - apply StronglySorted_Forall; [apply candidates_sorted|].
    apply Forall_forall. by intros p [? _]%elem_of_candidates.
Qed.

Lemma StronglySorted_omap {A B} (R : B → B → Prop) (R' : A → A → Prop)
    (f : A → option B) (l : list A) :
  StronglySorted R' l →
  (∀ x y a b, R' x y → f x = Some a → f y = Some b → R a b) →
  StronglySorted R (omap f l).
Proof.
  intros Hl Hcross. induction Hl as [|x l Hl IH Hx]; [constructor|].
  cbn [omap list_omap]. destruct (f x) as [a|] eqn:Ha; [|done].
  constructor; [done|]. apply Forall_forall.
  intros b (y & Hy & Hb)%list_elem_of_omap.
  apply (Hcross x y); [|done..]. by eapply Forall_forall in Hx.
Qed.

Lemma elem_of_group_records fs child s :
  s ∈ group_records fs child →
  is_file fs (path s </> py "SKILL.md") = true ∧
  (path s = child ∨
   ∃ c, path s = child </> c ∧ should_ignore (child </> c) = false ∧
        is_file fs (child </> py "SKILL.md") = false).
Proof.
  unfold group_records. destruct (locate fs child) as [s'|] eqn:Hloc.
  - intros ->%list_elem_of_singleton. apply locate_Some in Hloc as [-> ?].
    split; [done|]. by left.
  - intros (p & Hp & Hs)%list_elem_of_omap.
    apply elem_of_candidates in Hp as ([c ->] & _ & Hign).
    apply locate_Some in Hs as [-> ?]. split; [done|]. right.
    exists c. split_and!; [done..|]. by apply locate_None.
Qed.

Lemma should_ignore_name (p : Path) c : should_ignore (p </> c) = should_ignore [c].
Proof.
  unfold should_ignore. rewrite path_name_div.
  by change (path_name [c]) with c.
Qed.

Lemma scan_records_sorted fs root :
  StronglySorted (λ a b, path_leb (path a) (path b) = true ∧ path a ≠ path b)
    (scan_records fs root).
Proof.
  unfold scan_records. destruct (is_dir fs root); [|constructor].
  change (candidates fs root ≫= _) with (candidates fs root ≫= group_records fs).
  eapply StronglySorted_bind; [apply candidates_ordered| |].
  - intros child _. unfold group_records.
    destruct (locate fs child) as [s|]; [repeat constructor|].
    eapply StronglySorted_omap; [apply candidates_ordered|].
    intros x y a b (cx & cy & -> & -> & Hle & Hne) [Ha _]%locate_Some
      [Hb _]%locate_Some.
    rewrite Ha, Hb. unfold path_div. split.
    + by apply path_leb_diverge.
    + intros [= ?]%app_inv_head. done.
  - intros x y a b (cx & cy & -> & -> & Hle & Hne)
      [_ Ha]%elem_of_group_records [_ Hb]%elem_of_group_records.
    assert (∃ ra rb, path a = root ++ cx :: ra ∧ path b = root ++ cy :: rb)
      as (ra & rb & -> & ->).
    { unfold path_div in *.
      destruct Ha as [->|(c & -> & _)], Hb as [->|(c' & -> & _)];
        rewrite <- ?app_assoc; by eexists _, _. }
    split.
    + by apply path_leb_diverge.
    + intros [= ?]%app_inv_head. done.
Qed.

Lemma scan_skills_records fs root st :
  ∃ skills st',
    scan_skills fs root st = Some (skills, st') ∧
    skills = seq (length (objects st)) (length (scan_records fs root)) ∧
    objects st' = objects st ++ scan_records fs root ∧
    deref (objects st') skills = scan_records fs root.
Proof.
  destruct (scan_skills_run fs root st) as (skills & st' & Hrun & logged & -> & ->).
  eexists _, _. split; [exact Hrun|]. split; [done|]. split; [done|].
  unfold extend. cbn [objects app]. apply deref_seq.
Qed.

Lemma elem_of_scan_records fs root s :
  s ∈ scan_records fs root →
  is_file fs (path s </> py "SKILL.md") = true ∧
  ((∃ c, path s = root </> c ∧ should_ignore [c] = false) ∨
   (∃ c d, path s = root </> c </> d ∧
           should_ignore [c] = false ∧ should_ignore [d] = false ∧
           is_file fs (root </> c </> py "SKILL.md") = false)).
Proof.
  unfold scan_records. destruct (is_dir fs root); [|by intros ?%elem_of_nil].
  intros (child & Hs & Hchild)%list_elem_of_bind.
  apply elem_of_candidates in Hchild as ([c ->] & _ & Hc).
  rewrite should_ignore_name in Hc.
  apply (elem_of_group_records fs (root </> c) s) in Hs as [Hfile Hs].
  split; [done|]. destruct Hs as [->|(d & -> & Hd & Hnot)].
  - left. by exists c.
  - right. exists c, d. rewrite should_ignore_name in Hd. done.
Qed.

(** X13: every record of a scan lies one or two levels below the root, in
    a directory that holds a descriptor and of which no component below the
    root is ignored; a record two levels below lies in a directory without
    a descriptor. The records come in strictly increasing order of their
    paths. *)
Theorem scan_skills_paths fs root st :
  ∃ skills st',
    scan_skills fs root st = Some (skills, st') ∧
    (∀ s, s ∈ deref (objects st') skills →
       is_file fs (path s </> py "SKILL.md") = true ∧
       ((∃ c, path s = root </> c ∧ should_ignore [c] = false) ∨
        (∃ c d, path s = root </> c </> d ∧
                should_ignore [c] = false ∧ should_ignore [d] = false ∧
                is_file fs (root </> c </> py "SKILL.md") = false))) ∧
    StronglySorted (λ a b, path_leb (path a) (path b) = true ∧ path a ≠ path b)
      (deref (objects st') skills).
Proof.
  destruct (scan_skills_records fs root st) as (skills & st' & Hrun & _ & _ & Hrec).
  exists skills, st'. split; [exact Hrun|]. rewrite Hrec. split.
  - intros s. apply elem_of_scan_records.
  - apply scan_records_sorted.
Qed.

(** ** The record that wins a conflict *)

Lemma first_seen_earliest objs skills : ∀ earlier i j r' r,
  NoDup skills →
  skills !! i = Some r' → skills !! j = Some r → i < j →
  r ∈ first_seen objs earlier skills →
  name_of objs r' ≠ name_of objs r.
Proof.
  induction skills as [|x skills IH]; intros earlier i j r' r Hnodup Hi Hj Hlt Hr;
    [done|].
  apply NoDup_cons in Hnodup as [Hx Hnodup].
  destruct j as [|j]; [lia|]. cbn [lookup list_lookup] in Hj.
  assert (Hrx : r ≠ x).
  { intros ->. apply Hx. by eapply list_elem_of_lookup_2. }
  cbn [first_seen] in Hr. apply elem_of_app in Hr as [Hr|Hr].
  { destruct (decide _); [by apply elem_of_nil in Hr|].
    by apply list_elem_of_singleton in Hr. }
  destruct i as [|i].
  - injection Hi as ->. apply first_seen_fresh in Hr.
    intros Heq. apply Hr. rewrite <- Heq, fmap_app.
    apply elem_of_app. right. by left.
  - cbn [lookup list_lookup] in Hi.
    apply (IH (earlier ++ [x]) i j); [done..|lia|done].
Qed.

Lemma StronglySorted_lookup {A} (R : A → A → Prop) (l : list A) : ∀ i j a b,
  StronglySorted R l → l !! i = Some a → l !! j = Some b → i < j → R a b.
Proof.
  induction l as [|x l IH]; intros i j a b Hl Hi Hj Hlt; [done|].
  apply StronglySorted_inv in Hl as [Hl Hx].
  destruct j as [|j]; [lia|]. cbn [lookup list_lookup] in Hj.
  destruct i as [|i].
  - injection Hi as ->. eapply Forall_forall in Hx; [done|].
    by eapply list_elem_of_lookup_2.
  - cbn [lookup list_lookup] in Hi. apply (IH i j); [done..|lia].
Qed.

(** X14: of the records of a scan that share a name, deduplication keeps
    the one whose path comes first. *)
Theorem first_wins_least_path fs root st :
  ∃ skills st1 unique st2,
    scan_skills fs root st = Some (skills, st1) ∧
    check_conflicts skills st1 = Some (unique, st2) ∧
    ∀ kept other,
      kept ∈ deref (objects st1) unique →
      other ∈ deref (objects st1) skills →
      name other = name kept →
      path_leb (path kept) (path other) = true.
Proof.
  destruct (scan_skills_records fs root st)
    as (skills & st1 & Hrun & Hskills & Hobjs & Hrecords).
  assert (Hvalid : valid_refs st1 skills).
  { rewrite Hskills. apply Forall_forall. intros r Hr%elem_of_seq.
    apply lookup_lt_is_Some. rewrite Hobjs, length_app. lia. }
  exists skills, st1. eexists _, _. split; [exact Hrun|].
  split; [by apply check_conflicts_run|].
  intros kept other Hkept Hother Hname.
  apply list_elem_of_omap in Hkept as (r & Hr & Hkept).
  assert (Hrs : r ∈ skills).
  { eapply elem_of_sublist; [exact Hr | apply first_seen_sublist]. }
  apply list_elem_of_lookup in Hrs as [j Hj].
  rewrite Hrecords in Hother. apply list_elem_of_lookup in Hother as [i Hi].
  assert (Hbound : ∀ k x, skills !! k = Some x →
            x = length (objects st) + k ∧
            objects st1 !! x = scan_records fs root !! k).
  { intros k x Hk. rewrite Hskills in Hk. apply lookup_seq in Hk as [-> Hlt].
    split; [done|]. rewrite Hobjs, lookup_app_r by lia. f_equal. lia. }
  destruct (Hbound _ _ Hj) as [-> Hj'].
  rewrite Hkept in Hj'. symmetry in Hj'.
  destruct (lt_eq_lt_dec i j) as [[Hlt| ->]|Hlt].
  - exfalso.
    assert (Hi' : skills !! i = Some (length (objects st) + i)).
    { rewrite Hskills. apply lookup_seq. split; [done|].
      by apply lookup_lt_Some in Hi. }
    destruct (Hbound _ _ Hi') as [_ Hoi]. rewrite Hi in Hoi.
    eapply (first_seen_earliest (objects st1) skills [] i j); [|done..|].
    + rewrite Hskills. apply NoDup_seq.
    + unfold name_of. rewrite Hoi, Hkept. cbn [fmap option_fmap option_map].
      by rewrite Hname.
  - rewrite Hi in Hj'. injection Hj' as ->.
    apply (leb_refl path_leb path_leb_total).
  - pose proof (StronglySorted_lookup _ _ j i kept other
                  (scan_records_sorted fs root) Hj' Hi Hlt) as [Hle _].
    exact Hle.
Qed.

(** ** What the scan does not see *)

Lemma for_each_filter {A S} (P : A → Prop) `{∀ x, Decision (P x)}
    (body : A → S → Py S) (l : list A) :
  (∀ x s st, x ∈ l → ¬ P x → body x s st = Some (s, st)) →
  ∀ s st, for_each l body s st = for_each (filter P l) body s st.
Proof.
  induction l as [|x l IH]; intros Hskip s st; [done|].
  rewrite filter_cons. destruct (decide (P x)) as [Hx|Hx].
  - rewrite !for_each_cons. destruct (body x s st) as [[s' st']|]; [|done].
    apply IH. intros y ? ? Hy. apply Hskip. by right.
  - rewrite for_each_cons, Hskip by (done || by left).
    apply IH. intros y ? ? Hy. apply Hskip. by right.
Qed.

Lemma StronglySorted_filter {A} (R : A → A → Prop) (P : A → Prop)
    `{∀ x, Decision (P x)} (l : list A) :
  StronglySorted R l → StronglySorted R (filter P l).
Proof.
  induction 1 as [|x l Hl IH Hx]; [constructor|].
  rewrite filter_cons. destruct (decide (P x)); [|done].
  constructor; [done|]. apply Forall_forall.
  intros y [_ Hy]%list_elem_of_filter. by eapply Forall_forall in Hx.
Qed.

Lemma filter_sorted_eq (P : Path → Prop) `{∀ x, Decision (P x)} (l1 l2 : list Path) :
  NoDup l1 → NoDup l2 →
  (∀ p, p ∈ l1 ∧ P p ↔ p ∈ l2 ∧ P p) →
  filter P (sorted path_leb id l1) = filter P (sorted path_leb id l2).
Proof.
  intros Hl1 Hl2 Hiff.
  apply (StronglySorted_unique_strong (λ p q, path_leb p q = true)).
  - intros p q _ _. apply seq_leb_antisym, str_leb_antisym.
  - apply StronglySorted_filter.
    apply (sorted_StronglySorted path_leb id);
      [apply path_leb_total | apply path_leb_trans].
  - apply StronglySorted_filter.
    apply (sorted_StronglySorted path_leb id);
      [apply path_leb_total | apply path_leb_trans].
  - apply NoDup_Permutation.
    + apply NoDup_filter. by rewrite sorted_Permutation.
    + apply NoDup_filter. by rewrite sorted_Permutation.
    + intros p. rewrite !list_elem_of_filter, !sorted_Permutation.
      specialize (Hiff p). tauto.
Qed.

Lemma is_Some_shape fs p : is_Some (resolve fs p) ↔ is_Some (shape fs p).
Proof. unfold shape. rewrite fmap_is_Some. done. Qed.

Lemma visible_nil : visible [].
Proof. split; [simpl; lia|]. by intros c ?%elem_of_nil. Qed.

Lemma visible_1 c : should_ignore [c] = false → visible [c].
Proof.
  intros Hc. split; [simpl; lia|].
  intros c' [->|?%elem_of_nil]%elem_of_cons; done.
Qed.

Lemma visible_2 c d :
  should_ignore [c] = false → should_ignore [d] = false → visible [c; d].
Proof.
  intros Hc Hd. split; [simpl; lia|].
  intros c' [->|[->|?%elem_of_nil]%elem_of_cons]%elem_of_cons; done.
Qed.

Lemma visible_3 c d e :
  should_ignore [c] = false → should_ignore [d] = false → visible [c; d; e].
Proof.
  intros Hc Hd. split; [simpl; lia|].
  intros c' [->|[->|?%elem_of_nil]%elem_of_cons]%elem_of_cons; done.
Qed.

Lemma visible_children root fs1 fs2 rel p :
  same_visible root fs1 fs2 → visible rel →
  (∀ c, visible (rel ++ [c]) ↔ should_ignore [c] = false) →
  p ∈ children fs1 (root ++ rel) ∧ should_ignore p = false ↔
  p ∈ children fs2 (root ++ rel) ∧ should_ignore p = false.
Proof.
  intros Hsame Hrel Hnext.
  assert (Hdir : is_dir fs1 (root ++ rel) = is_dir fs2 (root ++ rel))
    by (by rewrite !is_dir_shape, Hsame).
  rewrite !elem_of_children, Hdir.
  split; intros [(c & -> & Hd & Hc) Hign]; (split; [|done]);
    exists c; (split_and!; [done..|]);
    rewrite should_ignore_name in Hign; apply Hnext in Hign;
    apply is_Some_shape; apply is_Some_shape in Hc;
    unfold path_div in *; rewrite <- app_assoc in *.
  - by rewrite <- Hsame.
  - by rewrite Hsame.
Qed.

Lemma helper_visible h :
  h ∈ py "SKILL.md" :: helper_names → should_ignore [h] = false.
Proof.
  intros Hh. repeat (apply elem_of_cons in Hh as [->|Hh]; [by vm_compute|]).
  by apply elem_of_nil in Hh.
Qed.

Lemma visible_locate root fs1 fs2 rel :
  same_visible root fs1 fs2 →
  (∀ h, h ∈ py "SKILL.md" :: helper_names → visible (rel ++ [h])) →
  locate fs1 (root ++ rel) = locate fs2 (root ++ rel).
Proof.
  intros Hsame Hrel.
  assert (Hsub : ∀ h, h ∈ py "SKILL.md" :: helper_names →
            shape fs1 ((root ++ rel) </> h) = shape fs2 ((root ++ rel) </> h)).
  { intros h Hh. unfold path_div. rewrite <- !app_assoc. by apply Hsame, Hrel. }
  assert (Hrec : ∀ content, located_skill fs1 (root ++ rel) content
                            = located_skill fs2 (root ++ rel) content).
  { intros content. unfold located_skill. f_equal.
    unfold helper_names. rewrite !filter_cons, !filter_nil.
    rewrite !is_dir_shape, !Hsub; [done|unfold helper_names..].
    - do 3 right. by left.
    - do 2 right. by left.
    - right. by left. }
  unfold locate.
  pose proof (Hsub (py "SKILL.md") ltac:(by left)) as Hs. unfold shape in Hs.
  destruct (resolve fs1 ((root ++ rel) </> py "SKILL.md")) as [[content|?]|];
    destruct (resolve fs2 ((root ++ rel) </> py "SKILL.md")) as [[content'|?]|];
    simpl in Hs; try done.
  injection Hs as ->. by rewrite Hrec.
Qed.

Lemma skip_ignored fs (p : Path) {S} (skills : S) (k : Py S) st :
  ¬ should_ignore p = false →
  (if negb (is_dir fs p) || should_ignore p then mret skills else k) st
  = Some (skills, st).
Proof.
  intros Hp. destruct (should_ignore p); [|done]. by rewrite orb_true_r.
Qed.

Lemma scan_skills_visible fs1 fs2 root st :
  same_visible root fs1 fs2 →
  scan_skills fs1 root st = scan_skills fs2 root st.
Proof.
  intros Hsame.
  assert (Hroot : is_dir fs1 root = is_dir fs2 root).
  { rewrite !is_dir_shape, <- (app_nil_r root). by rewrite (Hsame [] visible_nil). }
  unfold scan_skills. rewrite Hroot.
  destruct (is_dir fs2 root) eqn:Hdir; cbn [negb]; [|done].
  rewrite !bind_run, !iterdir_run by congruence.
  rewrite (for_each_filter (λ p, should_ignore p = false));
    [|intros; by apply skip_ignored].
  symmetry.
  rewrite (for_each_filter (λ p, should_ignore p = false));
    [|intros; by apply skip_ignored].
  symmetry.
  assert (Hitems :
            filter (λ p, should_ignore p = false) (sorted path_leb id (children fs1 root))
            = filter (λ p, should_ignore p = false)
                (sorted path_leb id (children fs2 root))).
  { apply filter_sorted_eq; [apply NoDup_children..|]. intros p.
    rewrite <- (app_nil_r root).
    apply (visible_children root fs1 fs2 []); [done|apply visible_nil|].
    intros c. cbn [app]. split; [|apply visible_1].
    intros [_ Hc]. apply Hc. by left. }
  rewrite Hitems.
  apply for_each_ext. intros item skills st1 Hitem.
  apply list_elem_of_filter in Hitem as [Hign Hitem].
  rewrite sorted_Permutation in Hitem.
  apply elem_of_children in Hitem as (c & -> & _).
  rewrite should_ignore_name in Hign.
  assert (Hc : is_dir fs1 (root </> c) = is_dir fs2 (root </> c)).
  { rewrite !is_dir_shape. unfold path_div. by rewrite (Hsame [c] (visible_1 c Hign)). }
  assert (Hloc : locate fs1 (root </> c) = locate fs2 (root </> c)).
  { apply (visible_locate root fs1 fs2 [c]); [done|].
    intros h Hh%helper_visible. by apply visible_2. }
  rewrite Hc.
  destruct (negb (is_dir fs2 (root </> c)) || should_ignore (root </> c)) eqn:Hskip;
    [done|].
  apply skip_false in Hskip as [Hcdir _].
  rewrite !bind_run, !find_skill_in_dir_run, Hloc.
  destruct (locate fs2 (root </> c)) as [s|]; [done|].
  rewrite !bind_run, !log_run, !bind_run, !iterdir_run by congruence.
  rewrite (for_each_filter (λ p, should_ignore p = false));
    [|intros; by apply skip_ignored].
  symmetry.
  rewrite (for_each_filter (λ p, should_ignore p = false));
    [|intros; by apply skip_ignored].
  symmetry.
  assert (Hsubitems :
            filter (λ p, should_ignore p = false)
              (sorted path_leb id (children fs1 (root </> c)))
            = filter (λ p, should_ignore p = false)
                (sorted path_leb id (children fs2 (root </> c)))).
  { apply filter_sorted_eq; [apply NoDup_children..|]. intros p.
    apply (visible_children root fs1 fs2 [c]); [done|by apply visible_1|].
    intros d. cbn [app]. split; [|by apply visible_2].
    intros [_ Hd]. apply Hd. right. by left. }
  rewrite Hsubitems.
  apply for_each_ext. intros subitem skills' st2 Hsubitem.
  apply list_elem_of_filter in Hsubitem as [Hign' Hsubitem].
  rewrite sorted_Permutation in Hsubitem.
  apply elem_of_children in Hsubitem as (d & -> & _).
  rewrite should_ignore_name in Hign'.
  assert (Hd : is_dir fs1 (root </> c </> d) = is_dir fs2 (root </> c </> d)).
  { rewrite !is_dir_shape. unfold path_div. rewrite <- !app_assoc. cbn [app].
    by rewrite (Hsame [c; d] (visible_2 c d Hign Hign')). }
  assert (Hloc' : locate fs1 (root </> c </> d) = locate fs2 (root </> c </> d)).
  { unfold path_div. rewrite <- !app_assoc. cbn [app].
    apply (visible_locate root fs1 fs2 [c; d]); [done|].
    intros h _. by apply visible_3. }
  rewrite Hd.
  destruct (negb (is_dir fs2 (root </> c </> d)) || should_ignore (root </> c </> d));
    [done|].
  by rewrite !bind_run, !find_skill_in_dir_run, Hloc'.
Qed.

Lemma shape_put_here d c new : ∀ fs,
  is_dir fs d = true → shape (put d c new fs) d = Some None.
Proof.
  induction d as [|x d IH]; intros [?|entries] Hdir; try done.
  unfold is_dir in Hdir. unfold shape. simpl in *.
  destruct (entries !! x) as [child|] eqn:Hx; [|done]. simpl in *.
  rewrite lookup_insert_eq. simpl. apply IH.
  unfold is_dir. by destruct (resolve child d) as [[?|?]|].
Qed.

Lemma resolve_put_other d c new c' rel : ∀ fs,
  c' ≠ c → resolve (put d c new fs) (d ++ c' :: rel) = resolve fs (d ++ c' :: rel).
Proof.
  induction d as [|x d IH]; intros [?|entries] Hne; try done.
  - simpl. by rewrite lookup_insert_ne.
  - simpl. destruct (entries !! x) as [child|] eqn:Hx; simpl.
    + rewrite lookup_insert_eq. simpl. by apply IH.
    + by rewrite Hx.
Qed.

Lemma same_visible_put fs root c new :
  is_dir fs root = true → should_ignore [c] = true →
  same_visible root fs (put root c new fs).
Proof.
  intros Hdir Hc [|c' rel] [_ Hvis].
  - rewrite app_nil_r, shape_put_here by done.
    rewrite is_dir_shape in Hdir. by apply bool_decide_eq_true in Hdir.
  - unfold shape. rewrite resolve_put_other; [done|].
    intros ->. rewrite Hvis in Hc; [done|]. by left.
Qed.

Lemma same_visible_refl root fs : same_visible root fs fs.
Proof. by intros rel _. Qed.

Lemma same_visible_trans root fs1 fs2 fs3 :
  same_visible root fs1 fs2 → same_visible root fs2 fs3 → same_visible root fs1 fs3.
Proof. intros H12 H23 rel Hrel. by rewrite H12, H23. Qed.

(** X15: the scan does not depend on what an ignored directory of the
    first or second level is or holds: two file systems that agree at every
    path of at most three levels below the root whose first two components
    are not ignored give the same records, the same list and the same
    log. *)
Theorem scan_skills_ignores fs1 fs2 root st :
  same_visible root fs1 fs2 →
  scan_skills fs1 root st = scan_skills fs2 root st.
Proof. apply scan_skills_visible. Qed.

Lemma scan_skills_ignores_witness :
  scan_skills demo_fs demo_root st0
  = scan_skills
      (put demo_root (py "_router")
         (Dir {[ py "SKILL.md" := File (py "---
name: router
---") ]}) demo_fs)
      demo_root st0.
Proof.
  apply scan_skills_ignores, same_visible_put; vm_compute; reflexivity.
Defined.

(** ** The file system after a run *)

Lemma is_dir_cons entries x d :
  is_dir (Dir entries) (x :: d) = true →
  ∃ child, entries !! x = Some child ∧ is_dir child d = true.
Proof.
  unfold is_dir. simpl. destruct (entries !! x) as [child|]; [|done].
  simpl. intros H. by exists child.
Qed.

Lemma mkdir_p_put d c rest : ∀ fs fs',
  is_dir fs d = true → mkdir_p (d ++ c :: rest) fs = Some fs' →
  ∃ new, fs' = put d c new fs.
Proof.
  induction d as [|x d IH]; intros [?|entries] fs' Hdir Hrun; try done.
  - simpl in Hrun.
    destruct (mkdir_p rest (default (Dir ∅) (entries !! c))) as [child|]; [|done].
    injection Hrun as <-. by exists child.
  - apply is_dir_cons in Hdir as (child & Hx & Hdir).
    simpl in Hrun. rewrite Hx in Hrun. simpl in Hrun.
    destruct (mkdir_p (d ++ c :: rest) child) as [child'|] eqn:Hchild; [|done].
    injection Hrun as <-. destruct (IH _ _ Hdir Hchild) as [new ->].
    exists new. simpl. by rewrite Hx.
Qed.

Lemma write_text_put d c rest content : ∀ fs fs',
  is_dir fs d = true → write_text (d ++ c :: rest) content fs = Some fs' →
  ∃ new, fs' = put d c new fs.
Proof.
  induction d as [|x d IH]; intros [?|entries] fs' Hdir Hrun; try done.
  - simpl in Hrun. destruct (entries !! c) as [child|].
    + destruct (write_text rest content child) as [child'|]; [|done].
      injection Hrun as <-. by eexists.
    + destruct rest; [|done]. injection Hrun as <-. by eexists.
  - apply is_dir_cons in Hdir as (child & Hx & Hdir).
    simpl in Hrun. rewrite Hx in Hrun.
    destruct (write_text (d ++ c :: rest) content child) as [child'|] eqn:Hchild;
      [|done].
    injection Hrun as <-. destruct (IH _ _ Hdir Hchild) as [new ->].
    exists new. simpl. by rewrite Hx.
Qed.

Lemma is_dir_put d c new fs : is_dir fs d = true → is_dir (put d c new fs) d = true.
Proof.
  intros Hdir. rewrite is_dir_shape, shape_put_here by done.
  by apply bool_decide_eq_true.
Qed.

Lemma put_put d c new1 new2 : ∀ fs, put d c new2 (put d c new1 fs) = put d c new2 fs.
Proof.
  induction d as [|x d IH]; intros [?|entries]; try done.
  - simpl. by rewrite insert_insert_eq.
  - simpl. destruct (entries !! x) as [child|] eqn:Hx; simpl.
    + by rewrite lookup_insert_eq, insert_insert_eq, IH.
    + by rewrite Hx.
Qed.

Lemma apply_effect_put d c e fs fs' :
  is_dir fs d = true → inside d c e → apply_effect fs e = Some fs' →
  fs' = fs ∨ ∃ new, fs' = put d c new fs.
Proof.
  intros Hdir Hin Hrun. destruct e as [| |src dst|p|p content]; simpl in *.
  - left. congruence.
  - left. congruence.
  - right. destruct Hin as [rest ->]. unfold copy2 in Hrun.
    destruct (resolve fs src) as [[content|?]|]; try done.
    case_bool_decide; [done|].
    destruct (is_dir fs (d ++ c :: rest)).
    + unfold path_div in Hrun. rewrite <- app_assoc in Hrun.
      by eapply write_text_put.
    + by eapply write_text_put.
  - right. destruct Hin as [rest ->]. by eapply mkdir_p_put.
  - right. destruct Hin as [rest ->]. by eapply write_text_put.
Qed.

Lemma apply_effects_put d c events : ∀ fs fs',
  is_dir fs d = true → Forall (inside d c) events →
  apply_effects fs events = Some fs' →
  fs' = fs ∨ ∃ new, fs' = put d c new fs.
Proof.
  induction events as [|e events IH]; intros fs fs' Hdir Hin Hrun.
  - left. simpl in Hrun. congruence.
  - apply Forall_cons in Hin as [He Hin]. simpl in Hrun.
    destruct (apply_effect fs e) as [fs1|] eqn:H1; [|done]. simpl in Hrun.
    destruct (apply_effect_put _ _ _ _ _ Hdir He H1) as [->|[new ->]].
    + by apply IH.
    + destruct (IH _ _ (is_dir_put _ _ _ _ Hdir) Hin Hrun) as [->|[new' ->]].
      * right. by exists new.
      * right. exists new'. apply put_put.
Qed.

Lemma quiet_inside d c events : fs_effects events = [] → Forall (inside d c) events.
Proof.
  unfold fs_effects. induction events as [|e events IH]; [constructor|].
  rewrite filter_cons. destruct (decide (is_fs_effect e = true)) as [He|He]; [done|].
  intros H. constructor; [by destruct e | auto].
Qed.

Lemma apply_effects_quiet fs events :
  fs_effects events = [] → apply_effects fs events = Some fs.
Proof.
  unfold fs_effects. induction events as [|e events IH]; [done|].
  rewrite filter_cons. destruct (decide (is_fs_effect e = true)) as [He|He]; [done|].
  intros H. cbn [apply_effects]. destruct e; try done; by apply IH.
Qed.

Lemma router_ignored : should_ignore [py "_router"] = true.
Proof. vm_compute. reflexivity. Qed.

Lemma mkdir_p_is_dir d : ∀ fs, is_dir fs d = true → mkdir_p d fs = Some fs.
Proof.
  induction d as [|x d IH]; intros [text|entries] Hdir; try done.
  apply is_dir_cons in Hdir as (child & Hx & Hdir).
  cbn [mkdir_p]. rewrite Hx.
  change (default (Dir ∅) (Some child)) with child. rewrite (IH child Hdir).
  cbn [mbind option_bind]. by rewrite insert_id.
Qed.

Lemma write_text_parent d c content : ∀ fs fs',
  write_text (d ++ [c]) content fs = Some fs' → is_dir fs' d = true.
Proof.
  induction d as [|x d IH]; intros [text|entries] fs' Hrun;
    cbn [app write_text] in Hrun; try done.
  - destruct (entries !! c) as [[text'|sub]|]; simpl in Hrun; try done;
      by injection Hrun as <-.
  - destruct (entries !! x) as [child|].
    + destruct (write_text (d ++ [c]) content child) as [child'|] eqn:Hchild;
        simpl in Hrun; [|done].
      injection Hrun as <-.
      unfold is_dir. cbn [resolve]. rewrite lookup_insert_eq.
      apply (IH child child' Hchild).
    + by destruct (d ++ [c]) eqn:Hd; [destruct d|].
Qed.

Lemma write_text_over p content : ∀ fs text,
  resolve fs p = Some (File text) → is_Some (write_text p content fs).
Proof.
  induction p as [|c p IH]; intros [text'|entries] text Hfile; try done.
  cbn [resolve] in Hfile. cbn [write_text].
  destruct (entries !! c) as [child|]; [|done]. cbn [mbind option_bind] in Hfile.
  destruct (IH child text Hfile) as [child' ->]. by eexists.
Qed.

Lemma write_text_new d c content : ∀ fs,
  is_dir fs d = true → resolve fs (d ++ [c]) = None →
  ∃ fs', write_text (d ++ [c]) content fs = Some fs' ∧
         ∀ c', c' ≠ c → resolve fs' (d ++ [c']) = resolve fs (d ++ [c']).
Proof.
  induction d as [|x d IH]; intros [text|entries] Hdir Hfree; try done.
  - cbn [app resolve] in Hfree. cbn [app write_text].
    destruct (entries !! c) as [child|] eqn:Hc; [done|].
    eexists. split; [reflexivity|]. intros c' Hc'.
    cbn [app resolve]. by rewrite lookup_insert_ne.
  - apply is_dir_cons in Hdir as (child & Hx & Hdir).
    rewrite <- app_comm_cons in Hfree. cbn [resolve] in Hfree.
    rewrite Hx in Hfree. cbn [mbind option_bind] in Hfree.
    destruct (IH child Hdir Hfree) as (child' & Hchild & Hother).
    exists (Dir (<[x := child']> entries)). split.
    + rewrite <- app_comm_cons. cbn [write_text]. by rewrite Hx, Hchild.
    + intros c' Hc'. rewrite <- app_comm_cons. cbn [resolve].
      rewrite lookup_insert_eq, Hx. cbn [mbind option_bind]. by apply Hother.
Qed.

(** The file system after a build holds the index in the router file. *)
Lemma build_trace_written fs timestamp args content fs' :
  apply_effects fs (build_trace fs timestamp args content) = Some fs' →
  resolve fs' (args_skills_dir args </> py "_router" </> py "SKILL.md")
  = Some (File content) ∧
  is_dir fs' (args_skills_dir args </> py "_router") = true.
Proof.
  unfold build_trace. cbv zeta. rewrite apply_effects_app.
  destruct (apply_effects fs _) as [fs_backed|]; [|done].
  cbn [mbind option_bind apply_effects apply_effect].
  destruct (mkdir_p _ fs_backed) as [fs_made|]; [|done]. cbn [mbind option_bind].
  destruct (write_text _ content fs_made) as [fs_written|] eqn:Hwritten; [|done].
  cbn [mbind option_bind]. intros [= <-]. split.
  - by eapply write_text_resolve.
  - by eapply (write_text_parent (args_skills_dir args </> py "_router")
                 (py "SKILL.md")).
Qed.

(** On such a file system a further build is accepted, when it makes no
    backup or the name of the backup is free. *)
Lemma build_trace_again fs timestamp args content :
  resolve fs (args_skills_dir args </> py "_router" </> py "SKILL.md")
  = Some (File content) →
  is_dir fs (args_skills_dir args </> py "_router") = true →
  args_backup args = false
  ∨ resolve fs (backup_file (args_skills_dir args </> py "_router") timestamp) = None →
  is_Some (apply_effects fs (build_trace fs timestamp args content)).
Proof.
  intros Hfile Hdir Hfree. unfold build_trace. cbv zeta.
  set (router_dir := args_skills_dir args </> py "_router") in *.
  assert (Hplain : is_Some (apply_effects fs
            [Mkdir router_dir; WriteText (router_dir </> py "SKILL.md") content;
             Log INFO (py "Router written to "
                       ++ path_str (router_dir </> py "SKILL.md"))])).
  { cbn [apply_effects apply_effect]. rewrite mkdir_p_is_dir by done.
    cbn [mbind option_bind].
    destruct (write_text_over _ content _ _ Hfile) as [fs' ->]. by eexists. }
  destruct (args_backup args); [|done].
  destruct Hfree as [|Hfree]; [done|]. clear Hplain.
  unfold is_file. rewrite Hfile. cbn [andb app apply_effects apply_effect].
  unfold copy2. rewrite Hfile.
  rewrite bool_decide_eq_false_2
    by (intros Heq; rewrite <- Heq, Hfile in Hfree; discriminate Hfree).
  unfold is_dir at 1. rewrite Hfree.
  destruct (write_text_new router_dir (py "SKILL." ++ timestamp ++ py ".bak")
              content fs Hdir Hfree) as (fs_copied & Hcopied & Hother).
  change (backup_file router_dir timestamp)
    with (router_dir ++ [py "SKILL." ++ timestamp ++ py ".bak"]).
  rewrite Hcopied. cbn [mbind option_bind].
  rewrite mkdir_p_is_dir by (by eapply write_text_parent).
  cbn [mbind option_bind].
  assert (Hkept : resolve fs_copied (router_dir </> py "SKILL.md")
                  = Some (File content)).
  { unfold path_div at 1. rewrite Hother; [exact Hfile|].
    intros Heq. unfold backup_file, path_div in Hfree.
    unfold path_div at 1 in Hfile. rewrite <- Heq, Hfile in Hfree.
    discriminate Hfree. }
  destruct (write_text_over _ content _ _ Hkept) as [fs' ->]. by eexists.
Qed.

Lemma main_rerun_from fs home timestamp timestamp' args code st' fs' :
  main fs home timestamp args st0 = Some (code, st') →
  apply_effects fs (trace st') = Some fs' →
  (∀ code'' st'',
     main fs' home timestamp' args st0 = Some (code'', st'') →
     code'' = code ∧ writes (trace st'') = writes (trace st')) ∧
  (args_backup args = false
   ∨ resolve fs' (backup_file (args_skills_dir args </> py "_router") timestamp')
     = None →
   ∃ st'', main fs' home timestamp' args st0 = Some (code, st'')).
Proof.
  intros Hmain Hfs'.
  destruct (is_dir fs (args_skills_dir args)) eqn:Hdir; cycle 1.
  { pose proof (scan_skills_missing fs (args_skills_dir args)
                  (extend st0 [] [Log INFO (py "Scanning: "
                                            ++ path_str (args_skills_dir args))])
                  Hdir) as Hscan.
    rewrite (main_empty _ _ _ _ _ _ Hscan) in Hmain. injection Hmain as <- <-.
    rewrite apply_effects_quiet in Hfs' by done. injection Hfs' as <-.
    rewrite (main_empty _ _ _ _ _ _ Hscan).
    split; [by intros ? ? [= <- <-] | by eexists]. }
  destruct (main_scan fs args st0) as (skills & st1 & Hscan & Hvalid & Hquiet & Hnil).
  set (root := args_skills_dir args) in *.
  assert (Hsame : Forall (inside root (py "_router")) (trace st') →
                  same_visible root fs fs').
  { intros Hin.
    destruct (apply_effects_put _ _ _ _ _ Hdir Hin Hfs') as [->|[new ->]].
    - apply same_visible_refl.
    - apply same_visible_put; [done | apply router_ignored]. }
  destruct (decide (skills = [])) as [->|Hne].
  { rewrite (main_empty _ _ _ _ _ _ Hscan) in Hmain. injection Hmain as <- <-.
    assert (Hq : fs_effects (trace (extend st1 [] [Log WARNING (py "No skills found")]))
                 = []).
    { by rewrite fs_effects_extend, Hquiet. }
    rewrite (scan_skills_visible fs fs') in Hscan by (by apply Hsame, quiet_inside).
    rewrite (main_empty _ _ _ _ _ _ Hscan).
    split; [by intros ? ? [= <- <-] | by eexists]. }
  rewrite (main_modes _ _ _ _ _ _ _ Hscan Hvalid Hne) in Hmain. cbv zeta in Hmain.
  fold root in Hmain.
  match type of Hmain with
  | context [list_skills _ ?s5] =>
      set (st5 := s5) in *;
      assert (H5 : fs_effects (trace st5) = [])
        by (unfold st5; rewrite fs_effects_extend, main_reported_quiet, app_nil_r;
            exact Hquiet)
  end.
  match type of Hmain with
  | context [build_trace fs timestamp args ?c] => set (content := c) in *
  end.
  assert (Hinside : ∀ fs1 ts,
            Forall (inside root (py "_router")) (build_trace fs1 ts args content)).
  { intros fs1 ts. unfold build_trace. cbv zeta. fold root.
    apply Forall_app. split.
    - destruct (args_backup args && is_file fs1 _); [|constructor].
      constructor; [|by repeat constructor].
      exists [py "SKILL." ++ ts ++ py ".bak"].
      unfold backup_file, path_div. by rewrite <- app_assoc.
    - constructor; [by exists []|]. constructor; [|by repeat constructor].
      exists [py "SKILL.md"]. unfold path_div. by rewrite <- app_assoc. }
  assert (Hin : Forall (inside root (py "_router")) (trace st')).
  { destruct (args_list_skills args).
    { destruct (list_skills _ st5) as [[[] st6]|] eqn:Hlist; [|done].
      simpl in Hmain. injection Hmain as <- <-.
      destruct (list_skills_quiet _ _ _ _ Hlist) as (found & logged & -> & Hq).
      apply quiet_inside. by rewrite fs_effects_extend, H5, Hq. }
    destruct (args_validate args).
    { apply quiet_inside. case_bool_decide; injection Hmain as <- <-;
        by rewrite fs_effects_extend, H5. }
    destruct (args_dry_run args).
    { apply quiet_inside. injection Hmain as <- <-.
        by rewrite fs_effects_extend, H5. }
    destruct (apply_effects fs _); [|done].
    injection Hmain as <- <-. unfold extend at 1. cbn [trace].
    apply Forall_app. split; [by apply quiet_inside | apply Hinside]. }
  specialize (Hsame Hin).
  rewrite (scan_skills_visible fs fs') in Hscan by done.
  rewrite (main_modes _ _ _ _ _ _ _ Hscan Hvalid Hne). cbv zeta.
  fold root. fold st5. fold content.
  destruct (args_list_skills args).
  { rewrite Hmain. split; [by intros ? ? [= <- <-] | by eexists]. }
  destruct (args_validate args).
  { rewrite Hmain. split; [by intros ? ? [= <- <-] | by eexists]. }
  destruct (args_dry_run args).
  { rewrite Hmain. split; [by intros ? ? [= <- <-] | by eexists]. }
  destruct (apply_effects fs (build_trace fs timestamp args content))
    as [fs_first|] eqn:Hfirst; [|done].
  injection Hmain as <- <-.
  assert (Hwrites : ∀ fs1 ts,
            writes (trace (extend st5 [] (build_trace fs1 ts args content)))
            = writes (trace st5)
              ++ [(root </> py "_router" </> py "SKILL.md", content)]).
  { intros fs1 ts. unfold extend, build_trace. cbn [trace]. cbv zeta.
    unfold writes. rewrite !omap_app. f_equal.
    by destruct (args_backup args && is_file fs1 _). }
  split.
  - intros code'' st'' Hsecond.
    destruct (apply_effects fs' _); [|done]. injection Hsecond as <- <-.
    split; [done|]. by rewrite !Hwrites.
  - intros Hfree.
    unfold extend in Hfs'. cbn [trace] in Hfs'.
    rewrite apply_effects_app, apply_effects_quiet in Hfs' by done.
    cbn [mbind option_bind] in Hfs'. rewrite Hfirst in Hfs'. injection Hfs' as ->.
    destruct (build_trace_written _ _ _ _ _ Hfirst) as [Hfile Hrouter].
    destruct (build_trace_again fs' timestamp' args content Hfile Hrouter Hfree)
      as [fs'' ->].
    by eexists.
Qed.

(** The copies, the directory and the file that a run which returns has
    logged were all accepted by the file system it ran on. *)
Lemma main_effects_apply fs home timestamp args code st' :
  main fs home timestamp args st0 = Some (code, st') →
  is_Some (apply_effects fs (trace st')).
Proof.
  intros Hmain.
  destruct (main_scan fs args st0) as (skills & st1 & Hscan & Hvalid & Hquiet & Hnil).
  destruct (decide (skills = [])) as [->|Hne].
  { rewrite (main_empty _ _ _ _ _ _ Hscan) in Hmain. injection Hmain as <- <-.
    rewrite apply_effects_quiet; [by eexists|].
    by rewrite fs_effects_extend, Hquiet. }
  rewrite (main_modes _ _ _ _ _ _ _ Hscan Hvalid Hne) in Hmain. cbv zeta in Hmain.
  match type of Hmain with
  | context [list_skills _ ?s5] =>
      set (st5 := s5) in *;
      assert (H5 : fs_effects (trace st5) = [])
        by (unfold st5; rewrite fs_effects_extend, main_reported_quiet, app_nil_r;
            exact Hquiet)
  end.
  destruct (args_list_skills args).
  { destruct (list_skills _ st5) as [[[] st6]|] eqn:Hlist; [|done].
    simpl in Hmain. injection Hmain as <- <-.
    destruct (list_skills_quiet _ _ _ _ Hlist) as (found & logged & -> & Hq).
    rewrite apply_effects_quiet; [by eexists|].
    by rewrite fs_effects_extend, H5, Hq. }
  destruct (args_validate args).
  { case_bool_decide; injection Hmain as <- <-;
      (rewrite apply_effects_quiet; [by eexists|]);
      by rewrite fs_effects_extend, H5. }
  destruct (args_dry_run args).
  { injection Hmain as <- <-. rewrite apply_effects_quiet; [by eexists|].
    by rewrite fs_effects_extend, H5. }
  destruct (apply_effects fs _) as [fs'|] eqn:Hfirst; [|done].
  injection Hmain as <- <-. unfold extend. cbn [trace].
  rewrite apply_effects_app, apply_effects_quiet by done.
  cbn [mbind option_bind]. rewrite Hfirst. by eexists.
Qed.

(** X16: a run that returns leaves a file system on which a second run, at
    any later time, when it returns, returns the same status and has
    written the same text: the router directory, its file and the backups
    lie where the scan does not look. The second run does return when it
    makes no backup, and when the name of its backup is free. *)
Theorem main_rerun fs home timestamp timestamp' args code st' :
  main fs home timestamp args st0 = Some (code, st') →
  ∃ fs',
    apply_effects fs (trace st') = Some fs' ∧
    (∀ code'' st'',
       main fs' home timestamp' args st0 = Some (code'', st'') →
       code'' = code ∧ writes (trace st'') = writes (trace st')) ∧
    (args_backup args = false
     ∨ resolve fs' (backup_file (args_skills_dir args </> py "_router") timestamp')
       = None →
     ∃ st'', main fs' home timestamp' args st0 = Some (code, st'')).
Proof.
  intros Hmain.
  destruct (main_effects_apply _ _ _ _ _ _ Hmain) as [fs' Hfs'].
  exists fs'. split; [exact Hfs'|].
  by apply (main_rerun_from fs home timestamp).
Qed.

Lemma main_rerun_witness :
  ∃ st' fs' st'',
    main backup_fs demo_home (py "20240101_120000") (build_with_backup backup_root) st0
    = Some (0, st') ∧
    apply_effects backup_fs (trace st') = Some fs' ∧
    is_file fs' (backup_root </> py "_router" </> py "SKILL.md") = true ∧
    main fs' demo_home (py "20240102_120000") (build_with_backup backup_root) st0
    = Some (0, st'') ∧
    writes (trace st'') = writes (trace st').
Proof.
  assert (Hfirst : ∃ st' fs',
            main backup_fs demo_home (py "20240101_120000")
              (build_with_backup backup_root) st0
            = Some (0, st') ∧
            apply_effects backup_fs (trace st') = Some fs' ∧
            is_file fs' (backup_root </> py "_router" </> py "SKILL.md") = true ∧
            resolve fs' (backup_file (backup_root </> py "_router")
                           (py "20240102_120000")) = None).
  { eexists _, _. split_and!; vm_compute; reflexivity. }
  destruct Hfirst as (st' & fs' & Hmain & Hfs' & Hfile & Hfree).
  destruct (main_rerun backup_fs demo_home (py "20240101_120000")
              (py "20240102_120000") (build_with_backup backup_root) 0 st' Hmain)
    as (fs2 & Hfs2 & Hsame & Hreturns).
  rewrite Hfs' in Hfs2. injection Hfs2 as <-.
  destruct (Hreturns (or_intror Hfree)) as [st'' Hsecond].
  destruct (Hsame 0 st'' Hsecond) as [_ Hwrites].
  exists st', fs', st''.
  split; [exact Hmain|]. split; [exact Hfs'|]. split; [exact Hfile|].
  split; [exact Hsecond | exact Hwrites].
Defined.

(** Where the name of the backup is taken in this way, the copy is refused
    and the run raises; without [--backup] it returns. *)
Example main_backup_refused :
  main occupied_fs demo_home (py "T") (build_with_backup blocked_root) st0 = None ∧
  fst <$> main occupied_fs demo_home (py "T") (build blocked_root) st0 = Some 0.
Proof. split; vm_compute; reflexivity. Qed.

(** ** The fields of a record *)

Lemma located_skill_fields fs dir_path content :
  let s := located_skill fs dir_path content in
  path_name dir_path ≠ [] →
  name s ≠ [] ∧
  (name s = path_name dir_path ∨
   strip (name s) = name s ∧ ∀ c, c ∈ name s → is_linebreak c = false) ∧
  (∀ d, description s = Some d →
        strip d = d ∧ ∀ c, c ∈ d → is_linebreak c = false) ∧
  length (warnings s) ≤ 2.
Proof.
  intros s Hdir. unfold s, located_skill. cbn [name description warnings].
  split_and!.
  - by destruct (parse_frontmatter content !! py "name") as [[|c n]|].
  - destruct (parse_frontmatter content !! py "name") as [[|c n]|] eqn:Hname;
      [by left| |by left].
    right. apply parse_frontmatter_lookup_trimmed in Hname as (_ & Hv & _ & Hbreak).
    split; [done|]. intros a Ha. apply Hbreak, elem_of_app. by right.
  - intros d Hd.
    apply parse_frontmatter_lookup_trimmed in Hd as (_ & Hv & _ & Hbreak).
    split; [done|]. intros a Ha. apply Hbreak, elem_of_app. by right.
  - rewrite length_app.
    destruct (parse_frontmatter content !! py "name") as [[|? ?]|],
      (parse_frontmatter content !! py "description") as [[|? ?]|]; simpl; lia.
Qed.

(** X17: the record of a directory that has a name has a name that is not
    empty: the value of the [name] field, which is then trimmed and holds
    no line boundary, or the name of the directory. A description, when
    there is one, is trimmed and holds no line boundary, and there are at
    most two warnings. *)
Theorem find_skill_in_dir_fields fs dir_path st skill st' :
  path_name dir_path ≠ [] →
  find_skill_in_dir fs dir_path st = Some (Some skill, st') →
  ∃ s,
    objects st' !! skill = Some s ∧ path s = dir_path ∧
    name s ≠ [] ∧
    (name s = path_name dir_path ∨
     strip (name s) = name s ∧ ∀ c, c ∈ name s → is_linebreak c = false) ∧
    (∀ d, description s = Some d →
          strip d = d ∧ ∀ c, c ∈ d → is_linebreak c = false) ∧
    length (warnings s) ≤ 2.
Proof.
  intros Hdir. rewrite find_skill_in_dir_run. unfold locate.
  destruct (resolve fs (dir_path </> py "SKILL.md")) as [[content|?]|]; try done.
  intros [= <- <-]. exists (located_skill fs dir_path content).
  split; [unfold extend; cbn [objects]; by apply list_lookup_middle|].
  split; [done|]. by apply located_skill_fields.
Qed.

Lemma find_skill_in_dir_fields_witness :
  ∃ s,
    objects (extend st0 (scan_records empty_fields_fs []) []) !! 0 = Some s ∧
    name s = py "tool".
Proof.
  destruct (find_skill_in_dir_fields empty_fields_fs [py "tool"] st0 0
              (extend st0 (scan_records empty_fields_fs []) []))
    as (s & Hs & _ & _ & [Hname|[_ _]] & _).
  - discriminate.
  - vm_compute. reflexivity.
  - exists s. split; [exact Hs | exact Hname].
  - exists s. split; [exact Hs|].
    assert (Hobj : objects (extend st0 (scan_records empty_fields_fs []) []) !! 0
                   = Some (located_skill empty_fields_fs [py "tool"] (py "---
name:
description:
---
"))) by (vm_compute; reflexivity).
    rewrite Hobj in Hs. injection Hs as <-. vm_compute. reflexivity.
Defined.

(** ** Text after the frontmatter *)

Lemma startswith_app_l p : ∀ s r,
  startswith p s = true → startswith p (s ++ r) = true.
Proof.
  induction p as [|a p IH]; intros [|b s] r; simpl; try done.
  intros [-> Hp]%andb_true_iff. by rewrite IH.
Qed.

Lemma startswith_length p : ∀ s, startswith p s = true → length p ≤ length s.
Proof.
  induction p as [|a p IH]; intros [|b s]; simpl; try done; [lia|].
  intros [_ Hp%IH]%andb_true_iff. lia.
Qed.

Lemma startswith_app_inv p : ∀ s r,
  startswith p (s ++ r) = true → length p ≤ length s → startswith p s = true.
Proof.
  induction p as [|a p IH]; intros [|b s] r; simpl; try done; [lia|].
  intros [-> Hp]%andb_true_iff Hlen. by rewrite (IH s r) by (done || lia).
Qed.

Lemma before_first_length pat s g :
  before_first pat s = Some g → length pat ≤ length s.
Proof.
  revert g. induction s as [|c s IH]; intros g.
  - simpl. destruct (startswith pat []) eqn:Hp; [|done].
    intros _. by apply startswith_length in Hp.
  - rewrite before_first_cons.
    destruct (startswith pat (c :: s)) eqn:Hp.
    + intros _. by apply startswith_length in Hp.
    + destruct (before_first pat s) as [g'|]; [|done]. intros _.
      specialize (IH g' eq_refl). simpl. lia.
Qed.

Lemma before_first_Some_app pat s r g :
  before_first pat s = Some g → before_first pat (s ++ r) = Some g.
Proof.
  revert g. induction s as [|c s IH]; intros g.
  - simpl. destruct (startswith pat []) eqn:Hp; [|done]. intros [= <-].
    destruct pat; [|done]. by destruct r.
  - rewrite <- app_comm_cons, !before_first_cons.
    destruct (startswith pat (c :: s)) eqn:Hp.
    + intros [= <-]. by rewrite (app_comm_cons s r c), startswith_app_l.
    + destruct (before_first pat s) as [g'|] eqn:Hbf; [|done]. intros [= <-].
      rewrite (IH g' eq_refl).
      destruct (startswith pat (c :: s ++ r)) eqn:Hp'; [|done].
      rewrite (app_comm_cons s r c) in Hp'.
      apply startswith_app_inv in Hp'; [congruence|].
      apply before_first_length in Hbf. simpl. lia.
Qed.

Lemma before_first_elem c pat s g : before_first (c :: pat) s = Some g → c ∈ s.
Proof.
  revert g. induction s as [|x s IH]; intros g; [done|].
  rewrite before_first_cons.
  destruct (startswith (c :: pat) (x :: s)) eqn:Hp.
  - intros _. simpl in Hp. apply andb_true_iff in Hp as [Hc _].
    apply bool_decide_eq_true in Hc as ->. by left.
  - destruct (before_first (c :: pat) s) as [g'|]; [|done]. intros _.
    right. by eapply IH.
Qed.

Lemma after_last_fresh c s : c ∉ after_last c s.
Proof.
  induction s as [|x s IH]; simpl; [apply not_elem_of_nil|].
  case_bool_decide; [done|]. case_bool_decide; [done|].
  by apply not_elem_of_cons.
Qed.

Lemma leading_space_app x r :
  lstrip x ≠ [] →
  leading_space (x ++ r) = leading_space x ∧ lstrip (x ++ r) = lstrip x ++ r.
Proof.
  induction x as [|c x IH]; [done|]. simpl.
  destruct (isspace c); [|done]. intros [-> ->]%IH. done.
Qed.

Lemma frontmatter_block_app content rest body :
  frontmatter_block content = Some body →
  frontmatter_block (content ++ rest) = Some body.
Proof.
  unfold frontmatter_block.
  destruct (startswith DELIM content) eqn:Hstart; [|done].
  rewrite startswith_app_l by done. cbv zeta.
  rewrite drop_app_le by (by apply startswith_length).
  generalize (drop (length DELIM) content). intros text.
  case_bool_decide as Hws; [|done]. intros Hblock.
  destruct (leading_space_app text rest) as [-> ->].
  - intros Hnil. rewrite Hnil, app_nil_r in Hblock.
    apply before_first_elem in Hblock. by apply after_last_fresh in Hblock.
  - rewrite bool_decide_eq_true_2 by done.
    rewrite app_assoc. by apply before_first_Some_app.
Qed.

(** X18: once a text gives a mapping that is not empty, nothing that is
    appended to the text changes the mapping: the fields are decided by
    the text up to the closing delimiter. *)
Theorem parse_frontmatter_append content rest :
  parse_frontmatter content ≠ ∅ →
  parse_frontmatter (content ++ rest) = parse_frontmatter content.
Proof.
  intros Hne.
  destruct (parse_frontmatter_block content) as (lines & Hparse & Hblock).
  destruct (frontmatter_block content) as [body|] eqn:Hbody; cycle 1.
  { destruct Hne. rewrite Hparse. by apply read_lines_no_colon. }
  destruct (parse_frontmatter_block (content ++ rest)) as (lines' & Hparse' & Hblock').
  rewrite (frontmatter_block_app _ _ _ Hbody) in Hblock'.
  by rewrite Hparse, Hparse', Hblock, Hblock'.
Qed.

Lemma parse_frontmatter_append_witness :
  parse_frontmatter (fenced_text ++ py "
---
name: other
---")
  = parse_frontmatter fenced_text.
Proof.
  apply (parse_frontmatter_append fenced_text).
  assert (Hname : parse_frontmatter fenced_text !! py "name" = Some (py "alpha"))
    by (vm_compute; reflexivity).
  intros Hnil. rewrite Hnil, lookup_empty in Hname. discriminate Hname.
Defined.

(** ** A descriptor with both fields *)

(** X19: a descriptor written with plain entries among which [name] and
    [description] have values that are not empty gives a record with those
    values, the helpers that exist, and no warning. *)
Theorem find_skill_in_dir_well_formed fs dir_path st entries rest n d :
  resolve fs (dir_path </> py "SKILL.md")
  = Some (File (render_frontmatter entries rest)) →
  entries ≠ [] → Forall plain_entry entries →
  foldl (λ m e, <[e.1 := e.2]> m) (∅ : gmap str str) entries !! py "name" = Some n →
  foldl (λ m e, <[e.1 := e.2]> m) (∅ : gmap str str) entries !! py "description"
  = Some d →
  n ≠ [] → d ≠ [] →
  find_skill_in_dir fs dir_path st
  = Some (Some (length (objects st)),
          extend st
            [{| name := n; path := dir_path; description := Some d;
                helpers := filter (λ h, is_dir fs (dir_path </> h) = true)
                             helper_names;
                warnings := [] |}] []).
Proof.
  intros Hfile Hne Hplain Hname Hdesc Hn Hd.
  rewrite find_skill_in_dir_run. unfold locate. rewrite Hfile.
  do 3 f_equal. unfold located_skill.
  destruct (parse_frontmatter_block (render_frontmatter entries rest))
    as (lines & -> & Hblock).
  rewrite frontmatter_block_render in Hblock by done. subst lines.
  rewrite splitlines_render, read_rendered, Hname, Hdesc by done.
  by destruct n, d.
Qed.

Lemma find_skill_in_dir_well_formed_witness :
  find_skill_in_dir
    (Dir {[ py "tool" := Dir {[ py "SKILL.md" := File (py "---
name: tool
description: does X: well
---
# Tool") ]} ]})
    [py "tool"] st0
  = Some (Some 0,
          extend st0
            [{| name := py "tool"; path := [py "tool"];
                description := Some (py "does X: well");
                helpers := []; warnings := [] |}] []).
Proof.
  rewrite (find_skill_in_dir_well_formed _ [py "tool"] st0
             [(py "name", py "tool"); (py "description", py "does X: well")]
             (py "
# Tool") (py "tool") (py "does X: well")); try (vm_compute; reflexivity).
  - discriminate.
  - repeat apply Forall_cons_2; [..|apply Forall_nil_2].
    all: split_and!;
      [first [vm_compute; reflexivity
             |apply (bool_decide_unpack _); vm_compute; exact I] ..|].
    all: apply Forall_forall; repeat apply Forall_cons_2; [..|apply Forall_nil_2].
    all: vm_compute; reflexivity.
  - discriminate.
  - discriminate.
Defined.

(** ** The index and the order of discovery *)

Lemma NoDup_fmap_elem_inj {A B} (f : A → B) (l : list A) x y :
  NoDup (f <$> l) → x ∈ l → y ∈ l → f x = f y → x = y.
Proof.
  induction l as [|a l IH]; [by intros _ ?%elem_of_nil|].
  rewrite fmap_cons. intros [Ha Hl]%NoDup_cons.
  intros [->|Hx]%elem_of_cons [->|Hy]%elem_of_cons Hf; [done| | |by apply IH].
  - destruct Ha. rewrite Hf. by apply list_elem_of_fmap_2.
  - destruct Ha. rewrite <- Hf. by apply list_elem_of_fmap_2.
Qed.

Lemma sorted_Permutation_eq {A} (key : A → str) (l1 l2 : list A) :
  l1 ≡ₚ l2 → NoDup (key <$> l1) →
  sorted str_leb key l1 = sorted str_leb key l2.
Proof.
  intros Hperm Hnodup.
  apply (StronglySorted_unique_strong (λ a b, str_leb (key a) (key b) = true)).
  - intros x y Hx Hy Hxy Hyx.
    rewrite sorted_Permutation in Hx. rewrite sorted_Permutation, <- Hperm in Hy.
    apply (NoDup_fmap_elem_inj key l1); [done..|]. by apply str_leb_antisym.
  - apply sorted_StronglySorted; [apply str_leb_total | apply str_leb_trans].
  - apply sorted_StronglySorted; [apply str_leb_total | apply str_leb_trans].
  - by rewrite !sorted_Permutation.
Qed.

(** X20: the index does not depend on the order in which the records were
    found: two lists with the same records, no two of the same name, give
    the same text. *)
Theorem generate_router_content_order_free home st skills1 skills2 :
  valid_refs st skills1 → skills1 ≡ₚ skills2 →
  NoDup (name_of (objects st) <$> skills1) →
  generate_router_content home skills1 st
  = generate_router_content home skills2 st.
Proof.
  intros Hvalid Hperm Hnodup.
  assert (Hvalid2 : valid_refs st skills2).
  { unfold valid_refs. by rewrite <- Hperm. }
  rewrite !generate_router_content_run by done. do 2 f_equal.
  unfold router_text. do 4 f_equal.
  apply sorted_Permutation_eq.
  - unfold deref. by rewrite Hperm.
  - apply (NoDup_fmap_1 Some). by rewrite name_of_deref.
Qed.

Lemma generate_router_content_order_free_witness :
  generate_router_content [py "home"; py "u"] [0; 1] sample_store
  = generate_router_content [py "home"; py "u"] [1; 0] sample_store.
Proof.
  apply generate_router_content_order_free.
  - apply sample_store_valid.
  - apply Permutation_swap.
  - apply (bool_decide_unpack _). vm_compute. exact I.
Defined.
